(** * transmake: translucency-table generator

    A shallow embedding of [transmake.c] and the properties of its
    palette indexer, blend engine, command-line parser and driver.

    Conventions.
    - [unsigned char], [int], [signed short] values are [Z]; every
      narrowing conversion the C code performs is written out
      ([to_uchar], [to_short]).
    - [size_t]/[int] loop counters that index arrays are [nat]; arrays
      are lists read with stdpp's total lookup and written with
      its list insert.
    - [float] is IEEE-754 binary32, computed with the parametric
      operations of [SpecFloat] at precision 24 and maximal
      exponent 128 (round to nearest, ties to even).
    - The contents of an uninitialised automatic variable are an
      extra argument of the function that declares it. *)

From Stdlib Require Import ZArith Lia Bool Ascii String.
From Stdlib Require Import Floats.SpecFloat.
From Stdlib Require Strings.Byte DecimalString.
From stdpp Require Import base list.

Local Open Scope Z_scope.

(** ** Integer conversions *)

(** Conversion to [unsigned char]. *)
Definition to_uchar (z : Z) : Z := z mod 256.

(** Conversion to [signed short] (16-bit two's complement). *)
Definition to_short (z : Z) : Z := (z + 32768) mod 65536 - 32768.

(** The range of an [unsigned char]. *)
Definition is_uchar (z : Z) : Prop := 0 <= z <= 255.

(** ** binary32 arithmetic *)

Definition f32_prec : Z := 24.
Definition f32_emax : Z := 128.

(** [(float)n] for an integer [n]. *)
Definition f32_of_int (n : Z) : spec_float :=
  binary_normalize f32_prec f32_emax n 0 false.

Definition f32_add : spec_float -> spec_float -> spec_float :=
  SFadd f32_prec f32_emax.
Definition f32_sub : spec_float -> spec_float -> spec_float :=
  SFsub f32_prec f32_emax.
Definition f32_mul : spec_float -> spec_float -> spec_float :=
  SFmul f32_prec f32_emax.
Definition f32_div : spec_float -> spec_float -> spec_float :=
  SFdiv f32_prec f32_emax.

(** [(int)f]: the fractional part is discarded (truncation toward
    zero).  Infinities and NaN, for which C leaves the conversion
    undefined, are sent to 0; no computation below produces them. *)
Definition f32_to_int (f : spec_float) : Z :=
  match f with
  | S754_finite s m e =>
      let v := if 0 <=? e then Z.pos m * 2 ^ e
               else Z.quot (Z.pos m) (2 ^ (- e)) in
      if s then - v else v
  | _ => 0
  end.

(** ** Structs and enums *)

(** [RGBA_t]: the four channels of the union's struct view [s].  The
    [rgba] view overlays all four, so copying [rgba] copies the four
    channels. *)
Record RGBA_t : Type := mkRGBA
  { s_red : Z; s_green : Z; s_blue : Z; s_alpha : Z }.

Global Instance RGBA_t_inhabited : Inhabited RGBA_t :=
  populate (mkRGBA 0 0 0 0).

Definition set_red (c : RGBA_t) (v : Z) : RGBA_t :=
  mkRGBA v (s_green c) (s_blue c) (s_alpha c).
Definition set_green (c : RGBA_t) (v : Z) : RGBA_t :=
  mkRGBA (s_red c) v (s_blue c) (s_alpha c).
Definition set_blue (c : RGBA_t) (v : Z) : RGBA_t :=
  mkRGBA (s_red c) (s_green c) v (s_alpha c).
Definition set_alpha (c : RGBA_t) (v : Z) : RGBA_t :=
  mkRGBA (s_red c) (s_green c) (s_blue c) v.

Inductive alphastyle_e : Type :=
  | AST_TRANSLUCENT
  | AST_ADD
  | AST_SUBTRACT
  | AST_REVERSESUBTRACT
  | AST_MODULATE.

(** A colour all of whose channels are bytes. *)
Definition rgba_ok (c : RGBA_t) : Prop :=
  is_uchar (s_red c) /\ is_uchar (s_green c) /\
  is_uchar (s_blue c) /\ is_uchar (s_alpha c).

(** ** Macros *)

Definition min (x y : Z) : Z := if x <? y then x else y.
Definition max (x y : Z) : Z := if x >? y then x else y.

(** [#define clamp(c) max(min(c, 0xFF), 0x00)] *)
Definition clamp (c : Z) : Z := max (min c 255) 0.

(** ** Palette reading *)

Definition PALSIZE : nat := 256 * 3.

(** The static array [palette] has [PALSIZE] zero-initialised
    entries. *)
Definition palette_init : list RGBA_t := replicate PALSIZE (mkRGBA 0 0 0 0).

Definition byte_val (b : Byte.byte) : Z := Z.of_N (Byte.to_N b).

Global Instance byte_inhabited : Inhabited Byte.byte := populate Byte.x00.

(** The loop "Make RGBA palette".  Its condition is the comma
    expression [i < 256, j < PALSIZE], whose value is [j < PALSIZE];
    [n] bounds the iterations that remain. *)
Fixpoint Pal_Read_loop (rpalette : list Byte.byte) (n i j : nat)
    (palette : list RGBA_t) : list RGBA_t :=
  match n with
  | O => palette
  | S n' =>
      if (j <? PALSIZE)%nat then
        let e := palette !!! i in
        let e := set_red e (byte_val (rpalette !!! j)) in
        let e := set_green e (byte_val (rpalette !!! (j + 1)%nat)) in
        let e := set_blue e (byte_val (rpalette !!! (j + 2)%nat)) in
        let e := set_alpha e 255 in
        Pal_Read_loop rpalette n' (S i) (j + 3)%nat (<[i := e]> palette)
      else palette
  end.

(** ** Blending functions *)

Section Blend.

Variable palette : list RGBA_t.

Section Nearest.

Variables r g b : Z.

Definition distortion_to (c : RGBA_t) : Z :=
  let dr := r - s_red c in
  let dg := g - s_green c in
  let db := b - s_blue c in
  dr * dr + dg * dg + db * db.

(** The scan of [NearestPaletteColor]: [n] iterations remain, [i]
    is the loop counter. *)
Fixpoint NearestPaletteColor_loop (n i : nat)
    (bestdistortion bestcolor : Z) : Z :=
  match n with
  | O => to_uchar bestcolor
  | S n' =>
      let distortion := distortion_to (palette !!! i) in
      if distortion <? bestdistortion then
        if distortion =? 0 then to_uchar (Z.of_nat i)
        else NearestPaletteColor_loop n' (S i) distortion (Z.of_nat i)
      else NearestPaletteColor_loop n' (S i) bestdistortion bestcolor
  end.

Definition NearestPaletteColor : Z :=
  NearestPaletteColor_loop 256 0 (256 * 256 * 4) 0.

End Nearest.

(** [output] is the content of the uninitialised local of that name
    when the function is entered. *)
Definition ASTBlendPixel (output : RGBA_t) (background foreground : RGBA_t)
    (style : alphastyle_e) (alpha : Z) : RGBA_t :=
  let fullalpha := to_short (alpha - (255 - s_alpha foreground)) in
  match style with
  | AST_TRANSLUCENT =>
      if fullalpha <=? 0 then background
      else
        let fullalpha := if fullalpha >=? 255 then 255 else fullalpha in
        let alpha := to_uchar fullalpha in
        if s_alpha background =? 0 then set_alpha output 0
        else
          let beta := to_uchar (255 - alpha) in
          mkRGBA
            (to_uchar (Z.quot (s_red background * beta
                               + s_red foreground * alpha) 255))
            (to_uchar (Z.quot (s_green background * beta
                               + s_green foreground * alpha) 255))
            (to_uchar (Z.quot (s_blue background * beta
                               + s_blue foreground * alpha) 255))
            255
  | _ =>
      let falpha := f32_div (f32_of_int alpha) (f32_of_int 256) in
      let fr := f32_mul (f32_of_int (s_red foreground)) falpha in
      let fg := f32_mul (f32_of_int (s_green foreground)) falpha in
      let fb := f32_mul (f32_of_int (s_blue foreground)) falpha in
      let output :=
        match style with
        | AST_ADD =>
            mkRGBA
              (to_uchar (clamp (f32_to_int
                 (f32_add (f32_of_int (s_red background)) fr))))
              (to_uchar (clamp (f32_to_int
                 (f32_add (f32_of_int (s_green background)) fg))))
              (to_uchar (clamp (f32_to_int
                 (f32_add (f32_of_int (s_blue background)) fb))))
              (s_alpha output)
        | AST_SUBTRACT =>
            mkRGBA
              (to_uchar (clamp (f32_to_int
                 (f32_sub (f32_of_int (s_red background)) fr))))
              (to_uchar (clamp (f32_to_int
                 (f32_sub (f32_of_int (s_green background)) fg))))
              (to_uchar (clamp (f32_to_int
                 (f32_sub (f32_of_int (s_blue background)) fb))))
              (s_alpha output)
        | AST_REVERSESUBTRACT =>
            mkRGBA
              (to_uchar (clamp (f32_to_int
                 (f32_add (f32_of_int (- s_red background)) fr))))
              (to_uchar (clamp (f32_to_int
                 (f32_add (f32_of_int (- s_green background)) fg))))
              (to_uchar (clamp (f32_to_int
                 (f32_add (f32_of_int (- s_blue background)) fb))))
              (s_alpha output)
        | _ =>
            let fr := f32_div (f32_of_int (s_red foreground))
                              (f32_of_int 256) in
            let fg := f32_div (f32_of_int (s_green foreground))
                              (f32_of_int 256) in
            let fb := f32_div (f32_of_int (s_blue foreground))
                              (f32_of_int 256) in
            mkRGBA
              (to_uchar (clamp (f32_to_int
                 (f32_mul (f32_of_int (s_red background)) fr))))
              (to_uchar (clamp (f32_to_int
                 (f32_mul (f32_of_int (s_green background)) fg))))
              (to_uchar (clamp (f32_to_int
                 (f32_mul (f32_of_int (s_blue background)) fb))))
              (s_alpha output)
        end in
      set_alpha output 255
  end.

End Blend.

(** ** Table generation *)

Definition amtmul : spec_float := f32_div (f32_of_int 256) (f32_of_int 10).

(** [unsigned char blendamt = (amtmul * trans);] *)
Definition blendamt_of (trans : Z) : Z :=
  to_uchar (f32_to_int (f32_mul amtmul (f32_of_int trans))).

Section Table.

Variable palette : list RGBA_t.
Variable blendstyle : alphastyle_e.

(** [indeterminate y x] is what the local [output] of [ASTBlendPixel]
    holds on entry in the call made for row [y], column [x]. *)
Variable indeterminate : nat -> nat -> RGBA_t.

Variable blendamt : Z.

(** The body of the two nested loops. *)
Definition T_BlendTrans_cell (y x : nat) : Z :=
  let backcolor := to_uchar (Z.of_nat y) in
  let frontcolor := to_uchar (Z.of_nat x) in
  let backrgba := palette !!! Z.to_nat backcolor in
  let frontrgba := palette !!! Z.to_nat frontcolor in
  let result :=
    ASTBlendPixel (indeterminate y x) backrgba frontrgba
                  blendstyle blendamt in
  NearestPaletteColor palette (s_red result) (s_green result)
                      (s_blue result).

(** [for (x = 0; x < 256; x++)], with [n] iterations to go. *)
Fixpoint T_BlendTrans_x (y : nat) (n x : nat) (working : list Z)
    : list Z :=
  match n with
  | O => working
  | S n' =>
      T_BlendTrans_x y n' (S x)
        (<[(y * 256 + x)%nat := T_BlendTrans_cell y x]> working)
  end.

(** [for (y = 0; y < 256; y++)], with [n] iterations to go. *)
Fixpoint T_BlendTrans_y (n y : nat) (working : list Z) : list Z :=
  match n with
  | O => working
  | S n' => T_BlendTrans_y n' (S y) (T_BlendTrans_x y 256 0 working)
  end.

End Table.

(** [T_BlendTrans] updates the static buffer [working] in place. *)
Definition T_BlendTrans (palette : list RGBA_t) (blendstyle : alphastyle_e)
    (indeterminate : nat -> nat -> RGBA_t) (trans : Z)
    (working : list Z) : list Z :=
  let blendamt := blendamt_of trans in
  T_BlendTrans_y palette blendstyle indeterminate blendamt 256 0 working.

(** The static buffer [working]: 65536 zero bytes at program start. *)
Definition working_init : list Z := replicate (256 * 256) 0.

(** ** Program state, the outside world, and the monad of the driver *)

Local Open Scope string_scope.

(** The globals set by the command line. *)
Record parms : Type := mkParms
  { parm_palettefile : option string;
    parm_outprefix : option string;
    parm_outfiles : option string;
    blendstyle : alphastyle_e }.

Definition parms_init : parms := mkParms None None None AST_TRANSLUCENT.

(** What the program does to the outside world. *)
Inductive event : Type :=
  | Ev_stdout (line : string)
  | Ev_copyright (to_stderr full : bool)
  | Ev_parminfo
  | Ev_fwrite (filename : string) (data : list Z).

Record globals : Type := mkGlobals
  { g_parms : parms;
    g_palette : list RGBA_t;
    g_working : list Z;
    g_trace : list event }.

Definition globals_init : globals :=
  mkGlobals parms_init palette_init working_init [].

(** What the outside world answers.

    - [malloc_ok]: [malloc] returns a block.  [malloc_slack n] is the
      number of bytes after the [n] requested that the block can take
      without harm.  The C standard promises none; allocators round
      the request up.
    - [fopen_rb name]: [None] when the file does not open for
      reading, else the bytes that reading the stream delivers.
      [ftell_end name] is what [ftell] answers at the end of that
      stream: the number of bytes for a regular file, but not for
      every stream that opens (a directory, a pipe).
    - [fopen_wb name]: the file opens for writing.
    - [env_indeterminate]: the content of uninitialised memory. *)
Record env : Type := mkEnv
  { malloc_ok : bool;
    malloc_slack : nat -> nat;
    fopen_rb : string -> option (list Byte.byte);
    ftell_end : string -> Z;
    fopen_wb : string -> bool;
    env_indeterminate : Z -> nat -> nat -> RGBA_t }.

(** How a computation ends: it returns, it calls [exit], or it does
    something on which the C standard puts no requirement. *)
Inductive result (A : Type) : Type :=
  | Done (a : A)
  | Exited (status : Z)
  | Undefined.
Arguments Done {A} a.
Arguments Exited {A} status.
Arguments Undefined {A}.

Definition M (A : Type) : Type := globals -> globals * result A.

Definition ret {A : Type} (a : A) : M A := fun g => (g, Done a).

Definition bind {A B : Type} (m : M A) (k : A -> M B) : M B :=
  fun g =>
    match m g with
    | (g', Done a) => k a g'
    | (g', Exited status) => (g', Exited status)
    | (g', Undefined) => (g', Undefined)
    end.

Global Instance M_ret : MRet M := @ret.
Global Instance M_bind : MBind M := fun A B k m => bind m k.

Definition get : M globals := fun g => (g, Done g).
Definition exit {A : Type} (status : Z) : M A := fun g => (g, Exited status).
Definition undefined {A : Type} : M A := fun g => (g, Undefined).
Definition emit (e : event) : M unit :=
  fun g => (mkGlobals (g_parms g) (g_palette g) (g_working g)
                      (g_trace g ++ [e]), Done tt).
Definition set_parms (p : parms) : M unit :=
  fun g => (mkGlobals p (g_palette g) (g_working g) (g_trace g), Done tt).
Definition set_palette (pal : list RGBA_t) : M unit :=
  fun g => (mkGlobals (g_parms g) pal (g_working g) (g_trace g), Done tt).
Definition set_working (w : list Z) : M unit :=
  fun g => (mkGlobals (g_parms g) (g_palette g) w (g_trace g), Done tt).

Definition EXIT_FAILURE : Z := 1.

(** ** Informative functions *)

(** The first [n] characters of a string. *)
Fixpoint string_take (n : nat) (s : string) : string :=
  match n, s with
  | S n', String c s' => String c (string_take n' s')
  | _, _ => EmptyString
  end.

(** The macro [VA_OUTPUT]: [vsnprintf(out, 1024, format, list)] leaves
    in [out] the first 1023 characters of [formatted], the text that
    the format and its arguments give. *)
Definition VA_OUTPUT (formatted : string) : string :=
  string_take 1023 formatted.

(** [fprintf(stdout, out)]: the text is the format, and no argument
    follows.  A character other than [%] is printed, [%%] prints [%],
    and every other use of [%] is a directive without its argument,
    or no directive at all: undefined ([None]). *)
Fixpoint fprintf_no_args (out : string) : option string :=
  match out with
  | EmptyString => Some EmptyString
  | String c rest =>
      if Ascii.eqb c "%" then
        match rest with
        | String c' rest' =>
            if Ascii.eqb c' "%"
            then option_map (String "%") (fprintf_no_args rest')
            else None
        | EmptyString => None
        end
      else option_map (String c) (fprintf_no_args rest)
  end.

(** The three functions take the text already formatted; each event
    is one line of output. *)
Definition T_OutputMessage (formatted : string) : M unit :=
  match fprintf_no_args (VA_OUTPUT formatted) with
  | Some line => emit (Ev_stdout line)
  | None => undefined
  end.
Definition T_OutputWarning (formatted : string) : M unit :=
  match fprintf_no_args (VA_OUTPUT formatted) with
  | Some line => emit (Ev_stdout ("WARNING: " ++ line))
  | None => undefined
  end.
Definition T_OutputError (formatted : string) : M unit :=
  match fprintf_no_args (VA_OUTPUT formatted) with
  | Some line => emit (Ev_stdout ("ERROR: " ++ line))
  | None => undefined
  end.
Definition T_PrintCopyrightText (to_stderr full : bool) : M unit :=
  emit (Ev_copyright to_stderr full).
Definition T_PrintParmInfo : M unit := emit Ev_parminfo.

(** A line of standard output that reports an error. *)
Definition is_error_line (e : event) : bool :=
  match e with
  | Ev_stdout line => String.prefix "ERROR: " line
  | _ => false
  end.

Section Program.

Variable E : env.

(** ** Palette reading *)

Definition Pal_Read (inpal : string) : M unit :=
  match fopen_rb E inpal with
  | None =>
      T_OutputError "Could not open palette file for reading." ;;
      exit EXIT_FAILURE
  | Some contents =>
      (* Get the file size *)
      let size := ftell_end E inpal in
      if (size <? Z.of_nat PALSIZE)%Z then
        T_OutputError "Palette file has incorrect size!" ;;
        exit EXIT_FAILURE
      (* fread(&rpalette, PALSIZE, 1, fp) != 1 *)
      else if negb (PALSIZE <=? length contents)%nat then
        T_OutputError "Couldn't read palette file!" ;;
        exit EXIT_FAILURE
      else
        let rpalette := take PALSIZE contents in
        g ← get;
        set_palette
          (Pal_Read_loop rpalette PALSIZE 0 0 (g_palette g)) ;;
        T_OutputMessage "Pal_Read: Read palette file successfully!"
  end.

(** ** The driver *)

Definition defaultprefix : string := "TRANS".
Definition defaultoutfiles : string := "123456789".

Definition isdigit (c : ascii) : bool :=
  let n := nat_of_ascii c in (48 <=? n)%nat && (n <=? 57)%nat.

(** "figure out which lump to blend or not": the loop over the
    characters of [outfiles].  A store outside [canblend[0..8]] is
    undefined behaviour ([None]). *)
Fixpoint T_DoMain_canblend (outfiles : string) (canblend : list Z)
    : option (list Z) :=
  match outfiles with
  | EmptyString => Some canblend
  | String c rest =>
      if isdigit c then
        let idx := (Z.of_nat (nat_of_ascii c) - 48 - 1)%Z in
        if ((0 <=? idx) && (idx <? 9))%Z then
          T_DoMain_canblend rest (<[Z.to_nat idx := 1%Z]> canblend)
        else None
      else T_DoMain_canblend rest canblend
  end.

(** The characters that the format "%s%d0.lmp" gives for [prefix] and
    [i]. *)
Definition lump_text (prefix : string) (i : Z) : string :=
  prefix ++ DecimalString.NilZero.string_of_int (Z.to_int i) ++ "0.lmp".

(** [sprintf(filename, "%s%d0.lmp", prefix, i)] into a block that can
    take [size] bytes: the characters and the NUL that ends them are
    stored from the start of the block, and a store past the block is
    undefined ([None]).  Otherwise [filename] is the text. *)
Definition lump_filename (size : nat) (prefix : string) (i : Z)
    : option string :=
  let text := lump_text prefix i in
  if (String.length text + 1 <=? size)%nat then Some text else None.

(** "blend every lump": [for (i = 1; i <= 9; i++)], with [n]
    iterations to go; [size] is what the block of [filename] can
    take. *)
Fixpoint T_DoMain_loop (size : nat) (prefix : string) (canblend : list Z)
    (n : nat) (i : Z) : M unit :=
  match n with
  | O => ret tt
  | S n' =>
      if (canblend !!! Z.to_nat (i - 1) =? 0)%Z then
        T_DoMain_loop size prefix canblend n' (i + 1)%Z
      else
        match lump_filename size prefix i with
        | None => undefined
        | Some filename =>
            T_OutputMessage ("Writing " ++ filename ++ "...") ;;
            let fp := fopen_wb E filename in
            g ← get;
            set_working
              (T_BlendTrans (g_palette g) (blendstyle (g_parms g))
                            (env_indeterminate E i) i (g_working g)) ;;
            g ← get;
            (if fp then emit (Ev_fwrite filename (g_working g))
             else undefined) ;;
            T_DoMain_loop size prefix canblend n' (i + 1)%Z
        end
  end.

Definition T_DoMain : M unit :=
  g ← get;
  let prefix := default defaultprefix (parm_outprefix (g_parms g)) in
  let outfiles := default defaultoutfiles (parm_outfiles (g_parms g)) in
  (* filename = malloc(strlen(prefix) + 6) *)
  let request := (String.length prefix + 6)%nat in
  if negb (malloc_ok E) then
    T_OutputError "Not enough memory for filename" ;;
    exit EXIT_FAILURE
  else
    let size := (request + malloc_slack E request)%nat in
    match T_DoMain_canblend outfiles (replicate 9 0%Z) with
    | None => undefined
    | Some canblend =>
        T_DoMain_loop size prefix canblend 9 1%Z ;;
        T_OutputMessage "Done!"
    end.

End Program.

(** ** Parse command line arguments *)

Definition tolower (c : ascii) : ascii :=
  let n := nat_of_ascii c in
  if (65 <=? n)%nat && (n <=? 90)%nat then ascii_of_nat (n + 32) else c.

(** Case-insensitive comparison: zero exactly when the two strings are
    equal up to the case of their letters. *)
Fixpoint stricmp (s1 s2 : string) : Z :=
  match s1, s2 with
  | EmptyString, EmptyString => 0%Z
  | EmptyString, String _ _ => (-1)%Z
  | String _ _, EmptyString => 1%Z
  | String c1 r1, String c2 r2 =>
      let d := (Z.of_nat (nat_of_ascii (tolower c1))
                - Z.of_nat (nat_of_ascii (tolower c2)))%Z in
      if (d =? 0)%Z then stricmp r1 r2 else d
  end.

Global Instance string_inhabited : Inhabited string := populate "".

(** [parmstring[0] == '-' && parmstring[1]] holds of the strings that
    start with a dash and have a second character; the option's name
    is then [parmstring + 1]. *)
Definition option_name (parmstring : string) : option string :=
  match parmstring with
  | String "-" (String c rest) => Some (String c rest)
  | _ => None
  end.

Section Parm.

Variable parm_argv : list string.

Definition parm_argc : nat := length parm_argv.

(** The effect of option [parmstring] with argument
    [parm_argv[p_argc]] on the globals. *)
Definition Parm_ParseParameter_set (parmstring : string) (p_argc : nat)
    (p : parms) : parms :=
  if (stricmp parmstring "palette" =? 0)%Z then
    mkParms (Some (parm_argv !!! p_argc)) (parm_outprefix p)
            (parm_outfiles p) (blendstyle p)
  else if (stricmp parmstring "outfiles" =? 0)%Z then
    let outfiles := parm_argv !!! p_argc in
    match outfiles with
    | String _ _ =>
        mkParms (parm_palettefile p) (parm_outprefix p)
                (Some outfiles) (blendstyle p)
    | EmptyString => p
    end
  else if (stricmp parmstring "outprefix" =? 0)%Z then
    mkParms (parm_palettefile p) (Some (parm_argv !!! p_argc))
            (parm_outfiles p) (blendstyle p)
  else if (stricmp parmstring "blendstyle" =? 0)%Z then
    let stylestring := parm_argv !!! p_argc in
    let set_style (s : alphastyle_e) :=
      mkParms (parm_palettefile p) (parm_outprefix p)
              (parm_outfiles p) s in
    if (stricmp stylestring "translucent" =? 0)%Z then
      set_style AST_TRANSLUCENT
    else if (stricmp stylestring "add" =? 0)%Z then
      set_style AST_ADD
    else if (stricmp stylestring "subtract" =? 0)%Z then
      set_style AST_SUBTRACT
    else if (stricmp stylestring "reversesubtract" =? 0)%Z then
      set_style AST_REVERSESUBTRACT
    else if (stricmp stylestring "modulate" =? 0)%Z then
      set_style AST_MODULATE
    else p
  else p.

(** Returns the updated globals and the function's return value. *)
Definition Parm_ParseParameter (parmstring : string) (p_argc : nat)
    (p : parms) : parms * nat :=
  if (parm_argc <=? p_argc)%nat then (p, S p_argc)
  else (Parm_ParseParameter_set parmstring p_argc p, S p_argc).

(** [for (i = 1; i < parm_argc;)], with [n] iterations to go. *)
Fixpoint Parm_Parse_loop (n i : nat) (p : parms) : parms :=
  match n with
  | O => p
  | S n' =>
      if (i <? parm_argc)%nat then
        match option_name (parm_argv !!! i) with
        | Some name =>
            let '(p', i') := Parm_ParseParameter name (i + 1) p in
            Parm_Parse_loop n' i' p'
        | None => Parm_Parse_loop n' (S i) p
        end
      else p
  end.

(** Every iteration advances [i], so [parm_argc] iterations are
    enough. *)
Definition Parm_Parse (p : parms) : parms :=
  Parm_Parse_loop parm_argc 1 p.

End Parm.

(** The same parse, read off the arguments that remain: an option
    takes the argument after it, whatever it is; an option in last
    position takes none. *)
Fixpoint parse_rest (rest : list string) (p : parms) : parms :=
  match rest with
  | [] => p
  | parmstring :: rest' =>
      match option_name parmstring with
      | Some name =>
          match rest' with
          | [] => p
          | arg :: rest'' =>
              parse_rest rest'' (Parm_ParseParameter_set [arg] name 0 p)
          end
      | None => parse_rest rest' p
      end
  end.

(** The states of the loop of [Parm_Parse]: [Parm_Parse_at argv p0 i p]
    when the loop, started with the globals [p0], comes to test its
    condition with counter [i] and globals [p]. *)
Inductive Parm_Parse_at (argv : list string) (p0 : parms)
    : nat -> parms -> Prop :=
  | Parm_Parse_at_start : Parm_Parse_at argv p0 1 p0
  | Parm_Parse_at_option (i : nat) (p : parms) (parmstring name : string) :
      Parm_Parse_at argv p0 i p ->
      argv !! i = Some parmstring ->
      option_name parmstring = Some name ->
      Parm_Parse_at argv p0
        (snd (Parm_ParseParameter argv name (i + 1) p))
        (fst (Parm_ParseParameter argv name (i + 1) p))
  | Parm_Parse_at_other (i : nat) (p : parms) (parmstring : string) :
      Parm_Parse_at argv p0 i p ->
      argv !! i = Some parmstring ->
      option_name parmstring = None ->
      Parm_Parse_at argv p0 (S i) p.

(** ** Main function *)

Definition main (E : env) (argv : list string) : M Z :=
  if (length argv <? 2)%nat then
    T_PrintCopyrightText true true ;;
    T_PrintParmInfo ;;
    exit EXIT_FAILURE
  else
    T_PrintCopyrightText false false ;;
    g ← get;
    set_parms (Parm_Parse argv (g_parms g)) ;;
    g ← get;
    match parm_palettefile (g_parms g) with
    | None =>
        T_OutputError
          "Palette file not specified. Use the -palette parameter." ;;
        exit EXIT_FAILURE
    | Some inpal => Pal_Read E inpal
    end ;;
    T_DoMain E ;;
    mret 0%Z.

(** ** Notions used to state the properties *)

(** Rounding of the fraction [p / q] ([q > 0]) to the nearest integer,
    halves upwards. *)
Definition round_div (p q : Z) : Z := ((2 * p + q) / (2 * q))%Z.

(** The alpha byte as the specification words it:
    [round(level * 25.6)], with [25.6 = 256 / 10]. *)
Definition spec_alpha_byte (level : Z) : Z := round_div (level * 256) 10.

(** The names of the files written, in order. *)
Fixpoint written_files (trace : list event) : list string :=
  match trace with
  | [] => []
  | Ev_fwrite filename _ :: trace' => filename :: written_files trace'
  | _ :: trace' => written_files trace'
  end.

(** The error reports of a trace, in order. *)
Fixpoint error_lines (trace : list event) : list event :=
  match trace with
  | [] => []
  | e :: trace' =>
      if is_error_line e then e :: error_lines trace' else error_lines trace'
  end.

(** The levels [i, i + 1, ...] ([n] of them) that [canblend] marks. *)
Fixpoint marked_levels (canblend : list Z) (n : nat) (i : Z) : list Z :=
  match n with
  | O => []
  | S n' =>
      if (canblend !!! Z.to_nat (i - 1) =? 0)%Z
      then marked_levels canblend n' (i + 1)%Z
      else i :: marked_levels canblend n' (i + 1)%Z
  end.

(** The colour [c] has the channels [(r, g, b)]. *)
Definition same_rgb (c : RGBA_t) (r g b : Z) : Prop :=
  s_red c = r /\ s_green c = g /\ s_blue c = b.

(** What [Pal_Read] leaves in [palette]: bytes in the first 256
    entries, all of them opaque. *)
Definition palette_loaded (palette : list RGBA_t) : Prop :=
  (256 <= length palette)%nat /\
  forall i : nat, (i < 256)%nat ->
    rgba_ok (palette !!! i) /\ s_alpha (palette !!! i) = 255%Z.

(** An allocator that hands out blocks of 24, 40, 56, ... bytes, as
    the GNU C library does on 64-bit machines: the bytes to spare
    after a request of [n]. *)
Definition malloc_slack_example (n : nat) : nat :=
  (Nat.max 24 (16 * ((n + 23) / 16) - 8) - n)%nat.

(** An environment for examples: every file opens, the palette file is
    a grey ramp of 768 bytes, uninitialised memory holds zeros. *)
Definition grey_ramp_file : list Byte.byte :=
  flat_map (fun n => let b := default Byte.x00 (Byte.of_nat n) in [b; b; b])
           (seq 0 256).

Definition env_example : env :=
  mkEnv true malloc_slack_example
        (fun _ => Some grey_ramp_file) (fun _ => 768%Z) (fun _ => true)
        (fun _ _ _ => mkRGBA 0 0 0 0).

(** An environment in which no output file can be opened. *)
Definition env_no_output : env :=
  mkEnv true malloc_slack_example
        (fun _ => Some grey_ramp_file) (fun _ => 768%Z) (fun _ => false)
        (fun _ _ _ => mkRGBA 0 0 0 0).

Definition grey_ramp : list RGBA_t :=
  Pal_Read_loop (take PALSIZE grey_ramp_file) PALSIZE 0 0 palette_init.

(** All byte values, for properties settled by enumeration. *)
Definition uchars : list Z := map Z.of_nat (seq 0 256).

(** One channel of the Modulate style, as [ASTBlendPixel] computes
    it. *)
Definition modulate_channel (bc fc : Z) : Z :=
  to_uchar (clamp (f32_to_int
    (f32_mul (f32_of_int bc) (f32_div (f32_of_int fc) (f32_of_int 256))))).

(** A Boolean property of two bytes checked on all pairs of bytes. *)
Definition forall2_uchars (P : Z -> Z -> bool) : bool :=
  forallb (fun x => forallb (P x) uchars) uchars.

Definition modulate_exact (bc fc : Z) : bool :=
  (modulate_channel bc fc =? clamp (Z.quot (bc * fc) 256))%Z.

(** The files written with what was written to them, in order. *)
Fixpoint written_data (trace : list event) : list (string * list Z) :=
  match trace with
  | [] => []
  | Ev_fwrite filename data :: trace' =>
      (filename, data) :: written_data trace'
  | _ :: trace' => written_data trace'
  end.

(** The character [c] occurs in [s]. *)
Fixpoint string_has (c : ascii) (s : string) : bool :=
  match s with
  | EmptyString => false
  | String c' s' => Ascii.eqb c c' || string_has c s'
  end.

(** The decimal digit of [k], for [k] below ten. *)
Definition digit_char (k : nat) : ascii := ascii_of_nat (48 + k).

(** The levels [i, i + 1, ...], [n] of them. *)
Fixpoint levels_from (n : nat) (i : Z) : list Z :=
  match n with
  | O => []
  | S n' => i :: levels_from n' (i + 1)%Z
  end.

(** The levels whose digit occurs in [outfiles], in ascending order. *)
Definition requested_levels (outfiles : string) : list Z :=
  List.filter (fun l => string_has (digit_char (Z.to_nat l)) outfiles)
              (levels_from 9 1%Z).

(** The table of a level, from a buffer of zeros and with zeros for
    the uninitialised memory. *)
Definition level_table (palette : list RGBA_t) (style : alphastyle_e)
    (level : Z) : list Z :=
  T_BlendTrans palette style (fun _ _ => mkRGBA 0 0 0 0) level working_init.

(** Globals for examples: the grey ramp loaded, levels 3 and 1 asked
    for, style Add. *)
Definition globals_example : globals :=
  mkGlobals (mkParms None None (Some "31") AST_ADD)
            grey_ramp working_init [].

(** ** binary32 numbers with a known value *)

(** The number of binary digits of a positive number. *)
Definition pdigits (q : positive) : Z := Zpos (digits2_pos q).

(** The binary32 number of sign [s] and magnitude [q * 2 ^ x] as the
    operations return it, with a mantissa of 24 digits (for [q] below
    [2 ^ 24] and [x] away from the ends of the exponent range). *)
Definition f32_canon (s : bool) (q : positive) (x : Z) : spec_float :=
  S754_finite s (Z.to_pos (Zpos q * 2 ^ (24 - pdigits q)))
              (x + pdigits q - 24).

(** The binary32 number [n * 2 ^ x]. *)
Definition f32_exact (n x : Z) : spec_float :=
  match n with
  | Z0 => S754_zero false
  | Zpos q => f32_canon false q x
  | Zneg q => f32_canon true q x
  end.

(** Two binary32 numbers are the same datum. *)
Definition f32_same (x y : spec_float) : bool :=
  match x, y with
  | S754_zero a, S754_zero b => Bool.eqb a b
  | S754_infinity a, S754_infinity b => Bool.eqb a b
  | S754_nan, S754_nan => true
  | S754_finite a m e, S754_finite b m' e' =>
      Bool.eqb a b && Pos.eqb m m' && Z.eqb e e'
  | _, _ => false
  end.

(** [falpha] is [alpha / 256] exactly, checked on every byte. *)
Definition falpha_exact_all : bool :=
  forallb (fun a => f32_same (f32_div (f32_of_int a) (f32_of_int 256))
                             (f32_exact a (-8))) uchars.

(** One channel of the styles Add, Subtract and ReverseSubtract, as
    [ASTBlendPixel] computes it. *)
Definition add_channel (bc fc alpha : Z) : Z :=
  to_uchar (clamp (f32_to_int
    (f32_add (f32_of_int bc)
       (f32_mul (f32_of_int fc)
          (f32_div (f32_of_int alpha) (f32_of_int 256)))))).

Definition subtract_channel (bc fc alpha : Z) : Z :=
  to_uchar (clamp (f32_to_int
    (f32_sub (f32_of_int bc)
       (f32_mul (f32_of_int fc)
          (f32_div (f32_of_int alpha) (f32_of_int 256)))))).

Definition reversesubtract_channel (bc fc alpha : Z) : Z :=
  to_uchar (clamp (f32_to_int
    (f32_add (f32_of_int (- bc))
       (f32_mul (f32_of_int fc)
          (f32_div (f32_of_int alpha) (f32_of_int 256)))))).

(** A command line for examples. *)
Definition argv_example : list string :=
  ["transmake"; "-palette"; "pal.dat"; "-outfiles"; "31";
   "-blendstyle"; "add"].

(** * Properties *)

Local Open Scope Z_scope.

(** ** Conversions and macros *)

Lemma to_uchar_id (z : Z) : is_uchar z -> to_uchar z = z.
Proof. unfold is_uchar, to_uchar. intros H. apply Z.mod_small. lia. Qed.

Lemma to_uchar_range (z : Z) : is_uchar (to_uchar z).
Proof.
  unfold is_uchar, to_uchar.
  pose proof (Z.mod_pos_bound z 256). lia.
Qed.

Lemma to_short_id (z : Z) : -32768 <= z < 32768 -> to_short z = z.
Proof.
  unfold to_short. intros H.
  rewrite Z.mod_small; lia.
Qed.

Lemma min_spec (x y : Z) : min x y = Z.min x y.
Proof. unfold min. destruct (Z.ltb_spec x y); lia. Qed.

Lemma max_spec (x y : Z) : max x y = Z.max x y.
Proof. unfold max. rewrite Z.gtb_ltb. destruct (Z.ltb_spec y x); lia. Qed.

Lemma clamp_range (c : Z) : is_uchar (clamp c).
Proof. unfold clamp, is_uchar. rewrite max_spec, min_spec. lia. Qed.

Lemma clamp_id (c : Z) : is_uchar c -> clamp c = c.
Proof. unfold clamp, is_uchar. rewrite max_spec, min_spec. lia. Qed.

(** The effective alpha of a call on bytes fits a [signed short]. *)
Lemma fullalpha_exact (alpha fa : Z) :
  is_uchar alpha -> is_uchar fa ->
  to_short (alpha - (255 - fa)) = alpha - (255 - fa).
Proof. unfold is_uchar. intros Ha Hf. apply to_short_id. lia. Qed.

(** A weighted mean of two bytes with weights that sum to 255 is a
    byte again, so the store into the [unsigned char] channel keeps
    it. *)
Lemma blend_channel_range (bc fc e : Z) :
  is_uchar bc -> is_uchar fc -> 0 <= e <= 255 ->
  is_uchar (Z.quot (bc * (255 - e) + fc * e) 255).
Proof.
  unfold is_uchar. intros Hb Hf He.
  assert (0 <= bc * (255 - e) + fc * e) by nia.
  assert (bc * (255 - e) + fc * e <= 255 * 255) by nia.
  rewrite Z.quot_div_nonneg by lia.
  split.
  - apply Z.div_pos; lia.
  - apply Z.div_le_upper_bound; lia.
Qed.

(** ** Pixel compositing, translucent style *)

(** C5. With style Translucent, when the effective alpha
    [alpha - (255 - foreground.alpha)] is at most zero the result is
    the background colour itself, alpha channel included; for
    [alpha = 0] that is so whatever the foreground. *)
Theorem translucent_nonpositive_effective_alpha
    (output background foreground : RGBA_t) (alpha : Z) :
  is_uchar alpha -> is_uchar (s_alpha foreground) ->
  (alpha - (255 - s_alpha foreground) <= 0 ->
   ASTBlendPixel output background foreground AST_TRANSLUCENT alpha
   = background)
  /\ ASTBlendPixel output background foreground AST_TRANSLUCENT 0
     = background.
Proof.
  intros Ha Hf. split.
  - intros He. unfold ASTBlendPixel.
    rewrite fullalpha_exact by assumption.
    destruct (Z.leb_spec (alpha - (255 - s_alpha foreground)) 0);
      [reflexivity | lia].
  - unfold ASTBlendPixel.
    rewrite fullalpha_exact by (unfold is_uchar in *; auto; lia).
    unfold is_uchar in Hf.
    destruct (Z.leb_spec (0 - (255 - s_alpha foreground)) 0);
      [reflexivity | lia].
Qed.

Lemma translucent_nonpositive_effective_alpha_witness :
  ASTBlendPixel (mkRGBA 1 2 3 4) (mkRGBA 10 20 30 255)
                (mkRGBA 200 100 50 100) AST_TRANSLUCENT 155
  = mkRGBA 10 20 30 255
  /\ ASTBlendPixel (mkRGBA 1 2 3 4) (mkRGBA 10 20 30 255)
                   (mkRGBA 200 100 50 100) AST_TRANSLUCENT 0
     = mkRGBA 10 20 30 255.
Proof.
  destruct (translucent_nonpositive_effective_alpha
              (mkRGBA 1 2 3 4) (mkRGBA 10 20 30 255)
              (mkRGBA 200 100 50 100) 155) as [H1 H2].
  - unfold is_uchar. lia.
  - unfold is_uchar. simpl. lia.
  - split; [apply H1; simpl; lia | exact H2].
Defined.

(** C2. With style Translucent and a positive effective alpha, the
    effective alpha is capped at 255, [beta = 255 - effective], and
    over a background of nonzero alpha every colour channel is
    [(background * beta + foreground * effective) / 255] with the
    quotient truncated, the alpha channel being 255.  Over a
    background of zero alpha the result has alpha zero. *)
Theorem translucent_blend
    (output background foreground : RGBA_t) (alpha : Z) :
  rgba_ok background -> rgba_ok foreground -> is_uchar alpha ->
  let result :=
    ASTBlendPixel output background foreground AST_TRANSLUCENT alpha in
  let effective := Z.min (alpha - (255 - s_alpha foreground)) 255 in
  let beta := 255 - effective in
  (0 < alpha - (255 - s_alpha foreground) ->
   s_alpha background <> 0 ->
   result =
     mkRGBA
       (Z.quot (s_red background * beta + s_red foreground * effective) 255)
       (Z.quot (s_green background * beta
                + s_green foreground * effective) 255)
       (Z.quot (s_blue background * beta
                + s_blue foreground * effective) 255)
       255)
  /\ (s_alpha background = 0 -> s_alpha result = 0).
Proof.
  intros (Hbr & Hbg & Hbb & Hba) (Hfr & Hfg & Hfb & Hfa) Ha.
  cbv zeta. unfold ASTBlendPixel.
  rewrite fullalpha_exact by assumption.
  set (e := alpha - (255 - s_alpha foreground)).
  assert (He : e <= 255) by (unfold e, is_uchar in *; lia).
  split.
  - intros Hpos Hnz.
    destruct (Z.leb_spec e 0); [lia |].
    assert (Hcap : (if e >=? 255 then 255 else e) = Z.min e 255).
    { rewrite Z.geb_leb. destruct (Z.leb_spec 255 e); lia. }
    rewrite Hcap.
    assert (Hm : 0 <= Z.min e 255 <= 255) by lia.
    rewrite (to_uchar_id (Z.min e 255)) by exact Hm.
    rewrite (to_uchar_id (255 - Z.min e 255)) by (unfold is_uchar; lia).
    destruct (Z.eqb_spec (s_alpha background) 0); [contradiction |].
    rewrite !to_uchar_id by (apply blend_channel_range; assumption).
    reflexivity.
  - intros Hz.
    destruct (Z.leb_spec e 0); [exact Hz |].
    rewrite Hz. reflexivity.
Qed.

Lemma translucent_blend_witness :
  ASTBlendPixel (mkRGBA 1 2 3 4) (mkRGBA 10 20 30 255)
                (mkRGBA 200 100 50 255) AST_TRANSLUCENT 128
  = mkRGBA 105 60 40 255.
Proof.
  pose proof (translucent_blend (mkRGBA 1 2 3 4) (mkRGBA 10 20 30 255)
                (mkRGBA 200 100 50 255) 128) as H.
  assert (Hb : rgba_ok (mkRGBA 10 20 30 255))
    by (unfold rgba_ok, is_uchar; simpl; lia).
  assert (Hf : rgba_ok (mkRGBA 200 100 50 255))
    by (unfold rgba_ok, is_uchar; simpl; lia).
  assert (Ha : is_uchar 128) by (unfold is_uchar; lia).
  destruct (H Hb Hf Ha) as [H1 _].
  apply H1; simpl; lia.
Defined.

(** ** Pixel compositing, the other styles *)

(** C7. The styles Add, Subtract, ReverseSubtract and Modulate give a
    result whose alpha is 255, for all colours and every alpha
    byte. *)
Theorem nontranslucent_alpha_opaque
    (output background foreground : RGBA_t) (alpha : Z) :
  s_alpha (ASTBlendPixel output background foreground AST_ADD alpha) = 255
  /\ s_alpha (ASTBlendPixel output background foreground
                            AST_SUBTRACT alpha) = 255
  /\ s_alpha (ASTBlendPixel output background foreground
                            AST_REVERSESUBTRACT alpha) = 255
  /\ s_alpha (ASTBlendPixel output background foreground
                            AST_MODULATE alpha) = 255.
Proof. repeat split. Qed.

(** Enumeration over the bytes. *)
Lemma uchars_complete (z : Z) : is_uchar z -> In z uchars.
Proof.
  unfold is_uchar, uchars. intros H.
  rewrite <- (Z2Nat.id z) by lia.
  apply List.in_map, List.in_seq. lia.
Qed.

Lemma forall2_uchars_spec (P : Z -> Z -> bool) :
  forall2_uchars P = true ->
  forall x y : Z, is_uchar x -> is_uchar y -> P x y = true.
Proof.
  unfold forall2_uchars. intros H x y Hx Hy.
  rewrite List.forallb_forall in H.
  specialize (H x (uchars_complete x Hx)).
  rewrite List.forallb_forall in H.
  exact (H y (uchars_complete y Hy)).
Qed.

Lemma modulate_exact_all : forall2_uchars modulate_exact = true.
Proof. vm_cast_no_check (eq_refl true). Qed.

(** The binary32 computation of a Modulate channel is exact: it is
    the truncated quotient of the product of the two bytes by 256. *)
Lemma modulate_channel_exact (bc fc : Z) :
  is_uchar bc -> is_uchar fc ->
  modulate_channel bc fc = clamp (Z.quot (bc * fc) 256).
Proof.
  intros Hb Hf. apply Z.eqb_eq.
  exact (forall2_uchars_spec modulate_exact modulate_exact_all bc fc Hb Hf).
Qed.

(** C6. Style Modulate does not look at the alpha byte: each channel
    is the background channel times the factor [foreground / 256],
    computed in binary32, truncated to an integer and clamped to
    [0, 255], with alpha 255; two calls that differ in the alpha byte
    only (or in what the uninitialised result held) agree. *)
Theorem modulate_ignores_alpha
    (output output' background foreground : RGBA_t) (alpha alpha' : Z) :
  rgba_ok background -> rgba_ok foreground ->
  ASTBlendPixel output background foreground AST_MODULATE alpha
  = mkRGBA
      (clamp (Z.quot (s_red background * s_red foreground) 256))
      (clamp (Z.quot (s_green background * s_green foreground) 256))
      (clamp (Z.quot (s_blue background * s_blue foreground) 256))
      255
  /\ ASTBlendPixel output background foreground AST_MODULATE alpha
     = mkRGBA
         (to_uchar (clamp (f32_to_int
            (f32_mul (f32_of_int (s_red background))
               (f32_div (f32_of_int (s_red foreground))
                        (f32_of_int 256))))))
         (to_uchar (clamp (f32_to_int
            (f32_mul (f32_of_int (s_green background))
               (f32_div (f32_of_int (s_green foreground))
                        (f32_of_int 256))))))
         (to_uchar (clamp (f32_to_int
            (f32_mul (f32_of_int (s_blue background))
               (f32_div (f32_of_int (s_blue foreground))
                        (f32_of_int 256))))))
         255
  /\ ASTBlendPixel output background foreground AST_MODULATE alpha
     = ASTBlendPixel output' background foreground AST_MODULATE alpha'.
Proof.
  intros (Hbr & Hbg & Hbb & _) (Hfr & Hfg & Hfb & _).
  split; [| split; reflexivity].
  rewrite <- !modulate_channel_exact by assumption.
  reflexivity.
Qed.

Lemma modulate_ignores_alpha_witness :
  ASTBlendPixel (mkRGBA 1 2 3 4) (mkRGBA 10 20 30 255)
                (mkRGBA 100 50 255 255) AST_MODULATE 26
  = mkRGBA 3 3 29 255
  /\ ASTBlendPixel (mkRGBA 1 2 3 4) (mkRGBA 10 20 30 255)
                   (mkRGBA 100 50 255 255) AST_MODULATE 26
     = ASTBlendPixel (mkRGBA 9 9 9 9) (mkRGBA 10 20 30 255)
                     (mkRGBA 100 50 255 255) AST_MODULATE 230.
Proof.
  assert (Hb : rgba_ok (mkRGBA 10 20 30 255))
    by (unfold rgba_ok, is_uchar; simpl; lia).
  assert (Hf : rgba_ok (mkRGBA 100 50 255 255))
    by (unfold rgba_ok, is_uchar; simpl; lia).
  destruct (modulate_ignores_alpha (mkRGBA 1 2 3 4) (mkRGBA 9 9 9 9)
              (mkRGBA 10 20 30 255) (mkRGBA 100 50 255 255) 26 230 Hb Hf)
    as (H1 & _ & H3).
  split; [exact H1 | exact H3].
Defined.

(** ** The alpha byte of a level *)

Lemma level_cases (level : Z) :
  1 <= level <= 9 ->
  level = 1 \/ level = 2 \/ level = 3 \/ level = 4 \/ level = 5 \/
  level = 6 \/ level = 7 \/ level = 8 \/ level = 9.
Proof. lia. Qed.

(** C4, as the specification states it, fails: for level 1 the code
    computes 25, and [round(1 * 25.6)] is 26. *)
Lemma alpha_byte_is_not_rounded :
  blendamt_of 1 = 25 /\ spec_alpha_byte 1 = 26
  /\ ~ (forall level : Z, 1 <= level <= 9 ->
          blendamt_of level = spec_alpha_byte level).
Proof.
  split; [vm_compute; reflexivity | split; [vm_compute; reflexivity |]].
  intros H. specialize (H 1 ltac:(lia)).
  vm_compute in H. discriminate H.
Qed.

(** C4, amended. For every level in [1, 9] the alpha byte is
    [level * 25.6] with the fraction discarded, that is the quotient
    of [level * 256] by 10; level 1 gives 25 and level 9 gives 230. *)
Theorem alpha_byte_is_truncated (level : Z) :
  1 <= level <= 9 ->
  blendamt_of level = Z.quot (level * 256) 10
  /\ blendamt_of 1 = 25 /\ blendamt_of 9 = 230.
Proof.
  intros H. split; [| split; vm_compute; reflexivity].
  destruct (level_cases level H)
    as [-> | [-> | [-> | [-> | [-> | [-> | [-> | [-> | ->]]]]]]]];
    vm_compute; reflexivity.
Qed.

Lemma alpha_byte_is_truncated_witness :
  blendamt_of 6 = 153 /\ blendamt_of 1 = 25 /\ blendamt_of 9 = 230.
Proof. apply (alpha_byte_is_truncated 6). lia. Defined.

(** ** Nearest-colour lookup *)

Lemma distortion_nonneg (r g b : Z) (c : RGBA_t) :
  0 <= distortion_to r g b c.
Proof.
  unfold distortion_to. cbv zeta.
  pose proof (Z.square_nonneg (r - s_red c)).
  pose proof (Z.square_nonneg (g - s_green c)).
  pose proof (Z.square_nonneg (b - s_blue c)).
  lia.
Qed.

Lemma distortion_zero (r g b : Z) (c : RGBA_t) :
  distortion_to r g b c = 0 <-> same_rgb c r g b.
Proof.
  unfold distortion_to, same_rgb. cbv zeta. split.
  - intros H.
    pose proof (Z.square_nonneg (r - s_red c)).
    pose proof (Z.square_nonneg (g - s_green c)).
    pose proof (Z.square_nonneg (b - s_blue c)).
    repeat split; nia.
  - intros (<- & <- & <-). lia.
Qed.

(** On bytes no distortion reaches the initial [bestdistortion], nor
    the range of [int]. *)
Lemma distortion_bound (r g b : Z) (c : RGBA_t) :
  is_uchar r -> is_uchar g -> is_uchar b -> rgba_ok c ->
  distortion_to r g b c <= 195075.
Proof.
  unfold distortion_to, rgba_ok, is_uchar. cbv zeta.
  intros Hr Hg Hb (Hcr & Hcg & Hcb & _).
  assert (forall x y, 0 <= x <= 255 -> 0 <= y <= 255 ->
                      (x - y) * (x - y) <= 65025) as Hsq by (intros; nia).
  pose proof (Hsq r (s_red c) Hr Hcr).
  pose proof (Hsq g (s_green c) Hg Hcg).
  pose proof (Hsq b (s_blue c) Hb Hcb).
  lia.
Qed.

Section NearestProperties.

Variable palette : list RGBA_t.
Variables r g b : Z.

Let d (i : nat) : Z := distortion_to r g b (palette !!! i).

(** The loop returns at the first entry of distortion zero it
    meets. *)
Lemma NearestPaletteColor_loop_exit (z : nat) :
  (z < 256)%nat -> d z = 0 ->
  forall (n i : nat) (bestdistortion bestcolor : Z),
    (i <= z < i + n)%nat -> 0 < bestdistortion ->
    (forall j : nat, (i <= j < z)%nat -> d j <> 0) ->
    NearestPaletteColor_loop palette r g b n i bestdistortion bestcolor
    = Z.of_nat z.
Proof.
  intros Hz Hdz. induction n as [| n IH]; intros i best bc Hi Hbest Hnz.
  - lia.
  - simpl. fold (d i).
    destruct (decide (i = z)) as [-> | Hne].
    + rewrite Hdz.
      destruct (Z.ltb_spec 0 best); [| lia].
      simpl. apply to_uchar_id. unfold is_uchar. lia.
    + assert (Hdi : d i <> 0) by (apply Hnz; lia).
      pose proof (distortion_nonneg r g b (palette !!! i)) as Hge.
      fold (d i) in Hge.
      destruct (Z.ltb_spec (d i) best).
      * destruct (Z.eqb_spec (d i) 0); [contradiction |].
        apply IH; [lia | lia | intros j Hj; apply Hnz; lia].
      * apply IH; [lia | lia | intros j Hj; apply Hnz; lia].
Qed.

Hypothesis distortion_small :
  forall j : nat, (j < 256)%nat -> d j < 256 * 256 * 4.

(** The invariant of the scan: [bestdistortion] bounds from below
    the distortions already seen and, once an entry has been
    accepted, [bestcolor] is the first of them that attains it. *)
Lemma NearestPaletteColor_loop_min :
  forall (n i : nat) (bestdistortion bestcolor : Z),
    (i + n = 256)%nat -> 0 < bestdistortion ->
    (forall j : nat, (j < i)%nat -> bestdistortion <= d j) ->
    (i = 0%nat /\ bestdistortion = 256 * 256 * 4) \/
    (exists c : nat, bestcolor = Z.of_nat c /\ (c < i)%nat /\
       bestdistortion = d c /\
       forall j : nat, (j < c)%nat -> d c < d j) ->
    exists k : nat,
      NearestPaletteColor_loop palette r g b n i bestdistortion bestcolor
      = Z.of_nat k
      /\ (k < 256)%nat
      /\ (forall j : nat, (j < 256)%nat -> d k <= d j)
      /\ (forall j : nat, (j < k)%nat -> d k < d j).
Proof.
  induction n as [| n IH]; intros i best bc Hin Hbest Hlow Hacc.
  - destruct Hacc as [[Hi _] | (c & -> & Hc & -> & Hfirst)]; [lia |].
    exists c. simpl. repeat split.
    + apply to_uchar_id. unfold is_uchar. lia.
    + lia.
    + intros j Hj. apply Hlow. lia.
    + exact Hfirst.
  - simpl. fold (d i).
    pose proof (distortion_nonneg r g b (palette !!! i)) as Hge.
    fold (d i) in Hge.
    destruct (Z.ltb_spec (d i) best) as [Hlt | Hnlt].
    + destruct (Z.eqb_spec (d i) 0) as [Hzero | Hnz].
      * exists i. repeat split.
        -- apply to_uchar_id. unfold is_uchar. lia.
        -- lia.
        -- intros j _. rewrite Hzero.
           apply (distortion_nonneg r g b (palette !!! j)).
        -- intros j Hj. specialize (Hlow j Hj). lia.
      * apply IH.
        -- lia.
        -- lia.
        -- intros j Hj. destruct (decide (j = i)) as [-> | Hne]; [lia |].
           specialize (Hlow j ltac:(lia)). lia.
        -- right. exists i. repeat split; [lia |].
           intros j Hj. specialize (Hlow j Hj). lia.
    + apply IH.
      * lia.
      * exact Hbest.
      * intros j Hj. destruct (decide (j = i)) as [-> | Hne]; [lia |].
        apply Hlow. lia.
      * destruct Hacc as [[-> ->] | (c & Hbc & Hc & Hd & Hfirst)].
        -- specialize (distortion_small 0%nat ltac:(lia)). lia.
        -- right. exists c. repeat split; [assumption | lia | assumption |
                                           assumption].
Qed.

End NearestProperties.

(** ** Output *)

Lemma string_length_append (s1 s2 : string) :
  String.length (s1 ++ s2) = (String.length s1 + String.length s2)%nat.
Proof.
  induction s1 as [| c s1 IH]; [reflexivity |].
  cbn [String.append String.length]. rewrite IH. reflexivity.
Qed.

Lemma string_has_append (c : ascii) (s1 s2 : string) :
  string_has c (s1 ++ s2) = string_has c s1 || string_has c s2.
Proof.
  induction s1 as [| c1 s1 IH]; [reflexivity |].
  cbn [String.append string_has]. rewrite IH. apply orb_assoc.
Qed.

Lemma string_has_take (c : ascii) (n : nat) :
  forall s : string,
    string_has c s = false -> string_has c (string_take n s) = false.
Proof.
  induction n as [| n IH]; intros [| c1 s] H; try reflexivity.
  cbn [string_take string_has] in *.
  apply orb_false_iff in H. destruct H as [-> H].
  rewrite (IH s H). reflexivity.
Qed.

Lemma string_take_all (n : nat) :
  forall s : string, (String.length s <= n)%nat -> string_take n s = s.
Proof.
  induction n as [| n IH]; intros [| c s] H; try reflexivity.
  - cbn [String.length] in H. lia.
  - cbn [string_take String.length] in *. rewrite IH by lia. reflexivity.
Qed.

(** A text without [%] is printed as it is. *)
Lemma fprintf_no_args_plain (out : string) :
  string_has "%" out = false -> fprintf_no_args out = Some out.
Proof.
  induction out as [| c rest IH]; [reflexivity |].
  cbn [string_has fprintf_no_args]. intros H.
  apply orb_false_iff in H. destruct H as [Hc Hrest].
  rewrite Ascii.eqb_sym, Hc, (IH Hrest). reflexivity.
Qed.


Lemma T_OutputMessage_plain (text : string) :
  string_has "%" text = false ->
  T_OutputMessage text = emit (Ev_stdout (VA_OUTPUT text)).
Proof.
  intros H. unfold T_OutputMessage.
  rewrite fprintf_no_args_plain; [reflexivity |].
  apply string_has_take. exact H.
Qed.

Lemma T_OutputError_plain (text : string) :
  string_has "%" text = false ->
  T_OutputError text = emit (Ev_stdout ("ERROR: " ++ VA_OUTPUT text)).
Proof.
  intros H. unfold T_OutputError.
  rewrite fprintf_no_args_plain; [reflexivity |].
  apply string_has_take. exact H.
Qed.

(** The line that announces a file starts with a [W]: it is no error
    report. *)
Lemma writing_is_not_error (filename line : string) :
  fprintf_no_args (VA_OUTPUT ("Writing " ++ filename ++ "...")) = Some line ->
  is_error_line (Ev_stdout line) = false.
Proof.
  change (VA_OUTPUT ("Writing " ++ filename ++ "..."))
    with (String "W" (string_take 1022 ("riting " ++ filename ++ "..."))).
  change (fprintf_no_args
            (String "W" (string_take 1022 ("riting " ++ filename ++ "..."))))
    with (option_map (String "W")
            (fprintf_no_args
               (string_take 1022 ("riting " ++ filename ++ "...")))).
  destruct (fprintf_no_args _) as [line' |]; [| discriminate].
  intros H. injection H as <-. reflexivity.
Qed.

(** ** The names of the output files *)

Lemma lump_text_digit (prefix : string) (i : Z) :
  1 <= i <= 9 ->
  lump_text prefix i
  = (prefix ++ String (digit_char (Z.to_nat i)) "0.lmp")%string.
Proof.
  intros H.
  destruct (level_cases i H)
    as [-> | [-> | [-> | [-> | [-> | [-> | [-> | [-> | ->]]]]]]]];
    reflexivity.
Qed.

Lemma lump_text_length (prefix : string) (i : Z) :
  1 <= i <= 9 ->
  String.length (lump_text prefix i) = (String.length prefix + 6)%nat.
Proof.
  intros H. rewrite (lump_text_digit prefix i H), string_length_append.
  reflexivity.
Qed.

(** The text and its NUL take seven bytes more than the prefix. *)
Lemma lump_filename_fits (size : nat) (prefix : string) (i : Z) :
  1 <= i <= 9 ->
  lump_filename size prefix i
  = if (String.length prefix + 7 <=? size)%nat
    then Some (lump_text prefix i) else None.
Proof.
  intros H. unfold lump_filename. cbv zeta.
  rewrite (lump_text_length prefix i H).
  replace (String.length prefix + 6 + 1)%nat
    with (String.length prefix + 7)%nat by lia.
  reflexivity.
Qed.

(** With a prefix without [%] the announcement has none. *)
Lemma writing_plain (prefix : string) (i : Z) :
  1 <= i <= 9 -> string_has "%" prefix = false ->
  string_has "%" ("Writing " ++ lump_text prefix i ++ "...") = false.
Proof.
  intros H Hplain. rewrite (lump_text_digit prefix i H).
  rewrite !string_has_append, Hplain.
  destruct (level_cases i H)
    as [-> | [-> | [-> | [-> | [-> | [-> | [-> | [-> | ->]]]]]]]];
    reflexivity.
Qed.

(** ** Palette reading *)

Lemma byte_val_range (x : Byte.byte) : is_uchar (byte_val x).
Proof.
  unfold is_uchar, byte_val.
  pose proof (Byte.to_N_bounded x). lia.
Qed.

(** The entry [Pal_Read] makes of the [k]-th triple of the file. *)
Lemma Pal_Read_loop_spec (rpalette : list Byte.byte) :
  forall (n i j : nat) (pal : list RGBA_t),
    j = (3 * i)%nat -> (256 <= length pal)%nat -> (256 - i <= n)%nat ->
    let pal' := Pal_Read_loop rpalette n i j pal in
    length pal' = length pal
    /\ (forall k : nat, (i <= k < 256)%nat ->
          pal' !!! k
          = mkRGBA (byte_val (rpalette !!! (3 * k)%nat))
                   (byte_val (rpalette !!! (3 * k + 1)%nat))
                   (byte_val (rpalette !!! (3 * k + 2)%nat)) 255)
    /\ (forall k : nat, (k < i \/ 256 <= k)%nat -> pal' !!! k = pal !!! k).
Proof.
  induction n as [| n IH]; intros i j pal Hj Hlen Hn pal'; subst pal'.
  - simpl Pal_Read_loop. split; [reflexivity | split].
    + intros k Hk. lia.
    + reflexivity.
  - simpl Pal_Read_loop.
    destruct (Nat.ltb_spec j PALSIZE) as [Hlt | Hge].
    + unfold PALSIZE in Hlt.
      match goal with
      | |- context [Pal_Read_loop _ _ _ _ (<[i := ?e]> pal)] => set (e0 := e)
      end.
      destruct (IH (S i) (j + 3)%nat (<[i := e0]> pal)) as (Hl & Hin & Hout).
      * lia.
      * rewrite length_insert. exact Hlen.
      * lia.
      * rewrite length_insert in Hl. split; [exact Hl | split].
        -- intros k Hk. destruct (decide (k = i)) as [-> | Hne].
           ++ rewrite Hout by lia.
              rewrite list_lookup_total_insert_eq by lia.
              subst e0 j. unfold set_alpha, set_blue, set_green, set_red.
              reflexivity.
           ++ apply Hin. lia.
        -- intros k Hk. rewrite Hout by lia.
           apply list_lookup_total_insert_ne. lia.
    + unfold PALSIZE in Hge. split; [reflexivity | split].
      * intros k Hk. lia.
      * reflexivity.
Qed.

(** After [Pal_Read] the first 256 entries are opaque colours made of
    bytes. *)
Lemma Pal_Read_loop_loaded (rpalette : list Byte.byte) (pal : list RGBA_t) :
  (256 <= length pal)%nat ->
  palette_loaded (Pal_Read_loop rpalette PALSIZE 0 0 pal).
Proof.
  intros Hlen.
  destruct (Pal_Read_loop_spec rpalette PALSIZE 0 0 pal)
    as (Hl & Hin & _); [reflexivity | exact Hlen | unfold PALSIZE; lia |].
  split; [rewrite Hl; exact Hlen |].
  intros i Hi. rewrite Hin by lia.
  split; [| reflexivity].
  repeat split; simpl; try apply byte_val_range; unfold is_uchar; lia.
Qed.

Lemma Pal_Read_loaded (E : env) (inpal : string) (g g' : globals) :
  (256 <= length (g_palette g))%nat ->
  Pal_Read E inpal g = (g', Done tt) ->
  palette_loaded (g_palette g').
Proof.
  intros Hlen. unfold Pal_Read.
  destruct (fopen_rb E inpal) as [contents |];
    [| rewrite T_OutputError_plain by reflexivity; discriminate].
  destruct (ftell_end E inpal <? Z.of_nat PALSIZE)%Z;
    [rewrite T_OutputError_plain by reflexivity; discriminate |].
  destruct (negb (PALSIZE <=? length contents)%nat);
    [rewrite T_OutputError_plain by reflexivity; discriminate |].
  rewrite T_OutputMessage_plain by reflexivity.
  intros H.
  cbv [mbind M_bind bind get set_palette emit] in H.
  revert H.
  generalize
    (Pal_Read_loop_loaded (take PALSIZE contents) (g_palette g) Hlen).
  generalize
    (Pal_Read_loop (take PALSIZE contents) PALSIZE 0 0 (g_palette g)).
  intros pal' Hloaded H.
  apply (f_equal (fun x => g_palette (fst x))) in H.
  cbn [fst g_palette] in H. rewrite <- H. exact Hloaded.
Qed.

Lemma grey_ramp_loaded : palette_loaded grey_ramp.
Proof.
  unfold grey_ramp. apply Pal_Read_loop_loaded.
  unfold palette_init, PALSIZE. rewrite length_replicate. lia.
Qed.

Lemma palette_loaded_ok (palette : list RGBA_t) (i : nat) :
  palette_loaded palette -> (i < 256)%nat -> rgba_ok (palette !!! i).
Proof. intros [_ H] Hi. apply H. exact Hi. Qed.

(** ** Nearest-colour lookup: the result *)

Lemma NearestPaletteColor_loop_range (palette : list RGBA_t) (r g b : Z) :
  forall (n i : nat) (bestdistortion bestcolor : Z),
    is_uchar
      (NearestPaletteColor_loop palette r g b n i bestdistortion bestcolor).
Proof.
  induction n as [| n IH]; intros i best bc; simpl.
  - apply to_uchar_range.
  - destruct (_ <? best); [| apply IH].
    destruct (_ =? 0); [apply to_uchar_range | apply IH].
Qed.

(** C3. With [d pal i] the squared Euclidean distance
    [dr * dr + dg * dg + db * db] between [(r, g, b)] and entry [i]
    of [pal]: the lookup scans the entries in ascending order and
    returns an index [k] in [0, 255] whose distance is minimal
    over the 256 entries and strictly below that of every earlier
    entry (the first index that attains the minimum); the first entry
    [z] at distance zero is returned at once, whatever the entries
    after it are. *)
Theorem nearest_is_first_minimum (palette : list RGBA_t) (r g b : Z) :
  is_uchar r -> is_uchar g -> is_uchar b ->
  (forall i : nat, (i < 256)%nat -> rgba_ok (palette !!! i)) ->
  let d := fun (pal : list RGBA_t) (i : nat) =>
             (r - s_red (pal !!! i)) * (r - s_red (pal !!! i))
             + (g - s_green (pal !!! i)) * (g - s_green (pal !!! i))
             + (b - s_blue (pal !!! i)) * (b - s_blue (pal !!! i)) in
  exists k : nat,
    NearestPaletteColor palette r g b = Z.of_nat k
    /\ (k < 256)%nat
    /\ (forall j : nat, (j < 256)%nat -> d palette k <= d palette j)
    /\ (forall j : nat, (j < k)%nat -> d palette k < d palette j)
    /\ (forall z : nat,
          (z < 256)%nat -> d palette z = 0 ->
          (forall j : nat, (j < z)%nat -> d palette j <> 0) ->
          k = z
          /\ forall palette' : list RGBA_t,
               (forall j : nat, (j <= z)%nat ->
                  palette' !!! j = palette !!! j) ->
               NearestPaletteColor palette' r g b = Z.of_nat z).
Proof.
  intros Hr Hg Hb Hpal d.
  change d with (fun (pal : list RGBA_t) (i : nat) =>
                   distortion_to r g b (pal !!! i)).
  clear d. cbv beta. unfold NearestPaletteColor.
  assert (Hsmall : forall j : nat, (j < 256)%nat ->
                     distortion_to r g b (palette !!! j) < 256 * 256 * 4).
  { intros j Hj.
    pose proof (distortion_bound r g b (palette !!! j) Hr Hg Hb (Hpal j Hj)).
    lia. }
  destruct (NearestPaletteColor_loop_min palette r g b Hsmall
              256 0 (256 * 256 * 4) 0)
    as (k & Hk & Hlt & Hmin & Hfirst).
  - reflexivity.
  - lia.
  - intros j Hj. lia.
  - left. split; reflexivity.
  - exists k.
    split; [exact Hk |]. split; [exact Hlt |].
    split; [exact Hmin |]. split; [exact Hfirst |].
    intros z Hz Hdz Hnz.
    assert (Hexit : forall pal : list RGBA_t,
              (forall j : nat, (j <= z)%nat -> pal !!! j = palette !!! j) ->
              NearestPaletteColor_loop pal r g b 256 0 (256 * 256 * 4) 0
              = Z.of_nat z).
    { intros pal Hagree.
      apply NearestPaletteColor_loop_exit.
      - exact Hz.
      - rewrite Hagree by lia. exact Hdz.
      - lia.
      - lia.
      - intros j Hj. rewrite Hagree by lia. apply Hnz. lia. }
    split; [| exact Hexit].
    specialize (Hexit palette (fun j _ => eq_refl)).
    rewrite Hexit in Hk. lia.
Qed.

Lemma nearest_is_first_minimum_witness :
  exists k : nat,
    NearestPaletteColor grey_ramp 10 12 14 = Z.of_nat k /\ (k < 256)%nat.
Proof.
  destruct (nearest_is_first_minimum grey_ramp 10 12 14)
    as (k & Hk & Hlt & _).
  - unfold is_uchar. lia.
  - unfold is_uchar. lia.
  - unfold is_uchar. lia.
  - intros i Hi. apply palette_loaded_ok; [exact grey_ramp_loaded | exact Hi].
  - exists k. split; [exact Hk | exact Hlt].
Defined.

(** C9. In a loaded palette, looking up the colour of entry [i] gives
    back [i] whenever no earlier entry has the same red, green and
    blue. *)
Theorem nearest_roundtrip (palette : list RGBA_t) (i : nat) :
  palette_loaded palette -> (i < 256)%nat ->
  (forall j : nat, (j < i)%nat ->
     ~ same_rgb (palette !!! j) (s_red (palette !!! i))
                (s_green (palette !!! i)) (s_blue (palette !!! i))) ->
  NearestPaletteColor palette (s_red (palette !!! i))
                      (s_green (palette !!! i)) (s_blue (palette !!! i))
  = Z.of_nat i.
Proof.
  intros _ Hi Hfirst. unfold NearestPaletteColor.
  apply NearestPaletteColor_loop_exit.
  - exact Hi.
  - apply distortion_zero. repeat split.
  - lia.
  - lia.
  - intros j Hj Hd. apply distortion_zero in Hd.
    exact (Hfirst j ltac:(lia) Hd).
Qed.

Lemma nearest_roundtrip_witness :
  NearestPaletteColor grey_ramp (s_red (grey_ramp !!! 2%nat))
                      (s_green (grey_ramp !!! 2%nat))
                      (s_blue (grey_ramp !!! 2%nat))
  = Z.of_nat 2.
Proof.
  apply (nearest_roundtrip grey_ramp 2).
  - exact grey_ramp_loaded.
  - lia.
  - intros j Hj.
    assert (Hcases : j = 0%nat \/ j = 1%nat) by lia.
    destruct Hcases as [-> | ->]; vm_compute; intros (H & _); discriminate H.
Defined.

(** ** Table generation *)

(** Only the translucent style over a background of zero alpha lets
    the uninitialised [output] through. *)
Lemma ASTBlendPixel_output_irrelevant
    (output output' background foreground : RGBA_t)
    (style : alphastyle_e) (alpha : Z) :
  s_alpha background <> 0 ->
  ASTBlendPixel output background foreground style alpha
  = ASTBlendPixel output' background foreground style alpha.
Proof.
  intros Hnz. destruct style; try reflexivity.
  unfold ASTBlendPixel.
  destruct (_ <=? 0); [reflexivity |].
  destruct (Z.eqb_spec (s_alpha background) 0); [contradiction |].
  reflexivity.
Qed.

Lemma uchar_index (n : nat) :
  (n < 256)%nat -> Z.to_nat (to_uchar (Z.of_nat n)) = n.
Proof.
  intros H. rewrite to_uchar_id by (unfold is_uchar; lia). lia.
Qed.

Section TableProperties.

Variable palette : list RGBA_t.
Variable style : alphastyle_e.
Variable indeterminate : nat -> nat -> RGBA_t.
Variable blendamt : Z.

Let cell := T_BlendTrans_cell palette style indeterminate blendamt.
Let row := T_BlendTrans_x palette style indeterminate blendamt.
Let rows := T_BlendTrans_y palette style indeterminate blendamt.

(** The inner loop stores the cells [x .. 255] of row [y] and leaves
    the rest of the buffer alone. *)
Lemma T_BlendTrans_x_spec (y : nat) :
  forall (n x : nat) (working : list Z),
    (x + n = 256)%nat -> (y * 256 + 256 <= length working)%nat ->
    length (row y n x working) = length working
    /\ (forall k : nat, (x <= k < 256)%nat ->
          row y n x working !!! (y * 256 + k)%nat = cell y k)
    /\ (forall idx : nat,
          (idx < y * 256 + x \/ y * 256 + 256 <= idx)%nat ->
          row y n x working !!! idx = working !!! idx).
Proof.
  induction n as [| n IH]; intros x working Hx Hlen.
  - split; [reflexivity | split].
    + intros k Hk. lia.
    + reflexivity.
  - subst row. cbn [T_BlendTrans_x].
    fold (cell y x).
    destruct (IH (S x) (<[(y * 256 + x)%nat := cell y x]> working))
      as (Hl & Hin & Hout).
    + lia.
    + rewrite length_insert. exact Hlen.
    + rewrite length_insert in Hl. split; [exact Hl | split].
      * intros k Hk. destruct (decide (k = x)) as [-> | Hne].
        -- rewrite Hout by lia.
           apply list_lookup_total_insert_eq. lia.
        -- apply Hin. lia.
      * intros idx Hidx. rewrite Hout by lia.
        apply list_lookup_total_insert_ne. lia.
Qed.

(** The outer loop stores the rows [y .. 255]. *)
Lemma T_BlendTrans_y_spec :
  forall (n y : nat) (working : list Z),
    (y + n = 256)%nat -> (256 * 256 <= length working)%nat ->
    length (rows n y working) = length working
    /\ (forall y' x' : nat, (y <= y' < 256)%nat -> (x' < 256)%nat ->
          rows n y working !!! (y' * 256 + x')%nat = cell y' x')
    /\ (forall idx : nat,
          (idx < y * 256 \/ 256 * 256 <= idx)%nat ->
          rows n y working !!! idx = working !!! idx).
Proof.
  induction n as [| n IH]; intros y working Hy Hlen.
  - split; [reflexivity | split].
    + intros y' x' Hy'. lia.
    + reflexivity.
  - subst rows. cbn [T_BlendTrans_y].
    destruct (T_BlendTrans_x_spec y 256 0 working) as (Hl & Hin & Hout);
      [lia | lia |].
    subst row.
    set (w1 := T_BlendTrans_x palette style indeterminate blendamt
                              y 256 0 working) in *.
    destruct (IH (S y) w1) as (Hl' & Hin' & Hout'); [lia | lia |].
    split; [lia | split].
    + intros y' x' Hy' Hx'. destruct (decide (y' = y)) as [-> | Hne].
      * rewrite Hout' by lia. apply Hin. lia.
      * apply Hin'; lia.
    + intros idx Hidx. rewrite Hout' by lia. apply Hout. lia.
Qed.

End TableProperties.

(** Two buffers of 65536 bytes with the same 256 by 256 cells are the
    same buffer. *)
Lemma table_ext (t1 t2 : list Z) :
  length t1 = (256 * 256)%nat -> length t2 = (256 * 256)%nat ->
  (forall y x : nat, (y < 256)%nat -> (x < 256)%nat ->
     t1 !!! (y * 256 + x)%nat = t2 !!! (y * 256 + x)%nat) ->
  t1 = t2.
Proof.
  intros H1 H2 Hcells.
  apply (list_eq_same_length t1 t2 (256 * 256)%nat); [exact H2 | exact H1 |].
  intros i v1 v2 Hi Hv1 Hv2.
  apply list_lookup_total_correct in Hv1, Hv2.
  assert (Hdecomp : i = ((i / 256) * 256 + i mod 256)%nat).
  { pose proof (Nat.div_mod_eq i 256). lia. }
  assert (Hy : (i / 256 < 256)%nat)
    by (apply Nat.Div0.div_lt_upper_bound; lia).
  assert (Hx : (i mod 256 < 256)%nat) by (apply Nat.mod_upper_bound; lia).
  specialize (Hcells (i / 256)%nat (i mod 256)%nat Hy Hx).
  rewrite <- Hdecomp in Hcells. congruence.
Qed.

(** C1. Over a loaded palette, for every style and every level in
    [1, 9], table generation leaves 65536 bytes in the buffer; the
    byte at offset [y * 256 + x] is the nearest palette index of the
    composite of [palette[y]] (background) and [palette[x]]
    (foreground) under the style and the alpha byte of the level; and
    the table depends on the palette, the style and the level only:
    neither the former content of the buffer nor that of the
    uninitialised result of the compositing has a part in it. *)
Theorem T_BlendTrans_table
    (palette : list RGBA_t) (style : alphastyle_e)
    (indeterminate : nat -> nat -> RGBA_t) (level : Z) (working : list Z) :
  palette_loaded palette -> 1 <= level <= 9 ->
  length working = (256 * 256)%nat ->
  let table := T_BlendTrans palette style indeterminate level working in
  length table = (256 * 256)%nat
  /\ (forall (idx : nat) (v : Z), table !! idx = Some v -> is_uchar v)
  /\ (forall y x : nat, (y < 256)%nat -> (x < 256)%nat ->
        let result :=
          ASTBlendPixel (indeterminate y x) (palette !!! y) (palette !!! x)
                        style (blendamt_of level) in
        table !! (y * 256 + x)%nat
        = Some (NearestPaletteColor palette (s_red result) (s_green result)
                                    (s_blue result)))
  /\ (forall (indeterminate' : nat -> nat -> RGBA_t) (working' : list Z),
        length working' = (256 * 256)%nat ->
        T_BlendTrans palette style indeterminate' level working' = table).
Proof.
  intros Hpal Hlevel Hlen table.
  assert (Hspec : forall (ind : nat -> nat -> RGBA_t) (w : list Z),
            length w = (256 * 256)%nat ->
            length (T_BlendTrans palette style ind level w) = (256 * 256)%nat
            /\ forall y x : nat, (y < 256)%nat -> (x < 256)%nat ->
                 T_BlendTrans palette style ind level w !!! (y * 256 + x)%nat
                 = T_BlendTrans_cell palette style ind (blendamt_of level)
                                     y x).
  { intros ind w Hw. unfold T_BlendTrans.
    destruct (T_BlendTrans_y_spec palette style ind (blendamt_of level)
                256 0 w) as (Hl & Hin & _); [lia | lia |].
    split; [lia |].
    intros y x Hy Hx. apply Hin; lia. }
  assert (Hcell : forall (ind : nat -> nat -> RGBA_t) (y x : nat),
            (y < 256)%nat -> (x < 256)%nat ->
            T_BlendTrans_cell palette style ind (blendamt_of level) y x
            = let result :=
                ASTBlendPixel (indeterminate y x) (palette !!! y)
                              (palette !!! x) style (blendamt_of level) in
              NearestPaletteColor palette (s_red result) (s_green result)
                                  (s_blue result)).
  { intros ind y x Hy Hx. unfold T_BlendTrans_cell.
    rewrite !uchar_index by assumption. cbv zeta.
    rewrite (ASTBlendPixel_output_irrelevant (ind y x) (indeterminate y x));
      [reflexivity |].
    destruct Hpal as [_ Hpal]. destruct (Hpal y Hy) as [_ ->]. lia. }
  destruct (Hspec indeterminate working Hlen) as (Htl & Htc).
  fold table in Htl, Htc.
  split; [exact Htl | split; [| split]].
  - intros idx v Hv.
    assert (Hidx : (idx < 256 * 256)%nat).
    { rewrite <- Htl. eapply lookup_lt_Some. exact Hv. }
    apply list_lookup_total_correct in Hv. subst v.
    assert (Hdecomp : idx = ((idx / 256) * 256 + idx mod 256)%nat).
    { pose proof (Nat.div_mod_eq idx 256). lia. }
    rewrite Hdecomp, Htc.
    + apply NearestPaletteColor_loop_range.
    + apply Nat.Div0.div_lt_upper_bound. lia.
    + apply Nat.mod_upper_bound. lia.
  - intros y x Hy Hx. cbv zeta.
    rewrite list_lookup_lookup_total_lt by (rewrite Htl; nia).
    rewrite Htc, (Hcell indeterminate) by assumption. reflexivity.
  - intros ind' w' Hw'.
    destruct (Hspec ind' w' Hw') as (Htl' & Htc').
    apply table_ext; [exact Htl' | exact Htl |].
    intros y x Hy Hx.
    rewrite Htc', Htc, (Hcell ind'), (Hcell indeterminate) by assumption.
    reflexivity.
Qed.

Lemma T_BlendTrans_table_witness :
  length (T_BlendTrans grey_ramp AST_TRANSLUCENT
                       (fun _ _ => mkRGBA 0 0 0 0) 5 working_init)
  = (256 * 256)%nat
  /\ forall (indeterminate' : nat -> nat -> RGBA_t) (working' : list Z),
       length working' = (256 * 256)%nat ->
       T_BlendTrans grey_ramp AST_TRANSLUCENT indeterminate' 5 working'
       = T_BlendTrans grey_ramp AST_TRANSLUCENT
                      (fun _ _ => mkRGBA 0 0 0 0) 5 working_init.
Proof.
  destruct (T_BlendTrans_table grey_ramp AST_TRANSLUCENT
              (fun _ _ => mkRGBA 0 0 0 0) 5 working_init)
    as (Hlen & _ & _ & Hdet).
  - exact grey_ramp_loaded.
  - lia.
  - apply length_replicate.
  - split; [exact Hlen | exact Hdet].
Defined.

(** ** Command line *)

Lemma Parm_ParseParameter_set_arg
    (argv : list string) (name : string) (k : nat) (p : parms)
    (arg : string) :
  argv !! k = Some arg ->
  Parm_ParseParameter_set argv name k p
  = Parm_ParseParameter_set [arg] name 0 p.
Proof.
  intros H. unfold Parm_ParseParameter_set.
  rewrite (list_lookup_total_correct _ _ _ H). reflexivity.
Qed.

(** The loop reads the arguments from [i] on, and [n] iterations are
    enough as soon as [n] is at least their number. *)
Lemma Parm_Parse_loop_rest (argv : list string) :
  forall (n i : nat) (p : parms),
    (length argv - i <= n)%nat ->
    Parm_Parse_loop argv n i p = parse_rest (drop i argv) p.
Proof.
  induction n as [| n IH]; intros i p Hn.
  - rewrite drop_ge by lia. reflexivity.
  - cbn [Parm_Parse_loop]. unfold parm_argc.
    destruct (Nat.ltb_spec i (length argv)) as [Hlt | Hge].
    + destruct (lookup_lt_is_Some_2 argv i Hlt) as [a Ha].
      rewrite (list_lookup_total_correct _ _ _ Ha).
      rewrite (drop_S _ _ _ Ha). cbn [parse_rest].
      destruct (option_name a) as [name |].
      * unfold Parm_ParseParameter, parm_argc.
        destruct (Nat.leb_spec (length argv) (i + 1)) as [Hlast | Hmore].
        -- rewrite IH by lia.
           rewrite (drop_ge argv (S i)), (drop_ge argv (S (i + 1))) by lia.
           reflexivity.
        -- destruct (lookup_lt_is_Some_2 argv (i + 1) Hmore) as [arg Harg].
           rewrite IH by lia.
           replace (S i) with (i + 1)%nat by lia.
           rewrite (drop_S _ _ _ Harg).
           rewrite (Parm_ParseParameter_set_arg _ _ _ _ _ Harg).
           reflexivity.
      * apply IH. lia.
    + rewrite drop_ge by lia. reflexivity.
Qed.

Lemma Parm_Parse_rest (argv : list string) (p : parms) :
  Parm_Parse argv p = parse_rest (drop 1 argv) p.
Proof. unfold Parm_Parse. apply Parm_Parse_loop_rest. unfold parm_argc. lia. Qed.

(** From a state the loop comes to, the rest of the loop gives the
    result of the whole parse. *)
Lemma Parm_Parse_at_final (argv : list string) (p0 : parms)
    (i : nat) (p : parms) :
  Parm_Parse_at argv p0 i p ->
  parse_rest (drop i argv) p = Parm_Parse argv p0.
Proof.
  induction 1 as [| i p parmstring name Hat IH Ha Hname
                  | i p parmstring Hat IH Ha Hname].
  - symmetry. apply Parm_Parse_rest.
  - rewrite <- IH. rewrite (drop_S _ _ _ Ha). cbn [parse_rest].
    rewrite Hname. unfold Parm_ParseParameter, parm_argc.
    destruct (Nat.leb_spec (length argv) (i + 1)) as [Hlast | Hmore].
    + cbn [fst snd].
      rewrite (drop_ge argv (S i)), (drop_ge argv (S (i + 1))) by lia.
      reflexivity.
    + destruct (lookup_lt_is_Some_2 argv (i + 1) Hmore) as [arg Harg].
      cbn [fst snd].
      replace (S i) with (i + 1)%nat by lia.
      rewrite (drop_S _ _ _ Harg).
      rewrite (Parm_ParseParameter_set_arg _ _ _ _ _ Harg).
      reflexivity.
  - rewrite <- IH. rewrite (drop_S _ _ _ Ha). cbn [parse_rest].
    rewrite Hname. reflexivity.
Qed.

Lemma take_eq_le {A : Type} (l l' : list A) (i j : nat) :
  (j <= i)%nat -> take i l' = take i l -> take j l' = take j l.
Proof.
  intros Hj H. apply (f_equal (take j)) in H.
  rewrite !take_take, !Nat.min_l in H by lia. exact H.
Qed.

(** A state the loop comes to within the arguments depends on the
    arguments before it only. *)
Lemma Parm_Parse_at_prefix (argv argv' : list string) (p0 : parms)
    (i : nat) (p : parms) :
  Parm_Parse_at argv p0 i p ->
  (i <= length argv)%nat -> (i <= length argv')%nat ->
  take i argv' = take i argv ->
  Parm_Parse_at argv' p0 i p.
Proof.
  intros Hat. revert argv'.
  induction Hat as [| i p parmstring name Hat IH Ha Hname
                    | i p parmstring Hat IH Ha Hname];
    intros argv' Hi Hi' Htake.
  - constructor.
  - unfold Parm_ParseParameter, parm_argc in *.
    destruct (Nat.leb_spec (length argv) (i + 1)) as [Hlast | Hmore];
      cbn [fst snd] in *; [lia |].
    assert (Hsame : forall k : nat, (k < S (i + 1))%nat ->
                      argv' !! k = argv !! k).
    { intros k Hk.
      rewrite <- (lookup_take_lt argv' (S (i + 1)) k) by exact Hk.
      rewrite <- (lookup_take_lt argv (S (i + 1)) k) by exact Hk.
      rewrite Htake. reflexivity. }
    assert (Hat' : Parm_Parse_at argv' p0 i p).
    { apply IH; [lia | lia |].
      apply (take_eq_le argv argv' (S (i + 1)) i); [lia | exact Htake]. }
    pose proof (Parm_Parse_at_option argv' p0 i p parmstring name Hat')
      as Hstep.
    rewrite Hsame in Hstep by lia.
    specialize (Hstep Ha Hname).
    unfold Parm_ParseParameter, parm_argc in Hstep.
    destruct (Nat.leb_spec (length argv') (i + 1)) as [Hlast' | Hmore'];
      cbn [fst snd] in Hstep; [lia |].
    destruct (lookup_lt_is_Some_2 argv (i + 1) Hmore) as [arg Harg].
    rewrite (Parm_ParseParameter_set_arg argv _ _ _ _ Harg).
    rewrite <- Hsame in Harg by lia.
    rewrite (Parm_ParseParameter_set_arg argv' _ _ _ _ Harg) in Hstep.
    exact Hstep.
  - assert (Hsame : argv' !! i = argv !! i).
    { rewrite <- (lookup_take_lt argv' (S i) i) by lia.
      rewrite <- (lookup_take_lt argv (S i) i) by lia.
      rewrite Htake. reflexivity. }
    apply (Parm_Parse_at_other argv' p0 i p parmstring).
    + apply IH; [lia | lia |].
      apply (take_eq_le argv argv' (S i) i); [lia | exact Htake].
    + rewrite Hsame. exact Ha.
    + exact Hname.
Qed.

(** ** The driver *)

Lemma written_files_app (t1 t2 : list event) :
  written_files (t1 ++ t2) = (written_files t1 ++ written_files t2)%list.
Proof.
  induction t1 as [| e t1 IH]; [reflexivity |].
  destruct e; cbn [written_files app]; rewrite ?IH; reflexivity.
Qed.

Lemma error_lines_app (t1 t2 : list event) :
  error_lines (t1 ++ t2) = (error_lines t1 ++ error_lines t2)%list.
Proof.
  induction t1 as [| e t1 IH]; [reflexivity |].
  cbn [error_lines app]. destruct (is_error_line e); rewrite IH; reflexivity.
Qed.

Section DriverProperties.

Variable E : env.
Variable size : nat.
Variable prefix : string.
Variable canblend : list Z.

Let loop := T_DoMain_loop E size prefix canblend.

(** One iteration of the loop that blends: what it leaves. *)
Lemma T_DoMain_loop_step (n : nat) (i : Z) (g : globals) :
  (canblend !!! Z.to_nat (i - 1) =? 0) = false ->
  loop (S n) i g
  = match lump_filename size prefix i with
    | None => (g, Undefined)
    | Some filename =>
        match fprintf_no_args (VA_OUTPUT ("Writing " ++ filename ++ "..."))
        with
        | None => (g, Undefined)
        | Some line =>
            let working :=
              T_BlendTrans (g_palette g) (blendstyle (g_parms g))
                           (env_indeterminate E i) i (g_working g) in
            if fopen_wb E filename
            then loop n (i + 1)
                   (mkGlobals (g_parms g) (g_palette g) working
                      ((g_trace g ++ [Ev_stdout line])
                       ++ [Ev_fwrite filename working]))
            else (mkGlobals (g_parms g) (g_palette g) working
                    (g_trace g ++ [Ev_stdout line]), Undefined)
        end
    end.
Proof.
  intros Hmark. cbv zeta. subst loop. cbn [T_DoMain_loop].
  rewrite Hmark.
  destruct (lump_filename size prefix i) as [filename |]; [| reflexivity].
  unfold T_OutputMessage.
  destruct (fprintf_no_args _) as [line |]; [| reflexivity].
  cbv [mbind M_bind bind get set_working emit undefined].
  cbn [g_parms g_palette g_working g_trace].
  destruct (fopen_wb E filename); reflexivity.
Qed.

(** The loop never calls [exit] and reports no error. *)
Lemma T_DoMain_loop_no_report :
  forall (n : nat) (i : Z) (g : globals),
    (forall status : Z, snd (loop n i g) <> Exited status)
    /\ error_lines (g_trace (fst (loop n i g))) = error_lines (g_trace g).
Proof.
  induction n as [| n IH]; intros i g.
  - split; [discriminate | reflexivity].
  - destruct (canblend !!! Z.to_nat (i - 1) =? 0) eqn:Hmark.
    + subst loop. cbn [T_DoMain_loop]. rewrite Hmark. apply IH.
    + rewrite (T_DoMain_loop_step n i g Hmark).
      destruct (lump_filename size prefix i) as [filename |];
        [| split; [discriminate | reflexivity]].
      destruct (fprintf_no_args _) as [line |] eqn:Hline;
        [| split; [discriminate | reflexivity]].
      pose proof (writing_is_not_error filename line Hline) as Hnoerr.
      cbv zeta.
      destruct (fopen_wb E filename).
      * match goal with
        | |- context [loop n (i + 1) ?g1] =>
            destruct (IH (i + 1) g1) as [Hexit Herr]
        end.
        split; [exact Hexit |].
        rewrite Herr. cbn [g_trace].
        rewrite !error_lines_app. cbn [error_lines].
        rewrite Hnoerr. cbn [is_error_line].
        rewrite !app_nil_r. reflexivity.
      * cbn [fst snd g_trace]. split; [discriminate |].
        rewrite error_lines_app. cbn [error_lines].
        rewrite Hnoerr. apply app_nil_r.
Qed.

(** From here on the block of [filename] takes the name and its NUL,
    the prefix has no [%], and every output file opens. *)
Hypothesis filename_fits : (String.length prefix + 7 <= size)%nat.
Hypothesis prefix_plain : string_has "%" prefix = false.
Hypothesis fopen_wb_ok : forall filename : string, fopen_wb E filename = true.

Lemma T_DoMain_loop_step_ok (n : nat) (i : Z) (g : globals) :
  (canblend !!! Z.to_nat (i - 1) =? 0) = false -> 1 <= i <= 9 ->
  let filename := lump_text prefix i in
  let working :=
    T_BlendTrans (g_palette g) (blendstyle (g_parms g))
                 (env_indeterminate E i) i (g_working g) in
  loop (S n) i g
  = loop n (i + 1)
      (mkGlobals (g_parms g) (g_palette g) working
         ((g_trace g
           ++ [Ev_stdout (VA_OUTPUT ("Writing " ++ filename ++ "..."))])
          ++ [Ev_fwrite filename working])).
Proof.
  intros Hmark Hi. cbv zeta.
  rewrite (T_DoMain_loop_step n i g Hmark).
  rewrite (lump_filename_fits size prefix i Hi).
  destruct (Nat.leb_spec (String.length prefix + 7) size); [| lia].
  rewrite fprintf_no_args_plain
    by (apply string_has_take, writing_plain; assumption).
  cbv zeta. rewrite fopen_wb_ok. reflexivity.
Qed.

(** The loop then returns after it has written one file for each
    level that [canblend] marks, in ascending order. *)
Lemma T_DoMain_loop_writes :
  forall (n : nat) (i : Z) (g : globals),
    1 <= i -> i + Z.of_nat n <= 10 ->
    snd (loop n i g) = Done tt
    /\ written_files (g_trace (fst (loop n i g)))
       = (written_files (g_trace g)
          ++ map (lump_text prefix) (marked_levels canblend n i))%list.
Proof.
  induction n as [| n IH]; intros i g Hlo Hhi.
  - split; [reflexivity |]. cbn [marked_levels map].
    rewrite app_nil_r. reflexivity.
  - cbn [marked_levels].
    destruct (canblend !!! Z.to_nat (i - 1) =? 0) eqn:Hmark.
    + subst loop. cbn [T_DoMain_loop]. rewrite Hmark. apply IH; lia.
    + rewrite (T_DoMain_loop_step_ok n i g Hmark) by lia.
      match goal with
      | |- context [loop n (i + 1) ?g1] =>
          destruct (IH (i + 1) g1) as [Hdone Hfiles]; [lia | lia |]
      end.
      split; [exact Hdone |].
      rewrite Hfiles. cbn [g_trace map].
      rewrite !written_files_app. cbn [written_files].
      rewrite app_nil_r, <- app_assoc. reflexivity.
Qed.

End DriverProperties.

(** When [malloc] succeeds, [T_DoMain] has no path on which it reports
    an error or calls [exit], whatever [fopen] answers. *)
Lemma T_DoMain_no_report (E : env) (g : globals) :
  malloc_ok E = true ->
  (forall status : Z, snd (T_DoMain E g) <> Exited status)
  /\ error_lines (g_trace (fst (T_DoMain E g))) = error_lines (g_trace g).
Proof.
  intros Hmalloc. unfold T_DoMain.
  rewrite (T_OutputMessage_plain "Done!") by reflexivity.
  cbv [mbind M_bind bind get]. rewrite Hmalloc. cbn [negb].
  destruct (T_DoMain_canblend _ _) as [canblend |].
  - match goal with
    | |- context [T_DoMain_loop E ?size ?prefix canblend 9 1 g] =>
        destruct (T_DoMain_loop_no_report E size prefix canblend 9 1 g)
          as [Hexit Herr];
        destruct (T_DoMain_loop E size prefix canblend 9 1 g)
          as [g' [[] | status |]]
    end.
    + cbn [fst snd] in *. split; [discriminate |].
      cbv [emit]. cbn [fst g_trace].
      rewrite error_lines_app, Herr. apply app_nil_r.
    + exfalso. exact (Hexit status eq_refl).
    + cbn [fst snd] in *. split; [discriminate | exact Herr].
  - split; [discriminate | reflexivity].
Qed.

(** With the default output files, a block that takes the file name,
    a prefix without [%] and every file opening, [T_DoMain] returns
    after writing the nine tables, in ascending order of level. *)
Lemma T_DoMain_default_writes (E : env) (g : globals) :
  let prefix := default defaultprefix (parm_outprefix (g_parms g)) in
  malloc_ok E = true ->
  (1 <= malloc_slack E (String.length prefix + 6))%nat ->
  string_has "%" prefix = false ->
  (forall filename : string, fopen_wb E filename = true) ->
  parm_outfiles (g_parms g) = None ->
  snd (T_DoMain E g) = Done tt
  /\ written_files (g_trace (fst (T_DoMain E g)))
     = (written_files (g_trace g)
        ++ map (lump_text prefix) [1; 2; 3; 4; 5; 6; 7; 8; 9])%list.
Proof.
  intros prefix Hmalloc Hslack Hplain Hopen Hnone. unfold T_DoMain.
  rewrite (T_OutputMessage_plain "Done!") by reflexivity.
  cbv [mbind M_bind bind get]. rewrite Hmalloc, Hnone. cbn [negb default].
  fold prefix.
  change (T_DoMain_canblend defaultoutfiles (replicate 9 0))
    with (Some (replicate 9 1)).
  set (size := (String.length prefix + 6
                + malloc_slack E (String.length prefix + 6))%nat).
  assert (Hfit : (String.length prefix + 7 <= size)%nat)
    by (subst size; lia).
  destruct (T_DoMain_loop_writes E size prefix (replicate 9 1)
              Hfit Hplain Hopen 9 1 g) as [Hdone Hfiles]; [lia | lia |].
  change (marked_levels (replicate 9 1) 9 1)
    with [1; 2; 3; 4; 5; 6; 7; 8; 9] in Hfiles.
  destruct (T_DoMain_loop E size prefix (replicate 9 1) 9 1 g) as [g' r].
  cbn [fst snd] in *. subst r.
  cbv [emit]. cbn [fst snd g_trace].
  split; [reflexivity |].
  rewrite written_files_app, Hfiles. apply app_nil_r.
Qed.

(** C8, on an input where it fails.  The command line names a valid
    palette and no output file can be opened: the program prints no
    error report and does not call [exit]; it announces the first
    file, blends its table, and hands the null stream to [fwrite],
    on which the C standard puts no requirement. *)
Theorem main_output_open_failure :
  let run :=
    main env_no_output ["transmake"; "-palette"; "pal.dat"]%string
         globals_init in
  snd run = Undefined
  /\ g_trace (fst run)
     = [Ev_copyright false false;
        Ev_stdout "Pal_Read: Read palette file successfully!";
        Ev_stdout "Writing TRANS10.lmp..."]
  /\ error_lines (g_trace (fst run)) = []
  /\ written_files (g_trace (fst run)) = [].
Proof.
  cbv zeta. assert (Hsnd : snd (main env_no_output
                                  ["transmake"; "-palette"; "pal.dat"]%string
                                  globals_init) = Undefined)
    by (lazy; reflexivity).
  assert (Htrace : g_trace (fst (main env_no_output
                                   ["transmake"; "-palette"; "pal.dat"]%string
                                   globals_init))
                   = [Ev_copyright false false;
                      Ev_stdout "Pal_Read: Read palette file successfully!";
                      Ev_stdout "Writing TRANS10.lmp..."])
    by (lazy; reflexivity).
  rewrite Htrace.
  split; [exact Hsnd | split; [reflexivity | split; reflexivity]].
Qed.

(** ** The empty argument of the output files option *)

(** A name that compares equal to "outfiles" does not compare equal
    to "palette", which [Parm_ParseParameter] tests first. *)
Lemma stricmp_outfiles_not_palette (name : string) :
  stricmp name "outfiles" = 0 -> stricmp name "palette" <> 0.
Proof.
  destruct name as [| c1 r1]; [discriminate |].
  cbn [stricmp].
  generalize (Z.of_nat (nat_of_ascii (tolower c1))). intros x.
  change (Z.of_nat (nat_of_ascii (tolower "o"))) with 111.
  change (Z.of_nat (nat_of_ascii (tolower "p"))) with 112.
  cbv zeta.
  destruct (Z.eqb_spec (x - 111) 0); destruct (Z.eqb_spec (x - 112) 0);
    intros; lia.
Qed.

(** C10, as the specification states it, fails: an empty argument
    does not bring the default back when another output files option
    is in force.  On [-outfiles 12 -outfiles ""] the parser comes to
    the second option, ignores it, and "12" stays: two levels are
    marked and two files written, not nine. *)
Lemma outfiles_empty_keeps_other_option :
  let argv := ["transmake"; "-palette"; "pal.dat"; "-outfiles"; "12";
               "-outfiles"; ""]%string in
  Parm_Parse_at argv parms_init 5
    (mkParms (Some "pal.dat"%string) None (Some "12"%string) AST_TRANSLUCENT)
  /\ argv !! 5%nat = Some "-outfiles"%string
  /\ argv !! 6%nat = Some ""%string
  /\ parm_outfiles (Parm_Parse argv parms_init) = Some "12"%string
  /\ T_DoMain_canblend
       (default defaultoutfiles (parm_outfiles (Parm_Parse argv parms_init)))
       (replicate 9 0)
     = Some [1; 1; 0; 0; 0; 0; 0; 0; 0]
  /\ snd (main env_example argv globals_init) = Done 0
  /\ written_files (g_trace (fst (main env_example argv globals_init)))
     = ["TRANS10.lmp"; "TRANS20.lmp"]%string
  /\ ~ (forall (argv : list string) (i : nat) (p : parms),
          Parm_Parse_at argv parms_init i p ->
          argv !! i = Some "-outfiles"%string ->
          argv !! (i + 1)%nat = Some ""%string ->
          T_DoMain_canblend
            (default defaultoutfiles
                     (parm_outfiles (Parm_Parse argv parms_init)))
            (replicate 9 0)
          = Some (replicate 9 1)).
Proof.
  cbv zeta.
  set (argv := ["transmake"; "-palette"; "pal.dat"; "-outfiles"; "12";
                "-outfiles"; ""]%string).
  assert (Hat : Parm_Parse_at argv parms_init 5
                  (mkParms (Some "pal.dat"%string) None (Some "12"%string)
                           AST_TRANSLUCENT)).
  { pose proof (Parm_Parse_at_option argv parms_init 1 parms_init
                  "-palette" "palette" (Parm_Parse_at_start argv parms_init)
                  eq_refl eq_refl) as H3.
    exact (Parm_Parse_at_option argv parms_init 3 _
             "-outfiles" "outfiles" H3 eq_refl eq_refl). }
  assert (Hmarks : T_DoMain_canblend
                     (default defaultoutfiles
                              (parm_outfiles (Parm_Parse argv parms_init)))
                     (replicate 9 0)
                   = Some [1; 1; 0; 0; 0; 0; 0; 0; 0])
    by (vm_compute; reflexivity).
  split; [exact Hat |].
  split; [reflexivity |].
  split; [reflexivity |].
  split; [vm_compute; reflexivity |].
  split; [exact Hmarks |].
  split; [lazy; reflexivity |].
  split; [lazy; reflexivity |].
  intros H. specialize (H argv 5%nat _ Hat eq_refl eq_refl).
  rewrite Hmarks in H. discriminate H.
Qed.

(** C10, amended. When the parser comes to an option named [outfiles]
    (in any letter case) whose argument is the empty string, the
    globals are left as they are and the two arguments are skipped:
    the parse of the whole command line gives what it gives without
    the two arguments, and so does the whole run when at least one
    argument remains.  If no other option sets the output files, the
    default "123456789" is used, all nine levels are marked for
    output and, in a run that gets that far (the block of the file
    name takes the name, the prefix has no [%], the files open), the
    nine tables are written. *)
Theorem outfiles_empty_is_ignored
    (argv : list string) (p0 : parms) (i : nat) (p : parms)
    (parmstring name : string) :
  Parm_Parse_at argv p0 i p ->
  argv !! i = Some parmstring ->
  option_name parmstring = Some name ->
  stricmp name "outfiles" = 0 ->
  argv !! (i + 1)%nat = Some "" ->
  let argv' := (take i argv ++ drop (i + 2) argv)%list in
  Parm_ParseParameter argv name (i + 1) p = (p, (i + 2)%nat)
  /\ Parm_Parse argv p0 = Parm_Parse argv' p0
  /\ (forall (E : env) (g : globals),
        g_parms g = p0 -> (2 <= length argv')%nat ->
        main E argv g = main E argv' g)
  /\ (parm_outfiles (Parm_Parse argv' p0) = None ->
      T_DoMain_canblend
        (default defaultoutfiles (parm_outfiles (Parm_Parse argv p0)))
        (replicate 9 0)
      = Some (replicate 9 1)
      /\ forall (E : env) (g : globals),
           let prefix :=
             default defaultprefix (parm_outprefix (g_parms g)) in
           malloc_ok E = true ->
           (1 <= malloc_slack E (String.length prefix + 6))%nat ->
           string_has "%" prefix = false ->
           (forall filename : string, fopen_wb E filename = true) ->
           g_parms g = Parm_Parse argv p0 ->
           snd (T_DoMain E g) = Done tt
           /\ written_files (g_trace (fst (T_DoMain E g)))
              = (written_files (g_trace g)
                 ++ map (fun digit : string =>
                           (prefix ++ digit ++ "0.lmp")%string)
                        ["1"; "2"; "3"; "4"; "5"; "6"; "7"; "8"; "9"]%string
                )%list).
Proof.
  intros Hat Ha Hname Hout Harg argv'.
  assert (Hi : (i + 1 < length argv)%nat)
    by (eapply lookup_lt_Some; exact Harg).
  assert (Hset : Parm_ParseParameter_set [""] name 0 p = p).
  { unfold Parm_ParseParameter_set.
    destruct (Z.eqb_spec (stricmp name "palette") 0) as [Hpal | _].
    - exfalso. exact (stricmp_outfiles_not_palette name Hout Hpal).
    - rewrite Hout. reflexivity. }
  assert (Hstep : Parm_ParseParameter argv name (i + 1) p
                  = (p, (i + 2)%nat)).
  { unfold Parm_ParseParameter, parm_argc.
    destruct (Nat.leb_spec (length argv) (i + 1)); [lia |].
    rewrite (Parm_ParseParameter_set_arg _ _ _ _ _ Harg), Hset.
    f_equal. lia. }
  assert (Hsame : Parm_Parse argv p0 = Parm_Parse argv' p0).
  { rewrite <- (Parm_Parse_at_final argv p0 i p Hat).
    rewrite (drop_S _ _ _ Ha). cbn [parse_rest]. rewrite Hname.
    replace (S i) with (i + 1)%nat by lia.
    rewrite (drop_S _ _ _ Harg), Hset.
    replace (S (i + 1)) with (i + 2)%nat by lia.
    assert (Hlen : length (take i argv) = i)
      by (apply length_take_le; lia).
    assert (Hat' : Parm_Parse_at argv' p0 i p).
    { apply (Parm_Parse_at_prefix argv); [exact Hat | lia | |].
      - unfold argv'. rewrite length_app, Hlen. lia.
      - unfold argv'. rewrite take_app_length' by (symmetry; exact Hlen).
        reflexivity. }
    rewrite <- (Parm_Parse_at_final argv' p0 i p Hat').
    unfold argv'. rewrite drop_app_length' by (symmetry; exact Hlen).
    reflexivity. }
  split; [exact Hstep | split; [exact Hsame | split]].
  - intros E g Hg Hlen'. unfold main.
    destruct (Nat.ltb_spec (length argv) 2); [lia |].
    destruct (Nat.ltb_spec (length argv') 2); [lia |].
    cbv [mbind M_bind bind T_PrintCopyrightText emit get set_parms].
    cbn [fst snd g_parms g_palette g_working g_trace].
    rewrite Hg, Hsame. reflexivity.
  - intros Hnone. rewrite Hsame, Hnone. split; [reflexivity |].
    intros E g prefix Hmalloc Hslack Hplain Hopen Hg.
    change (map (fun digit : string => (prefix ++ digit ++ "0.lmp")%string)
                ["1"; "2"; "3"; "4"; "5"; "6"; "7"; "8"; "9"]%string)
      with (map (lump_text prefix) [1; 2; 3; 4; 5; 6; 7; 8; 9]).
    apply T_DoMain_default_writes;
      [exact Hmalloc | exact Hslack | exact Hplain | exact Hopen |].
    rewrite Hg. exact Hnone.
Qed.

Lemma outfiles_empty_is_ignored_witness :
  Parm_Parse ["transmake"; "-palette"; "pal.dat"; "-OutFiles"; "";
              "-blendstyle"; "add"]%string parms_init
  = Parm_Parse ["transmake"; "-palette"; "pal.dat";
                "-blendstyle"; "add"]%string parms_init
  /\ main env_example
          ["transmake"; "-palette"; "pal.dat"; "-OutFiles"; "";
           "-blendstyle"; "add"]%string globals_init
     = main env_example
            ["transmake"; "-palette"; "pal.dat";
             "-blendstyle"; "add"]%string globals_init.
Proof.
  pose (argv := ["transmake"; "-palette"; "pal.dat"; "-OutFiles"; "";
                 "-blendstyle"; "add"]%string).
  assert (Hat : Parm_Parse_at argv parms_init 3
                  (mkParms (Some "pal.dat"%string) None None
                           AST_TRANSLUCENT)).
  { exact (Parm_Parse_at_option argv parms_init 1 parms_init
             "-palette" "palette" (Parm_Parse_at_start argv parms_init)
             eq_refl eq_refl). }
  destruct (outfiles_empty_is_ignored argv parms_init 3 _
              "-OutFiles" "OutFiles" Hat) as (_ & Hsame & Hrun & _).
  - reflexivity.
  - reflexivity.
  - reflexivity.
  - reflexivity.
  - split; [exact Hsame |].
    apply (Hrun env_example globals_init); [reflexivity |].
    cbn [argv take drop app length]. lia.
Defined.

(** * Further properties of the code *)

(** ** Palette reading: outcomes and content *)

(** X1. [Pal_Read] returns exactly when the palette file opens,
    [ftell] reports at least 768 at its end and [fread] delivers 768
    bytes.  Each of the three failures has its own report: the file
    does not open; [ftell] reports less than 768; [fread] delivers
    fewer than 768 bytes although [ftell] reported enough.  On every
    failure [exit] is called with [EXIT_FAILURE] after that one
    report, the palette untouched.  In every case the command-line
    globals and the table buffer are as before and no file is
    written. *)
Theorem Pal_Read_outcome (E : env) (inpal : string) (g : globals) :
  let run := Pal_Read E inpal g in
  let reports := fun text : string =>
    g_trace (fst run) = (g_trace g ++ [Ev_stdout ("ERROR: " ++ text)])%list in
  (snd run = Done tt <->
   exists contents : list Byte.byte,
     fopen_rb E inpal = Some contents
     /\ Z.of_nat PALSIZE <= ftell_end E inpal
     /\ (PALSIZE <= length contents)%nat)
  /\ (fopen_rb E inpal = None ->
      reports "Could not open palette file for reading."%string)
  /\ (forall contents : list Byte.byte,
        fopen_rb E inpal = Some contents ->
        ftell_end E inpal < Z.of_nat PALSIZE ->
        reports "Palette file has incorrect size!"%string)
  /\ (forall contents : list Byte.byte,
        fopen_rb E inpal = Some contents ->
        Z.of_nat PALSIZE <= ftell_end E inpal ->
        (length contents < PALSIZE)%nat ->
        reports "Couldn't read palette file!"%string)
  /\ (snd run <> Done tt ->
      snd run = Exited EXIT_FAILURE /\ g_palette (fst run) = g_palette g)
  /\ g_parms (fst run) = g_parms g
  /\ g_working (fst run) = g_working g
  /\ written_files (g_trace (fst run)) = written_files (g_trace g).
Proof.
  cbv zeta. unfold Pal_Read.
  rewrite !T_OutputError_plain by reflexivity.
  rewrite T_OutputMessage_plain by reflexivity.
  destruct (fopen_rb E inpal) as [contents |].
  - destruct (Z.ltb_spec (ftell_end E inpal) (Z.of_nat PALSIZE))
      as [Hshort | Hlong].
    + cbv [mbind M_bind bind emit exit].
      cbn [fst snd g_parms g_palette g_working g_trace].
      split; [| split; [| split; [| split; [| split; [| split; [| split]]]]]].
      * split; [discriminate |].
        intros (c & _ & Hc & _). lia.
      * discriminate.
      * intros c _ _. reflexivity.
      * intros c _ Hc _. lia.
      * intros _. split; reflexivity.
      * reflexivity.
      * reflexivity.
      * rewrite written_files_app. apply app_nil_r.
    + destruct (Nat.leb_spec PALSIZE (length contents)) as [Hle | Hgt];
        cbn [negb].
      * cbv [mbind M_bind bind get set_palette emit].
        cbn [fst snd g_parms g_palette g_working g_trace].
        split;
          [| split; [| split; [| split; [| split; [| split; [| split]]]]]].
        -- split; [| reflexivity].
           intros _. exists contents.
           split; [reflexivity | split; [exact Hlong | exact Hle]].
        -- discriminate.
        -- intros c _ Hc. lia.
        -- intros c Hc _ Hlt. injection Hc as <-. lia.
        -- intros H. exfalso. apply H. reflexivity.
        -- reflexivity.
        -- reflexivity.
        -- rewrite written_files_app. apply app_nil_r.
      * cbv [mbind M_bind bind emit exit].
        cbn [fst snd g_parms g_palette g_working g_trace].
        split;
          [| split; [| split; [| split; [| split; [| split; [| split]]]]]].
        -- split; [discriminate |].
           intros (c & Hc & _ & Hlen). injection Hc as <-. lia.
        -- discriminate.
        -- intros c _ Hc. lia.
        -- intros c _ _ _. reflexivity.
        -- intros _. split; reflexivity.
        -- reflexivity.
        -- reflexivity.
        -- rewrite written_files_app. apply app_nil_r.
  - cbv [mbind M_bind bind emit exit].
    cbn [fst snd g_parms g_palette g_working g_trace].
    split; [| split; [| split; [| split; [| split; [| split; [| split]]]]]].
    + split; [discriminate |].
      intros (c & Hc & _). discriminate Hc.
    + intros _. reflexivity.
    + intros c Hc. discriminate Hc.
    + intros c Hc. discriminate Hc.
    + intros _. split; reflexivity.
    + reflexivity.
    + reflexivity.
    + rewrite written_files_app. apply app_nil_r.
Qed.

(** What a successful [Pal_Read] leaves in the globals. *)
Lemma Pal_Read_success (E : env) (inpal : string) (g : globals)
    (contents : list Byte.byte) :
  fopen_rb E inpal = Some contents ->
  Z.of_nat PALSIZE <= ftell_end E inpal ->
  (PALSIZE <= length contents)%nat ->
  Pal_Read E inpal g
  = (mkGlobals (g_parms g)
       (Pal_Read_loop (take PALSIZE contents) PALSIZE 0 0 (g_palette g))
       (g_working g)
       (g_trace g
        ++ [Ev_stdout "Pal_Read: Read palette file successfully!"]),
     Done tt).
Proof.
  intros Hopen Hsize Hlen. unfold Pal_Read. rewrite Hopen.
  rewrite T_OutputMessage_plain by reflexivity.
  destruct (Z.ltb_spec (ftell_end E inpal) (Z.of_nat PALSIZE)); [lia |].
  destruct (Nat.leb_spec PALSIZE (length contents)); [| lia].
  reflexivity.
Qed.

(** X2. After a successful [Pal_Read], entry [i] of the palette, for
    [i] below 256, has the bytes [3i], [3i + 1], [3i + 2] of the file
    as red, green and blue and alpha 255; the entries from 256 on,
    and the length of the array, are as before; the bytes of the file
    after the first 768 are not looked at. *)
Theorem Pal_Read_entries (E : env) (inpal : string) (g : globals)
    (contents : list Byte.byte) :
  fopen_rb E inpal = Some contents ->
  Z.of_nat PALSIZE <= ftell_end E inpal ->
  (PALSIZE <= length contents)%nat ->
  (256 <= length (g_palette g))%nat ->
  let palette := g_palette (fst (Pal_Read E inpal g)) in
  length palette = length (g_palette g)
  /\ (forall i : nat, (i < 256)%nat ->
        palette !!! i
        = mkRGBA (byte_val (contents !!! (3 * i)%nat))
                 (byte_val (contents !!! (3 * i + 1)%nat))
                 (byte_val (contents !!! (3 * i + 2)%nat)) 255)
  /\ (forall i : nat, (256 <= i)%nat -> palette !!! i = g_palette g !!! i)
  /\ (forall (E' : env) (contents' : list Byte.byte),
        fopen_rb E' inpal = Some contents' ->
        Z.of_nat PALSIZE <= ftell_end E' inpal ->
        take PALSIZE contents' = take PALSIZE contents ->
        g_palette (fst (Pal_Read E' inpal g)) = palette).
Proof.
  intros Hopen Hsize Hlen Hpal palette. subst palette.
  rewrite (Pal_Read_success E inpal g contents Hopen Hsize Hlen).
  cbn [fst g_palette].
  destruct (Pal_Read_loop_spec (take PALSIZE contents) PALSIZE 0 0
              (g_palette g)) as (Hl & Hin & Hout);
    [reflexivity | exact Hpal | unfold PALSIZE; lia |].
  split; [exact Hl | split; [| split]].
  - intros i Hi. rewrite Hin by lia.
    rewrite !lookup_total_take_lt by (unfold PALSIZE; lia).
    reflexivity.
  - intros i Hi. apply Hout. lia.
  - intros E' contents' Hopen' Hsize' Htake.
    assert (Hlen' : (PALSIZE <= length contents')%nat).
    { apply (f_equal length) in Htake.
      rewrite !length_take in Htake. lia. }
    rewrite (Pal_Read_success E' inpal g contents' Hopen' Hsize' Hlen').
    cbn [fst g_palette]. rewrite Htake. reflexivity.
Qed.

Lemma Pal_Read_entries_witness :
  let palette :=
    g_palette (fst (Pal_Read env_example "pal.dat" globals_init)) in
  length palette = length (g_palette globals_init)
  /\ forall i : nat, (i < 256)%nat ->
       palette !!! i
       = mkRGBA (byte_val (grey_ramp_file !!! (3 * i)%nat))
                (byte_val (grey_ramp_file !!! (3 * i + 1)%nat))
                (byte_val (grey_ramp_file !!! (3 * i + 2)%nat)) 255.
Proof.
  destruct (Pal_Read_entries env_example "pal.dat" globals_init
              grey_ramp_file) as (Hl & Hin & _).
  - reflexivity.
  - vm_compute. discriminate.
  - vm_compute. repeat constructor.
  - unfold globals_init, palette_init, PALSIZE. cbn [g_palette].
    rewrite length_replicate. lia.
  - split; [exact Hl | exact Hin].
Defined.

(** ** Nearest-colour lookup: colours of the palette *)

(** Below any bound, either no entry is at distance zero or there is a
    first one. *)
Lemma first_zero (d : nat -> Z) (n : nat) :
  (forall j : nat, (j < n)%nat -> d j <> 0)
  \/ exists z : nat, (z < n)%nat /\ d z = 0
       /\ forall j : nat, (j < z)%nat -> d j <> 0.
Proof.
  induction n as [| n [Hnone | (z & Hz & Hdz & Hfirst)]].
  - left. intros j Hj. lia.
  - destruct (Z.eq_dec (d n) 0) as [Hzero | Hnz].
    + right. exists n. split; [lia | split; [exact Hzero | exact Hnone]].
    + left. intros j Hj. destruct (decide (j = n)) as [-> | Hne];
        [exact Hnz | apply Hnone; lia].
  - right. exists z. split; [lia | split; [exact Hdz | exact Hfirst]].
Qed.

(** X3. When the colour looked up is the colour of some entry [i] of
    the first 256, the lookup returns the first index [k] whose entry
    has exactly that colour (so [k <= i], and entry [k] is an exact
    match). *)
Theorem nearest_exact_colour (palette : list RGBA_t) (r g b : Z) (i : nat) :
  (forall j : nat, (j < 256)%nat -> rgba_ok (palette !!! j)) ->
  (i < 256)%nat -> same_rgb (palette !!! i) r g b ->
  exists k : nat,
    NearestPaletteColor palette r g b = Z.of_nat k
    /\ (k <= i)%nat
    /\ same_rgb (palette !!! k) r g b
    /\ forall j : nat, (j < k)%nat -> ~ same_rgb (palette !!! j) r g b.
Proof.
  intros _ Hi Hsame.
  destruct (first_zero (fun j => distortion_to r g b (palette !!! j)) (S i))
    as [Hnone | (z & Hz & Hdz & Hfirst)].
  - exfalso. apply (Hnone i); [lia |]. apply distortion_zero. exact Hsame.
  - exists z. split; [| split; [lia | split]].
    + unfold NearestPaletteColor.
      apply NearestPaletteColor_loop_exit;
        [lia | exact Hdz | lia | lia |].
      intros j Hj. apply Hfirst. lia.
    + apply distortion_zero. exact Hdz.
    + intros j Hj Hs. apply (Hfirst j Hj). apply distortion_zero. exact Hs.
Qed.

Lemma nearest_exact_colour_witness :
  exists k : nat,
    NearestPaletteColor grey_ramp 7 7 7 = Z.of_nat k /\ (k <= 7)%nat.
Proof.
  destruct (nearest_exact_colour grey_ramp 7 7 7 7) as (k & Hk & Hle & _).
  - intros j Hj. apply palette_loaded_ok; [exact grey_ramp_loaded | exact Hj].
  - lia.
  - vm_compute. repeat split.
  - exists k. split; [exact Hk | exact Hle].
Defined.

(** X4. The lookup is idempotent: looking up the colour of the entry
    it returns gives the same index again. *)
Theorem nearest_idempotent (palette : list RGBA_t) (r g b : Z) :
  is_uchar r -> is_uchar g -> is_uchar b ->
  (forall j : nat, (j < 256)%nat -> rgba_ok (palette !!! j)) ->
  let k := Z.to_nat (NearestPaletteColor palette r g b) in
  NearestPaletteColor palette (s_red (palette !!! k))
                      (s_green (palette !!! k)) (s_blue (palette !!! k))
  = NearestPaletteColor palette r g b.
Proof.
  intros Hr Hg Hb Hpal. cbv zeta. unfold NearestPaletteColor.
  assert (Hsmall : forall j : nat, (j < 256)%nat ->
                     distortion_to r g b (palette !!! j) < 256 * 256 * 4).
  { intros j Hj.
    pose proof (distortion_bound r g b (palette !!! j) Hr Hg Hb (Hpal j Hj)).
    lia. }
  destruct (NearestPaletteColor_loop_min palette r g b Hsmall
              256 0 (256 * 256 * 4) 0)
    as (k & Hk & Hlt & _ & Hfirst);
    [reflexivity | lia | intros j Hj; lia | left; split; reflexivity |].
  rewrite Hk, Nat2Z.id.
  apply NearestPaletteColor_loop_exit.
  - exact Hlt.
  - apply distortion_zero. repeat split.
  - lia.
  - lia.
  - intros j Hj Hd. apply distortion_zero in Hd.
    destruct Hd as (Hred & Hgreen & Hblue).
    specialize (Hfirst j ltac:(lia)).
    unfold distortion_to in Hfirst.
    rewrite Hred, Hgreen, Hblue in Hfirst. lia.
Qed.

Lemma nearest_idempotent_witness :
  let k := Z.to_nat (NearestPaletteColor grey_ramp 10 12 14) in
  NearestPaletteColor grey_ramp (s_red (grey_ramp !!! k))
                      (s_green (grey_ramp !!! k)) (s_blue (grey_ramp !!! k))
  = NearestPaletteColor grey_ramp 10 12 14.
Proof.
  apply (nearest_idempotent grey_ramp 10 12 14).
  - unfold is_uchar. lia.
  - unfold is_uchar. lia.
  - unfold is_uchar. lia.
  - intros j Hj. apply palette_loaded_ok; [exact grey_ramp_loaded | exact Hj].
Defined.

(** ** Pixel compositing: more on the translucent style *)

(** The three outcomes of the translucent style on bytes. *)
Lemma ASTBlendPixel_translucent_cases
    (output background foreground : RGBA_t) (alpha : Z) :
  rgba_ok background -> rgba_ok foreground -> is_uchar alpha ->
  let e := alpha - (255 - s_alpha foreground) in
  ASTBlendPixel output background foreground AST_TRANSLUCENT alpha
  = if e <=? 0 then background
    else if s_alpha background =? 0 then set_alpha output 0
    else mkRGBA
           (Z.quot (s_red background * (255 - e)
                    + s_red foreground * e) 255)
           (Z.quot (s_green background * (255 - e)
                    + s_green foreground * e) 255)
           (Z.quot (s_blue background * (255 - e)
                    + s_blue foreground * e) 255)
           255.
Proof.
  intros (Hbr & Hbg & Hbb & Hba) (Hfr & Hfg & Hfb & Hfa) Ha.
  cbv zeta. unfold ASTBlendPixel.
  rewrite fullalpha_exact by assumption.
  set (e := alpha - (255 - s_alpha foreground)).
  assert (He : e <= 255) by (unfold e, is_uchar in *; lia).
  destruct (Z.leb_spec e 0); [reflexivity |].
  assert (Hcap : (if e >=? 255 then 255 else e) = e).
  { rewrite Z.geb_leb. destruct (Z.leb_spec 255 e); lia. }
  rewrite Hcap.
  rewrite (to_uchar_id e) by (unfold is_uchar; lia).
  rewrite (to_uchar_id (255 - e)) by (unfold is_uchar; lia).
  destruct (s_alpha background =? 0); [reflexivity |].
  rewrite !to_uchar_id by (apply blend_channel_range; assumption || lia).
  reflexivity.
Qed.

(** A weighted mean of two bytes lies between them. *)
Lemma blend_channel_between (bc fc e : Z) :
  is_uchar bc -> is_uchar fc -> 0 <= e <= 255 ->
  Z.min bc fc <= Z.quot (bc * (255 - e) + fc * e) 255 <= Z.max bc fc.
Proof.
  unfold is_uchar. intros Hb Hf He.
  assert (0 <= bc * (255 - e) + fc * e) by nia.
  rewrite Z.quot_div_nonneg by lia.
  assert (Hup : bc <= fc -> 0 <= e * (fc - bc))
    by (intros; apply Z.mul_nonneg_nonneg; lia).
  assert (Hup' : bc <= fc -> 0 <= (255 - e) * (fc - bc))
    by (intros; apply Z.mul_nonneg_nonneg; lia).
  assert (Hdown : fc <= bc -> 0 <= e * (bc - fc))
    by (intros; apply Z.mul_nonneg_nonneg; lia).
  assert (Hdown' : fc <= bc -> 0 <= (255 - e) * (bc - fc))
    by (intros; apply Z.mul_nonneg_nonneg; lia).
  split.
  - apply Z.div_le_lower_bound; [lia |].
    destruct (Z.le_ge_cases bc fc) as [Hle | Hle].
    + specialize (Hup Hle). rewrite Z.min_l by lia. lia.
    + specialize (Hdown' Hle). rewrite Z.min_r by lia. lia.
  - apply Z.div_le_upper_bound; [lia |].
    destruct (Z.le_ge_cases bc fc) as [Hle | Hle].
    + specialize (Hup' Hle). rewrite Z.max_r by lia. lia.
    + specialize (Hdown Hle). rewrite Z.max_l by lia. lia.
Qed.

(** X5. With style Translucent over a background of nonzero alpha,
    every colour channel of the result lies between the background's
    and the foreground's value of that channel, whatever the alpha
    byte. *)
Theorem translucent_between
    (output background foreground : RGBA_t) (alpha : Z) :
  rgba_ok background -> rgba_ok foreground -> is_uchar alpha ->
  s_alpha background <> 0 ->
  let result :=
    ASTBlendPixel output background foreground AST_TRANSLUCENT alpha in
  Z.min (s_red background) (s_red foreground) <= s_red result
    <= Z.max (s_red background) (s_red foreground)
  /\ Z.min (s_green background) (s_green foreground) <= s_green result
       <= Z.max (s_green background) (s_green foreground)
  /\ Z.min (s_blue background) (s_blue foreground) <= s_blue result
       <= Z.max (s_blue background) (s_blue foreground).
Proof.
  intros Hb Hf Ha Hnz. cbv zeta.
  rewrite (ASTBlendPixel_translucent_cases output background foreground
             alpha Hb Hf Ha).
  cbv zeta.
  destruct Hb as (Hbr & Hbg & Hbb & Hba), Hf as (Hfr & Hfg & Hfb & Hfa).
  destruct (Z.leb_spec (alpha - (255 - s_alpha foreground)) 0) as [Hle | Hgt].
  - lia.
  - destruct (Z.eqb_spec (s_alpha background) 0); [contradiction |].
    cbn [s_red s_green s_blue].
    assert (He : 0 <= alpha - (255 - s_alpha foreground) <= 255)
      by (unfold is_uchar in *; lia).
    split; [| split]; apply blend_channel_between; assumption.
Qed.

Lemma translucent_between_witness :
  let result :=
    ASTBlendPixel (mkRGBA 1 2 3 4) (mkRGBA 10 20 30 255)
                  (mkRGBA 200 100 5 255) AST_TRANSLUCENT 128 in
  10 <= s_red result <= 200 /\ 20 <= s_green result <= 100
  /\ 5 <= s_blue result <= 30.
Proof.
  apply (translucent_between (mkRGBA 1 2 3 4) (mkRGBA 10 20 30 255)
           (mkRGBA 200 100 5 255) 128).
  - unfold rgba_ok, is_uchar. simpl. lia.
  - unfold rgba_ok, is_uchar. simpl. lia.
  - unfold is_uchar. lia.
  - simpl. lia.
Defined.

(** X6. With style Translucent, alpha byte 255 and an opaque
    foreground over a background of nonzero alpha, the result is the
    foreground colour itself. *)
Theorem translucent_full_alpha
    (output background foreground : RGBA_t) :
  rgba_ok background -> rgba_ok foreground ->
  s_alpha background <> 0 -> s_alpha foreground = 255 ->
  ASTBlendPixel output background foreground AST_TRANSLUCENT 255
  = foreground.
Proof.
  intros Hb Hf Hnz Hopaque.
  rewrite (ASTBlendPixel_translucent_cases output background foreground
             255 Hb Hf) by (unfold is_uchar; lia).
  cbv zeta. rewrite Hopaque.
  change (255 - (255 - 255)) with 255. change (255 - 255) with 0.
  destruct (Z.eqb_spec (s_alpha background) 0); [contradiction |].
  cbn [Z.leb Z.compare].
  rewrite !Z.mul_0_r, !Z.add_0_l, !Z.quot_mul by lia.
  destruct foreground as [fr fg fb fa]. cbn in *. subst fa. reflexivity.
Qed.

Lemma translucent_full_alpha_witness :
  ASTBlendPixel (mkRGBA 1 2 3 4) (mkRGBA 10 20 30 255)
                (mkRGBA 200 100 5 255) AST_TRANSLUCENT 255
  = mkRGBA 200 100 5 255.
Proof.
  apply (translucent_full_alpha (mkRGBA 1 2 3 4) (mkRGBA 10 20 30 255)
           (mkRGBA 200 100 5 255)).
  - unfold rgba_ok, is_uchar. simpl. lia.
  - unfold rgba_ok, is_uchar. simpl. lia.
  - simpl. lia.
  - reflexivity.
Defined.

(** X7. With style Translucent an opaque colour composited with
    itself gives itself, for every alpha byte. *)
Theorem translucent_self (output colour : RGBA_t) (alpha : Z) :
  rgba_ok colour -> s_alpha colour = 255 -> is_uchar alpha ->
  ASTBlendPixel output colour colour AST_TRANSLUCENT alpha = colour.
Proof.
  intros Hc Hopaque Ha.
  rewrite (ASTBlendPixel_translucent_cases output colour colour alpha
             Hc Hc Ha).
  cbv zeta. rewrite Hopaque.
  destruct (Z.leb_spec (alpha - (255 - 255)) 0); [reflexivity |].
  cbn [Z.eqb].
  assert (Hmean : forall c : Z,
            Z.quot (c * (255 - (alpha - (255 - 255)))
                    + c * (alpha - (255 - 255))) 255 = c).
  { intros c.
    replace (c * (255 - (alpha - (255 - 255))) + c * (alpha - (255 - 255)))
      with (c * 255) by lia.
    apply Z.quot_mul. lia. }
  rewrite !Hmean.
  destruct colour as [cr cg cb ca]. cbn in *. subst ca. reflexivity.
Qed.

Lemma translucent_self_witness :
  ASTBlendPixel (mkRGBA 1 2 3 4) (mkRGBA 10 20 30 255)
                (mkRGBA 10 20 30 255) AST_TRANSLUCENT 77
  = mkRGBA 10 20 30 255.
Proof.
  apply (translucent_self (mkRGBA 1 2 3 4) (mkRGBA 10 20 30 255) 77).
  - unfold rgba_ok, is_uchar. simpl. lia.
  - reflexivity.
  - unfold is_uchar. lia.
Defined.

(** X8. The content of the uninitialised local [output] reaches the
    result in one case only: style Translucent, positive effective
    alpha, background of zero alpha.  There the result is that content
    with its alpha set to zero; in every other case two calls that
    differ in that content agree. *)
Theorem ASTBlendPixel_uninitialised
    (output output' background foreground : RGBA_t)
    (style : alphastyle_e) (alpha : Z) :
  rgba_ok background -> rgba_ok foreground -> is_uchar alpha ->
  let leak :=
    style = AST_TRANSLUCENT /\ s_alpha background = 0
    /\ 0 < alpha - (255 - s_alpha foreground) in
  (leak ->
   ASTBlendPixel output background foreground style alpha
   = set_alpha output 0)
  /\ (~ leak ->
      ASTBlendPixel output background foreground style alpha
      = ASTBlendPixel output' background foreground style alpha).
Proof.
  intros Hb Hf Ha. cbv zeta. split.
  - intros (-> & Hzero & Hpos).
    rewrite (ASTBlendPixel_translucent_cases output background foreground
               alpha Hb Hf Ha).
    cbv zeta. rewrite Hzero.
    destruct (Z.leb_spec (alpha - (255 - s_alpha foreground)) 0);
      [lia | reflexivity].
  - intros Hnoleak. destruct style; try reflexivity.
    rewrite !(ASTBlendPixel_translucent_cases _ background foreground
                alpha Hb Hf Ha).
    cbv zeta.
    destruct (Z.leb_spec (alpha - (255 - s_alpha foreground)) 0);
      [reflexivity |].
    destruct (Z.eqb_spec (s_alpha background) 0); [| reflexivity].
    exfalso. apply Hnoleak. repeat split; assumption || lia.
Qed.

Lemma ASTBlendPixel_uninitialised_witness :
  ASTBlendPixel (mkRGBA 1 2 3 4) (mkRGBA 10 20 30 0)
                (mkRGBA 200 100 5 255) AST_TRANSLUCENT 128
  = mkRGBA 1 2 3 0.
Proof.
  destruct (ASTBlendPixel_uninitialised (mkRGBA 1 2 3 4) (mkRGBA 9 9 9 9)
              (mkRGBA 10 20 30 0) (mkRGBA 200 100 5 255)
              AST_TRANSLUCENT 128) as [Hleak _].
  - unfold rgba_ok, is_uchar. simpl. lia.
  - unfold rgba_ok, is_uchar. simpl. lia.
  - unfold is_uchar. lia.
  - apply Hleak. split; [reflexivity | split; [reflexivity | simpl; lia]].
Defined.

(** ** Pixel compositing: more on the Modulate style *)

Lemma ASTBlendPixel_modulate
    (output background foreground : RGBA_t) (alpha : Z) :
  ASTBlendPixel output background foreground AST_MODULATE alpha
  = mkRGBA (modulate_channel (s_red background) (s_red foreground))
           (modulate_channel (s_green background) (s_green foreground))
           (modulate_channel (s_blue background) (s_blue foreground))
           255.
Proof. reflexivity. Qed.

(** The truncated quotient by 256 of a product of two bytes. *)
Lemma modulate_quot_bounds (bc fc : Z) :
  is_uchar bc -> is_uchar fc ->
  0 <= Z.quot (bc * fc) 256 <= Z.min bc fc
  /\ Z.quot (bc * fc) 256 <= 254.
Proof.
  unfold is_uchar. intros Hb Hf.
  assert (0 <= bc * fc) by nia.
  rewrite Z.quot_div_nonneg by lia.
  assert (Hlt : bc * fc / 256 <= 254).
  { assert (bc * fc <= 255 * 255) by nia.
    assert (bc * fc / 256 <= 255 * 255 / 256)
      by (apply Z.div_le_mono; lia).
    change (255 * 255 / 256) with 254 in *. lia. }
  split; [split |].
  - apply Z.div_pos; lia.
  - apply Z.min_glb.
    + apply Z.div_le_upper_bound; [lia | nia].
    + apply Z.div_le_upper_bound; [lia | nia].
  - exact Hlt.
Qed.

(** X9. Style Modulate is symmetric in its two colours: exchanging
    background and foreground gives the same result. *)
Theorem modulate_symmetric
    (output output' background foreground : RGBA_t) (alpha alpha' : Z) :
  rgba_ok background -> rgba_ok foreground ->
  ASTBlendPixel output background foreground AST_MODULATE alpha
  = ASTBlendPixel output' foreground background AST_MODULATE alpha'.
Proof.
  intros (Hbr & Hbg & Hbb & _) (Hfr & Hfg & Hfb & _).
  rewrite !ASTBlendPixel_modulate.
  rewrite !modulate_channel_exact by assumption.
  rewrite (Z.mul_comm (s_red foreground)), (Z.mul_comm (s_green foreground)),
    (Z.mul_comm (s_blue foreground)).
  reflexivity.
Qed.

Lemma modulate_symmetric_witness :
  ASTBlendPixel (mkRGBA 1 2 3 4) (mkRGBA 10 20 30 255)
                (mkRGBA 100 50 255 255) AST_MODULATE 26
  = ASTBlendPixel (mkRGBA 9 9 9 9) (mkRGBA 100 50 255 255)
                  (mkRGBA 10 20 30 255) AST_MODULATE 230.
Proof.
  apply (modulate_symmetric (mkRGBA 1 2 3 4) (mkRGBA 9 9 9 9)
           (mkRGBA 10 20 30 255) (mkRGBA 100 50 255 255) 26 230).
  - unfold rgba_ok, is_uchar. simpl. lia.
  - unfold rgba_ok, is_uchar. simpl. lia.
Defined.

(** X10. Style Modulate never brightens: every colour channel of the
    result is at most the smaller of the two input channels and at
    most 254; in each of the three channels a foreground value of 255
    lowers a nonzero background value by exactly one (and leaves zero
    at zero), because the factor is [foreground / 256]. *)
Theorem modulate_darkens
    (output background foreground : RGBA_t) (alpha : Z) :
  rgba_ok background -> rgba_ok foreground ->
  let result :=
    ASTBlendPixel output background foreground AST_MODULATE alpha in
  (0 <= s_red result <= Z.min (s_red background) (s_red foreground)
   /\ s_red result <= 254)
  /\ (0 <= s_green result
        <= Z.min (s_green background) (s_green foreground)
      /\ s_green result <= 254)
  /\ (0 <= s_blue result <= Z.min (s_blue background) (s_blue foreground)
      /\ s_blue result <= 254)
  /\ (s_red foreground = 255 ->
      s_red result = Z.max (s_red background - 1) 0)
  /\ (s_green foreground = 255 ->
      s_green result = Z.max (s_green background - 1) 0)
  /\ (s_blue foreground = 255 ->
      s_blue result = Z.max (s_blue background - 1) 0).
Proof.
  intros (Hbr & Hbg & Hbb & _) (Hfr & Hfg & Hfb & _). cbv zeta.
  rewrite ASTBlendPixel_modulate. cbn [s_red s_green s_blue].
  rewrite !modulate_channel_exact by assumption.
  pose proof (modulate_quot_bounds _ _ Hbr Hfr) as Hr.
  pose proof (modulate_quot_bounds _ _ Hbg Hfg) as Hg.
  pose proof (modulate_quot_bounds _ _ Hbb Hfb) as Hb.
  rewrite !clamp_id by (unfold is_uchar; lia).
  assert (Hwhite : forall bc : Z, is_uchar bc ->
            Z.quot (bc * 255) 256 = Z.max (bc - 1) 0).
  { intros bc Hbc. unfold is_uchar in Hbc.
    rewrite Z.quot_div_nonneg by lia.
    destruct (Z.eq_dec bc 0) as [-> | Hpos].
    - reflexivity.
    - rewrite Z.max_l by lia.
      symmetry. apply (Z.div_unique _ _ _ (256 - bc)); lia. }
  split; [exact Hr | split; [exact Hg | split; [exact Hb |]]].
  split; [| split]; intros ->; apply Hwhite; assumption.
Qed.

Lemma modulate_darkens_witness :
  let result :=
    ASTBlendPixel (mkRGBA 1 2 3 4) (mkRGBA 10 20 30 255)
                  (mkRGBA 255 50 255 255) AST_MODULATE 26 in
  s_red result = 9 /\ s_green result <= 20 /\ s_blue result = 29.
Proof.
  destruct (modulate_darkens (mkRGBA 1 2 3 4) (mkRGBA 10 20 30 255)
              (mkRGBA 255 50 255 255) 26)
    as (_ & Hgreen & _ & Hred & _ & Hblue).
  - unfold rgba_ok, is_uchar. simpl. lia.
  - unfold rgba_ok, is_uchar. simpl. lia.
  - split; [apply Hred; reflexivity | split].
    + destruct Hgreen as [[_ Hmin] _]. cbn [s_green] in Hmin. lia.
    + apply Hblue. reflexivity.
Defined.

(** ** Table generation: the tables of the translucent and Modulate
    styles *)

(** The alpha byte of a level, and its range. *)
Lemma blendamt_of_level (level : Z) :
  1 <= level <= 9 ->
  blendamt_of level = Z.quot (level * 256) 10
  /\ 25 <= blendamt_of level <= 230.
Proof.
  intros H.
  destruct (level_cases level H)
    as [-> | [-> | [-> | [-> | [-> | [-> | [-> | [-> | ->]]]]]]]];
    (split; [vm_compute; reflexivity | vm_compute; split; discriminate]).
Qed.

(** A cell of a buffer of 65536 bytes after [T_BlendTrans]. *)
Lemma T_BlendTrans_lookup
    (palette : list RGBA_t) (style : alphastyle_e)
    (indeterminate : nat -> nat -> RGBA_t) (level : Z) (working : list Z)
    (y x : nat) :
  length working = (256 * 256)%nat -> (y < 256)%nat -> (x < 256)%nat ->
  length (T_BlendTrans palette style indeterminate level working)
  = (256 * 256)%nat
  /\ T_BlendTrans palette style indeterminate level working
       !! (y * 256 + x)%nat
     = Some
         (let result :=
            ASTBlendPixel (indeterminate y x) (palette !!! y)
                          (palette !!! x) style (blendamt_of level) in
          NearestPaletteColor palette (s_red result) (s_green result)
                              (s_blue result)).
Proof.
  intros Hlen Hy Hx. unfold T_BlendTrans.
  destruct (T_BlendTrans_y_spec palette style indeterminate
              (blendamt_of level) 256 0 working) as (Hl & Hin & _);
    [lia | lia |].
  split; [lia |].
  rewrite list_lookup_lookup_total_lt by (rewrite Hl; nia).
  rewrite Hin by lia.
  unfold T_BlendTrans_cell. rewrite !uchar_index by assumption.
  reflexivity.
Qed.

(** X11. Over a loaded palette, with style Translucent and level [l]
    in [1, 9], the byte at offset [y * 256 + x] of the table is the
    nearest palette index of the colour whose channels are
    [(palette[y] * (255 - a) + palette[x] * a) / 255] with
    [a = (l * 256) / 10], both quotients truncated. *)
Theorem translucent_table_cell
    (palette : list RGBA_t) (indeterminate : nat -> nat -> RGBA_t)
    (level : Z) (working : list Z) (y x : nat) :
  palette_loaded palette -> 1 <= level <= 9 ->
  length working = (256 * 256)%nat -> (y < 256)%nat -> (x < 256)%nat ->
  let a := Z.quot (level * 256) 10 in
  let mix := fun bc fc : Z => Z.quot (bc * (255 - a) + fc * a) 255 in
  T_BlendTrans palette AST_TRANSLUCENT indeterminate level working
    !! (y * 256 + x)%nat
  = Some (NearestPaletteColor palette
            (mix (s_red (palette !!! y)) (s_red (palette !!! x)))
            (mix (s_green (palette !!! y)) (s_green (palette !!! x)))
            (mix (s_blue (palette !!! y)) (s_blue (palette !!! x)))).
Proof.
  intros [_ Hpal] Hlevel Hlen Hy Hx. cbv zeta.
  destruct (T_BlendTrans_lookup palette AST_TRANSLUCENT indeterminate level
              working y x Hlen Hy Hx) as [_ ->].
  cbv zeta.
  destruct (Hpal y Hy) as [Hby Hay], (Hpal x Hx) as [Hbx Hax].
  destruct (blendamt_of_level level Hlevel) as [Hamt Hrange].
  rewrite (ASTBlendPixel_translucent_cases _ _ _ _ Hby Hbx)
    by (unfold is_uchar; lia).
  cbv zeta. rewrite Hax, Hay.
  replace (blendamt_of level - (255 - 255)) with (blendamt_of level) by lia.
  destruct (Z.leb_spec (blendamt_of level) 0); [lia |].
  cbn [Z.eqb s_red s_green s_blue]. rewrite Hamt. reflexivity.
Qed.

Lemma translucent_table_cell_witness :
  T_BlendTrans grey_ramp AST_TRANSLUCENT (fun _ _ => mkRGBA 0 0 0 0) 5
               working_init !! (3 * 256 + 200)%nat
  = Some (NearestPaletteColor grey_ramp
            (Z.quot (s_red (grey_ramp !!! 3%nat) * (255 - 128)
                     + s_red (grey_ramp !!! 200%nat) * 128) 255)
            (Z.quot (s_green (grey_ramp !!! 3%nat) * (255 - 128)
                     + s_green (grey_ramp !!! 200%nat) * 128) 255)
            (Z.quot (s_blue (grey_ramp !!! 3%nat) * (255 - 128)
                     + s_blue (grey_ramp !!! 200%nat) * 128) 255)).
Proof.
  apply (translucent_table_cell grey_ramp (fun _ _ => mkRGBA 0 0 0 0) 5
           working_init 3 200).
  - exact grey_ramp_loaded.
  - lia.
  - apply length_replicate.
  - lia.
  - lia.
Defined.

(** X12. Over a loaded palette with no two entries of the same colour
    before index [y], the translucent table maps the pair [(y, y)] to
    [y]: blending an entry with itself gives the entry back, at every
    level. *)
Theorem translucent_table_diagonal
    (palette : list RGBA_t) (indeterminate : nat -> nat -> RGBA_t)
    (level : Z) (working : list Z) (y : nat) :
  palette_loaded palette -> 1 <= level <= 9 ->
  length working = (256 * 256)%nat -> (y < 256)%nat ->
  (forall j : nat, (j < y)%nat ->
     ~ same_rgb (palette !!! j) (s_red (palette !!! y))
                (s_green (palette !!! y)) (s_blue (palette !!! y))) ->
  T_BlendTrans palette AST_TRANSLUCENT indeterminate level working
    !! (y * 256 + y)%nat
  = Some (Z.of_nat y).
Proof.
  intros [_ Hpal] Hlevel Hlen Hy Hfirst.
  destruct (T_BlendTrans_lookup palette AST_TRANSLUCENT indeterminate level
              working y y Hlen Hy Hy) as [_ ->].
  cbv zeta. f_equal.
  destruct (Hpal y Hy) as [Hby Hay].
  destruct (blendamt_of_level level Hlevel) as [_ Hrange].
  rewrite (ASTBlendPixel_translucent_cases _ _ _ _ Hby Hby)
    by (unfold is_uchar; lia).
  cbv zeta. rewrite Hay.
  set (e := blendamt_of level - (255 - 255)).
  assert (Hmean : forall c : Z, Z.quot (c * (255 - e) + c * e) 255 = c).
  { intros c. replace (c * (255 - e) + c * e) with (c * 255) by lia.
    apply Z.quot_mul. lia. }
  destruct (e <=? 0).
  - unfold NearestPaletteColor.
    apply NearestPaletteColor_loop_exit; [exact Hy | | lia | lia |].
    + apply distortion_zero. repeat split.
    + intros j Hj Hd. apply distortion_zero in Hd.
      exact (Hfirst j ltac:(lia) Hd).
  - cbn [Z.eqb s_red s_green s_blue]. rewrite !Hmean.
    unfold NearestPaletteColor.
    apply NearestPaletteColor_loop_exit; [exact Hy | | lia | lia |].
    + apply distortion_zero. repeat split.
    + intros j Hj Hd. apply distortion_zero in Hd.
      exact (Hfirst j ltac:(lia) Hd).
Qed.

Lemma translucent_table_diagonal_witness :
  T_BlendTrans grey_ramp AST_TRANSLUCENT (fun _ _ => mkRGBA 0 0 0 0) 5
               working_init !! (1 * 256 + 1)%nat
  = Some (Z.of_nat 1).
Proof.
  apply (translucent_table_diagonal grey_ramp (fun _ _ => mkRGBA 0 0 0 0) 5
           working_init 1).
  - exact grey_ramp_loaded.
  - lia.
  - apply length_replicate.
  - lia.
  - intros j Hj. assert (Hj0 : j = 0%nat) by lia. subst j.
    vm_compute. intros (H & _). discriminate H.
Defined.

(** X13. With style Modulate the table does not depend on the level:
    the tables of any two levels are the same (whatever the palette,
    the former content of the buffer and the uninitialised memory). *)
Theorem modulate_table_level_independent
    (palette : list RGBA_t) (indeterminate indeterminate' : nat -> nat -> RGBA_t)
    (level level' : Z) (working working' : list Z) :
  length working = (256 * 256)%nat -> length working' = (256 * 256)%nat ->
  T_BlendTrans palette AST_MODULATE indeterminate level working
  = T_BlendTrans palette AST_MODULATE indeterminate' level' working'.
Proof.
  intros Hlen Hlen'.
  apply table_ext.
  - apply (T_BlendTrans_lookup palette AST_MODULATE indeterminate level
             working 0 0 Hlen); lia.
  - apply (T_BlendTrans_lookup palette AST_MODULATE indeterminate' level'
             working' 0 0 Hlen'); lia.
  - intros y x Hy Hx.
    destruct (T_BlendTrans_lookup palette AST_MODULATE indeterminate level
                working y x Hlen Hy Hx) as [_ H1].
    destruct (T_BlendTrans_lookup palette AST_MODULATE indeterminate' level'
                working' y x Hlen' Hy Hx) as [_ H2].
    apply list_lookup_total_correct in H1, H2.
    rewrite H1, H2. reflexivity.
Qed.

Lemma modulate_table_level_independent_witness :
  T_BlendTrans grey_ramp AST_MODULATE (fun _ _ => mkRGBA 0 0 0 0) 1
               working_init
  = T_BlendTrans grey_ramp AST_MODULATE (fun _ _ => mkRGBA 1 1 1 1) 9
                 working_init.
Proof.
  apply (modulate_table_level_independent grey_ramp).
  - apply length_replicate.
  - apply length_replicate.
Defined.

(** X14. Over a palette of bytes the Modulate table is symmetric: the
    bytes at [y * 256 + x] and at [x * 256 + y] are the same. *)
Theorem modulate_table_symmetric
    (palette : list RGBA_t) (indeterminate : nat -> nat -> RGBA_t)
    (level : Z) (working : list Z) (y x : nat) :
  (forall i : nat, (i < 256)%nat -> rgba_ok (palette !!! i)) ->
  length working = (256 * 256)%nat -> (y < 256)%nat -> (x < 256)%nat ->
  T_BlendTrans palette AST_MODULATE indeterminate level working
    !! (y * 256 + x)%nat
  = T_BlendTrans palette AST_MODULATE indeterminate level working
      !! (x * 256 + y)%nat.
Proof.
  intros Hpal Hlen Hy Hx.
  destruct (T_BlendTrans_lookup palette AST_MODULATE indeterminate level
              working y x Hlen Hy Hx) as [_ ->].
  destruct (T_BlendTrans_lookup palette AST_MODULATE indeterminate level
              working x y Hlen Hx Hy) as [_ ->].
  cbv zeta.
  destruct (Hpal y Hy) as (Hyr & Hyg & Hyb & _).
  destruct (Hpal x Hx) as (Hxr & Hxg & Hxb & _).
  rewrite !ASTBlendPixel_modulate. cbn [s_red s_green s_blue].
  rewrite !modulate_channel_exact by assumption.
  rewrite (Z.mul_comm (s_red (palette !!! x))),
    (Z.mul_comm (s_green (palette !!! x))),
    (Z.mul_comm (s_blue (palette !!! x))).
  reflexivity.
Qed.

Lemma modulate_table_symmetric_witness :
  T_BlendTrans grey_ramp AST_MODULATE (fun _ _ => mkRGBA 0 0 0 0) 5
               working_init !! (3 * 256 + 200)%nat
  = T_BlendTrans grey_ramp AST_MODULATE (fun _ _ => mkRGBA 0 0 0 0) 5
                 working_init !! (200 * 256 + 3)%nat.
Proof.
  apply (modulate_table_symmetric grey_ramp (fun _ _ => mkRGBA 0 0 0 0) 5
           working_init 3 200).
  - intros i Hi. apply palette_loaded_ok; [exact grey_ramp_loaded | exact Hi].
  - apply length_replicate.
  - lia.
  - lia.
Defined.

(** ** The driver: which levels, which files, what content *)

Lemma digit_char_eqb (j : nat) (c : ascii) :
  (j < 10)%nat ->
  Ascii.eqb (digit_char j) c = (nat_of_ascii c =? 48 + j)%nat.
Proof.
  intros Hj. unfold digit_char.
  destruct (Ascii.eqb_spec (ascii_of_nat (48 + j)) c) as [<- | Hne].
  - rewrite nat_ascii_embedding by lia. symmetry. apply Nat.eqb_refl.
  - symmetry. apply Nat.eqb_neq. intros Heq. apply Hne.
    rewrite <- Heq. apply ascii_nat_embedding.
Qed.

(** The loop over the characters of [outfiles], from any array of
    nine entries. *)
Lemma T_DoMain_canblend_from (outfiles : string) :
  forall canblend : list Z,
    length canblend = 9%nat ->
    (string_has "0" outfiles = true ->
     T_DoMain_canblend outfiles canblend = None)
    /\ (string_has "0" outfiles = false ->
        exists canblend' : list Z,
          T_DoMain_canblend outfiles canblend = Some canblend'
          /\ length canblend' = 9%nat
          /\ forall k : nat, (k < 9)%nat ->
               canblend' !!! k
               = if string_has (digit_char (S k)) outfiles then 1
                 else canblend !!! k).
Proof.
  induction outfiles as [| c rest IH]; intros canblend Hlen.
  - split; [discriminate |]. intros _. exists canblend.
    split; [reflexivity | split; [exact Hlen | reflexivity]].
  - cbn [T_DoMain_canblend string_has].
    change "0"%char with (digit_char 0).
    rewrite (digit_char_eqb 0 c) by lia.
    unfold isdigit. cbv zeta.
    set (n := nat_of_ascii c).
    destruct (Nat.leb_spec 48 n) as [Hlo | Hlo];
      [destruct (Nat.leb_spec n 57) as [Hhi | Hhi] |]; cbn [andb].
    + destruct (Nat.eqb_spec n (48 + 0)) as [Hzero | Hnz]; cbn [orb].
      * split; [| discriminate]. intros _.
        destruct (Z.leb_spec 0 (Z.of_nat n - 48 - 1)); [lia | reflexivity].
      * destruct (Z.leb_spec 0 (Z.of_nat n - 48 - 1)); [| lia].
        destruct (Z.ltb_spec (Z.of_nat n - 48 - 1) 9); [| lia].
        cbn [andb].
        destruct (IH (<[Z.to_nat (Z.of_nat n - 48 - 1) := 1]> canblend))
          as [Hnone Hsome]; [rewrite length_insert; exact Hlen |].
        split; [exact Hnone |].
        intros Hhas. destruct (Hsome Hhas) as (cb' & Hcb' & Hl' & Hk').
        exists cb'. split; [exact Hcb' | split; [exact Hl' |]].
        intros k Hk. rewrite (Hk' k Hk).
        rewrite (digit_char_eqb (S k) c) by lia. fold n.
        destruct (Nat.eqb_spec n (48 + S k)) as [Heq | Hne]; cbn [orb].
        -- replace (Z.to_nat (Z.of_nat n - 48 - 1)) with k by lia.
           rewrite list_lookup_total_insert_eq by lia.
           destruct (string_has (digit_char (S k)) rest); reflexivity.
        -- rewrite list_lookup_total_insert_ne by lia. reflexivity.
    + destruct (Nat.eqb_spec n (48 + 0)) as [Hzero | Hnz]; [lia |].
      cbn [orb]. destruct (IH canblend Hlen) as [Hnone Hsome].
      split; [exact Hnone |].
      intros Hhas. destruct (Hsome Hhas) as (cb' & Hcb' & Hl' & Hk').
      exists cb'. split; [exact Hcb' | split; [exact Hl' |]].
      intros k Hk. rewrite (Hk' k Hk).
      rewrite (digit_char_eqb (S k) c) by lia. fold n.
      destruct (Nat.eqb_spec n (48 + S k)) as [Heq | Hne]; [lia |].
      reflexivity.
    + destruct (Nat.eqb_spec n (48 + 0)) as [Hzero | Hnz]; [lia |].
      cbn [orb]. destruct (IH canblend Hlen) as [Hnone Hsome].
      split; [exact Hnone |].
      intros Hhas. destruct (Hsome Hhas) as (cb' & Hcb' & Hl' & Hk').
      exists cb'. split; [exact Hcb' | split; [exact Hl' |]].
      intros k Hk. rewrite (Hk' k Hk).
      rewrite (digit_char_eqb (S k) c) by lia. fold n.
      destruct (Nat.eqb_spec n (48 + S k)) as [Heq | Hne]; [lia |].
      reflexivity.
Qed.

(** X15. The marking of the levels: entry [k] of [canblend] is 1
    exactly when the digit [k + 1] occurs in [outfiles], whatever the
    order, the repetitions and the other characters; a digit [0]
    makes the loop store outside the array. *)
Theorem T_DoMain_canblend_spec (outfiles : string) :
  (string_has "0" outfiles = true ->
   T_DoMain_canblend outfiles (replicate 9 0) = None)
  /\ (string_has "0" outfiles = false ->
      exists canblend : list Z,
        T_DoMain_canblend outfiles (replicate 9 0) = Some canblend
        /\ length canblend = 9%nat
        /\ forall k : nat, (k < 9)%nat ->
             canblend !!! k
             = if string_has (digit_char (S k)) outfiles then 1 else 0).
Proof.
  destruct (T_DoMain_canblend_from outfiles (replicate 9 0) eq_refl)
    as [Hnone Hsome].
  split; [exact Hnone |].
  intros Hhas. destruct (Hsome Hhas) as (cb & Hcb & Hl & Hk).
  exists cb. split; [exact Hcb | split; [exact Hl |]].
  intros k Hk9. rewrite (Hk k Hk9).
  rewrite lookup_total_replicate_2 by exact Hk9. reflexivity.
Qed.

Lemma written_data_app (t1 t2 : list event) :
  written_data (t1 ++ t2) = (written_data t1 ++ written_data t2)%list.
Proof.
  induction t1 as [| e t1 IH]; [reflexivity |].
  destruct e; cbn [written_data app]; rewrite ?IH; reflexivity.
Qed.

(** The levels marked in an array that follows the digits of
    [outfiles]. *)
Lemma marked_levels_requested (outfiles : string) (canblend : list Z) :
  (forall k : nat, (k < 9)%nat ->
     canblend !!! k
     = if string_has (digit_char (S k)) outfiles then 1 else 0) ->
  marked_levels canblend 9 1 = requested_levels outfiles.
Proof.
  intros Hcb. unfold requested_levels.
  assert (Hgen : forall (n : nat) (i : Z),
            1 <= i -> i + Z.of_nat n <= 10 ->
            marked_levels canblend n i
            = List.filter
                (fun l => string_has (digit_char (Z.to_nat l)) outfiles)
                (levels_from n i)).
  { induction n as [| n IH]; intros i Hlo Hhi; [reflexivity |].
    cbn [marked_levels levels_from List.filter].
    rewrite (Hcb (Z.to_nat (i - 1))) by lia.
    replace (S (Z.to_nat (i - 1))) with (Z.to_nat i) by lia.
    rewrite IH by lia.
    destruct (string_has (digit_char (Z.to_nat i)) outfiles); reflexivity. }
  apply Hgen; lia.
Qed.

(** Over a loaded palette the table of a level is the same from every
    buffer of 65536 bytes and every content of the uninitialised
    memory. *)
Lemma T_BlendTrans_canonical
    (palette : list RGBA_t) (style : alphastyle_e)
    (indeterminate : nat -> nat -> RGBA_t) (level : Z) (working : list Z) :
  palette_loaded palette -> length working = (256 * 256)%nat ->
  T_BlendTrans palette style indeterminate level working
  = level_table palette style level.
Proof.
  intros [_ Hpal] Hlen. unfold level_table.
  assert (Hinit : length working_init = (256 * 256)%nat)
    by apply length_replicate.
  apply table_ext.
  - apply (T_BlendTrans_lookup palette style indeterminate level working
             0 0 Hlen); lia.
  - apply (T_BlendTrans_lookup palette style (fun _ _ => mkRGBA 0 0 0 0)
             level working_init 0 0 Hinit); lia.
  - intros y x Hy Hx.
    destruct (T_BlendTrans_lookup palette style indeterminate level
                working y x Hlen Hy Hx) as [_ H1].
    destruct (T_BlendTrans_lookup palette style (fun _ _ => mkRGBA 0 0 0 0)
                level working_init y x Hinit Hy Hx) as [_ H2].
    apply list_lookup_total_correct in H1, H2.
    rewrite H1, H2. cbv zeta.
    rewrite (ASTBlendPixel_output_irrelevant (indeterminate y x)
               (mkRGBA 0 0 0 0)); [reflexivity |].
    destruct (Hpal y Hy) as [_ ->]. lia.
Qed.

Lemma level_table_length (palette : list RGBA_t) (style : alphastyle_e)
    (level : Z) :
  length (level_table palette style level) = (256 * 256)%nat.
Proof.
  unfold level_table.
  apply (T_BlendTrans_lookup palette style (fun _ _ => mkRGBA 0 0 0 0)
           level working_init 0 0); [apply length_replicate | lia | lia].
Qed.

(** The blending loop when the block takes the file name, the prefix
    has no [%] and every file opens: the files and their content. *)
Lemma T_DoMain_loop_data (E : env) (size : nat) (prefix : string)
    (canblend : list Z) :
  (String.length prefix + 7 <= size)%nat ->
  string_has "%" prefix = false ->
  (forall filename : string, fopen_wb E filename = true) ->
  forall (n : nat) (i : Z) (g : globals),
    1 <= i -> i + Z.of_nat n <= 10 ->
    palette_loaded (g_palette g) ->
    length (g_working g) = (256 * 256)%nat ->
    let run := T_DoMain_loop E size prefix canblend n i g in
    snd run = Done tt
    /\ g_parms (fst run) = g_parms g
    /\ g_palette (fst run) = g_palette g
    /\ written_data (g_trace (fst run))
       = (written_data (g_trace g)
          ++ map (fun l => (lump_text prefix l,
                            level_table (g_palette g)
                                        (blendstyle (g_parms g)) l))
                 (marked_levels canblend n i))%list.
Proof.
  intros Hfit Hplain Hopen.
  induction n as [| n IH]; intros i g Hlo Hhi Hpal Hlen; cbv zeta.
  - cbn [T_DoMain_loop marked_levels map]. rewrite app_nil_r.
    repeat split.
  - cbn [marked_levels].
    destruct (canblend !!! Z.to_nat (i - 1) =? 0) eqn:Hmark.
    + cbn [T_DoMain_loop]. rewrite Hmark. apply IH; assumption || lia.
    + rewrite (T_DoMain_loop_step_ok E size prefix canblend Hfit Hplain
                 Hopen n i g Hmark) by lia.
      rewrite (T_BlendTrans_canonical (g_palette g) (blendstyle (g_parms g))
                 (env_indeterminate E i) i (g_working g) Hpal Hlen).
      match goal with
      | |- context [T_DoMain_loop E size prefix canblend n (i + 1) ?g1] =>
          destruct (IH (i + 1) g1) as (Hdone & Hparms & Hpalette & Hdata)
      end.
      * lia.
      * lia.
      * exact Hpal.
      * cbn [g_working]. exact (level_table_length _ _ _).
      * cbn [g_parms g_palette g_trace] in *.
        split; [exact Hdone | split; [exact Hparms |
                                      split; [exact Hpalette |]]].
        rewrite Hdata, !written_data_app. cbn [written_data map].
        rewrite app_nil_r, <- app_assoc. reflexivity.
Qed.

(** [T_DoMain] when all goes well. *)
Lemma T_DoMain_run_data (E : env) (g : globals) :
  let prefix := default defaultprefix (parm_outprefix (g_parms g)) in
  let outfiles := default defaultoutfiles (parm_outfiles (g_parms g)) in
  malloc_ok E = true ->
  (1 <= malloc_slack E (String.length prefix + 6))%nat ->
  string_has "%" prefix = false ->
  (forall filename : string, fopen_wb E filename = true) ->
  palette_loaded (g_palette g) ->
  length (g_working g) = (256 * 256)%nat ->
  string_has "0" outfiles = false ->
  snd (T_DoMain E g) = Done tt
  /\ written_data (g_trace (fst (T_DoMain E g)))
     = (written_data (g_trace g)
        ++ map (fun l => (lump_text prefix l,
                          level_table (g_palette g)
                                      (blendstyle (g_parms g)) l))
               (requested_levels outfiles))%list.
Proof.
  intros prefix outfiles Hmalloc Hslack Hplain Hopen Hpal Hlen Hzero.
  unfold T_DoMain.
  rewrite (T_OutputMessage_plain "Done!") by reflexivity.
  cbv [mbind M_bind bind get].
  rewrite Hmalloc. cbn [negb]. fold outfiles. fold prefix.
  destruct (T_DoMain_canblend_from outfiles (replicate 9 0) eq_refl)
    as [_ Hsome].
  destruct (Hsome Hzero) as (canblend & -> & _ & Hcb).
  assert (Hcb0 : forall k : nat, (k < 9)%nat ->
            canblend !!! k
            = if string_has (digit_char (S k)) outfiles then 1 else 0).
  { intros k Hk. rewrite (Hcb k Hk), lookup_total_replicate_2 by exact Hk.
    reflexivity. }
  set (size := (String.length prefix + 6
                + malloc_slack E (String.length prefix + 6))%nat).
  assert (Hfit : (String.length prefix + 7 <= size)%nat)
    by (subst size; lia).
  destruct (T_DoMain_loop_data E size prefix canblend Hfit Hplain Hopen
              9 1 g) as (Hdone & _ & _ & Hdata);
    [lia | lia | exact Hpal | exact Hlen |].
  rewrite (marked_levels_requested outfiles canblend Hcb0) in Hdata.
  destruct (T_DoMain_loop E size prefix canblend 9 1 g) as [g' r].
  cbn [fst snd] in *. subst r.
  cbv [emit]. cbn [fst snd g_trace].
  split; [reflexivity |].
  rewrite written_data_app, Hdata. apply app_nil_r.
Qed.

(** X16. When [malloc] succeeds and its block has at least one byte
    to spare after the [strlen(prefix) + 6] requested, the prefix has
    no [%], every output file opens, the palette is loaded and
    [outfiles] holds no digit [0], [T_DoMain] returns after writing
    one file for each level whose digit occurs in [outfiles], in
    ascending order of level; the file of level [l] is named
    [prefix l 0.lmp] and holds the 65536 bytes of the table of
    level [l]. *)
Theorem T_DoMain_writes_tables (E : env) (g : globals) :
  let prefix := default defaultprefix (parm_outprefix (g_parms g)) in
  let outfiles := default defaultoutfiles (parm_outfiles (g_parms g)) in
  malloc_ok E = true ->
  (1 <= malloc_slack E (String.length prefix + 6))%nat ->
  string_has "%" prefix = false ->
  (forall filename : string, fopen_wb E filename = true) ->
  palette_loaded (g_palette g) ->
  length (g_working g) = (256 * 256)%nat ->
  string_has "0" outfiles = false ->
  let run := T_DoMain E g in
  snd run = Done tt
  /\ written_data (g_trace (fst run))
     = (written_data (g_trace g)
        ++ map (fun l =>
                  ((prefix ++ String (digit_char (Z.to_nat l)) "0.lmp")%string,
                   level_table (g_palette g) (blendstyle (g_parms g)) l))
               (requested_levels outfiles))%list
  /\ (forall l : Z,
        length (level_table (g_palette g) (blendstyle (g_parms g)) l)
        = (256 * 256)%nat).
Proof.
  intros prefix outfiles Hmalloc Hslack Hplain Hopen Hpal Hlen Hzero.
  cbv zeta.
  destruct (T_DoMain_run_data E g Hmalloc Hslack Hplain Hopen Hpal Hlen
              Hzero) as [Hdone Hdata].
  split; [exact Hdone | split; [| intros l; apply level_table_length]].
  rewrite Hdata. f_equal. apply map_ext_in.
  intros l Hl. fold prefix. f_equal.
  apply lump_text_digit.
  unfold requested_levels in Hl. apply filter_In in Hl.
  destruct Hl as [Hl _]. cbn [levels_from] in Hl.
  cbn [In] in Hl. lia.
Qed.

Lemma T_DoMain_writes_tables_witness :
  snd (T_DoMain env_example globals_example) = Done tt
  /\ written_data (g_trace (fst (T_DoMain env_example globals_example)))
     = (written_data (g_trace globals_example)
        ++ map (fun l =>
                  ((default defaultprefix
                            (parm_outprefix (g_parms globals_example))
                    ++ String (digit_char (Z.to_nat l)) "0.lmp")%string,
                   level_table (g_palette globals_example)
                               (blendstyle (g_parms globals_example)) l))
               (requested_levels
                  (default defaultoutfiles
                           (parm_outfiles (g_parms globals_example)))))%list.
Proof.
  assert (Hmalloc : malloc_ok env_example = true) by reflexivity.
  assert (Hopen : forall filename : string,
            fopen_wb env_example filename = true)
    by (intros filename; reflexivity).
  assert (Hlen : length (g_working globals_example) = (256 * 256)%nat)
    by apply length_replicate.
  pose proof (T_DoMain_writes_tables env_example globals_example) as H.
  cbv zeta in H.
  destruct (H Hmalloc ltac:(vm_compute; lia) eq_refl Hopen grey_ramp_loaded
              Hlen eq_refl) as (Hdone & Hdata & _).
  split; [exact Hdone | exact Hdata].
Defined.

(** ** The names of the output files *)

Lemma string_append_inv_head (s s1 s2 : string) :
  (s ++ s1 = s ++ s2)%string -> s1 = s2.
Proof.
  induction s as [| c s IH]; [intros H; exact H |].
  cbn. intros H. injection H as H. apply IH. exact H.
Qed.

(** X17. The file name that [sprintf] builds for a level in [1, 9] is
    the prefix, the digit of the level and "0.lmp"; with the NUL that
    ends it, it takes [strlen(prefix) + 7] bytes.  The store stays
    within a block exactly when the block takes that many bytes: so
    never within the [strlen(prefix) + 6] bytes that [T_DoMain]
    requests, one byte short.  When it fits, two levels have the same
    name only if they are the same level. *)
Theorem lump_filename_spec (size : nat) (prefix : string) (i j : Z) :
  1 <= i <= 9 -> 1 <= j <= 9 ->
  ((String.length prefix + 7 <= size)%nat ->
   lump_filename size prefix i
   = Some (prefix ++ String (digit_char (Z.to_nat i)) "0.lmp")%string)
  /\ ((size < String.length prefix + 7)%nat ->
      lump_filename size prefix i = None)
  /\ lump_filename (String.length prefix + 6) prefix i = None
  /\ (forall name : string,
        lump_filename size prefix i = Some name ->
        lump_filename size prefix j = Some name -> i = j).
Proof.
  intros Hi Hj.
  rewrite (lump_filename_fits size prefix i Hi),
          (lump_filename_fits size prefix j Hj),
          (lump_filename_fits _ prefix i Hi).
  rewrite (lump_text_digit prefix i Hi), (lump_text_digit prefix j Hj).
  destruct (Nat.leb_spec (String.length prefix + 7) size) as [Hfit | Hnot].
  - split; [reflexivity | split; [lia | split]].
    + destruct (Nat.leb_spec (String.length prefix + 7)
                  (String.length prefix + 6)); [lia | reflexivity].
    + intros name Hni Hnj. rewrite <- Hnj in Hni. injection Hni as H.
      apply string_append_inv_head in H.
      injection H as H. unfold digit_char in H.
      apply (f_equal nat_of_ascii) in H.
      rewrite !nat_ascii_embedding in H by lia. lia.
  - split; [lia | split; [reflexivity | split]].
    + destruct (Nat.leb_spec (String.length prefix + 7)
                  (String.length prefix + 6)); [lia | reflexivity].
    + intros name H. discriminate H.
Qed.

Lemma lump_filename_spec_witness :
  lump_filename 24 "TRANS" 3 = Some "TRANS30.lmp"%string
  /\ lump_filename (String.length "TRANS" + 6) "TRANS" 3 = None.
Proof.
  destruct (lump_filename_spec 24 "TRANS" 3 7) as (Hname & _ & Hshort & _).
  - lia.
  - lia.
  - split; [apply Hname; vm_compute; lia | exact Hshort].
Defined.

(** In the loop, the first marked level stores past a block that is
    too small, or has its announcement printed with a directive in
    it: nothing has been done before. *)
Lemma T_DoMain_loop_undefined (E : env) (size : nat) (prefix : string)
    (canblend : list Z) :
  (forall l : Z, 1 <= l <= 9 ->
     match lump_filename size prefix l with
     | None => True
     | Some filename =>
         fprintf_no_args (VA_OUTPUT ("Writing " ++ filename ++ "...")) = None
     end) ->
  forall (n : nat) (i : Z) (g : globals),
    1 <= i -> i + Z.of_nat n <= 10 ->
    marked_levels canblend n i <> [] ->
    T_DoMain_loop E size prefix canblend n i g = (g, Undefined).
Proof.
  intros Hbad. induction n as [| n IH]; intros i g Hlo Hhi Hmarked.
  - exfalso. apply Hmarked. reflexivity.
  - cbn [marked_levels] in Hmarked.
    destruct (canblend !!! Z.to_nat (i - 1) =? 0) eqn:Hmark.
    + cbn [T_DoMain_loop]. rewrite Hmark. apply IH; [lia | lia | exact Hmarked].
    + rewrite (T_DoMain_loop_step E size prefix canblend n i g Hmark).
      specialize (Hbad i ltac:(lia)).
      destruct (lump_filename size prefix i) as [filename |];
        [| reflexivity].
      rewrite Hbad. reflexivity.
Qed.

(** [T_DoMain] is undefined, with nothing done, when a level is
    requested and the first file name cannot be built or announced. *)
Lemma T_DoMain_undefined (E : env) (g : globals) :
  let prefix := default defaultprefix (parm_outprefix (g_parms g)) in
  let outfiles := default defaultoutfiles (parm_outfiles (g_parms g)) in
  let size := (String.length prefix + 6
               + malloc_slack E (String.length prefix + 6))%nat in
  malloc_ok E = true ->
  string_has "0" outfiles = false ->
  requested_levels outfiles <> [] ->
  (forall l : Z, 1 <= l <= 9 ->
     match lump_filename size prefix l with
     | None => True
     | Some filename =>
         fprintf_no_args (VA_OUTPUT ("Writing " ++ filename ++ "...")) = None
     end) ->
  T_DoMain E g = (g, Undefined).
Proof.
  intros prefix outfiles size Hmalloc Hzero Hreq Hbad.
  unfold T_DoMain. cbv [mbind M_bind bind get].
  rewrite Hmalloc. cbn [negb]. fold outfiles. fold prefix. fold size.
  destruct (T_DoMain_canblend_from outfiles (replicate 9 0) eq_refl)
    as [_ Hsome].
  destruct (Hsome Hzero) as (canblend & -> & _ & Hcb).
  assert (Hcb0 : forall k : nat, (k < 9)%nat ->
            canblend !!! k
            = if string_has (digit_char (S k)) outfiles then 1 else 0).
  { intros k Hk. rewrite (Hcb k Hk), lookup_total_replicate_2 by exact Hk.
    reflexivity. }
  rewrite (T_DoMain_loop_undefined E size prefix canblend Hbad 9 1 g);
    [reflexivity | lia | lia |].
  rewrite (marked_levels_requested outfiles canblend Hcb0). exact Hreq.
Qed.

(** X29. The block of the file name is one byte short.  With an
    allocator that gives no byte to spare after the
    [strlen(prefix) + 6] requested, a run of [T_DoMain] in which
    [malloc] succeeds and at least one level is requested stores the
    NUL of the first file name past the block: undefined, before any
    line is printed or any file opened. *)
Theorem T_DoMain_filename_overflow (E : env) (g : globals) :
  let prefix := default defaultprefix (parm_outprefix (g_parms g)) in
  let outfiles := default defaultoutfiles (parm_outfiles (g_parms g)) in
  malloc_ok E = true ->
  malloc_slack E (String.length prefix + 6) = 0%nat ->
  string_has "0" outfiles = false ->
  requested_levels outfiles <> [] ->
  T_DoMain E g = (g, Undefined).
Proof.
  intros prefix outfiles Hmalloc Hslack Hzero Hreq.
  apply T_DoMain_undefined; [exact Hmalloc | exact Hzero | exact Hreq |].
  fold prefix. rewrite Hslack. intros l Hl.
  rewrite (lump_filename_fits _ prefix l Hl).
  destruct (Nat.leb_spec (String.length prefix + 7)
              (String.length prefix + 6 + 0)); [lia | exact I].
Qed.

Lemma T_DoMain_filename_overflow_witness :
  T_DoMain (mkEnv true (fun _ => 0%nat) (fun _ => Some grey_ramp_file)
                  (fun _ => 768) (fun _ => true)
                  (fun _ _ _ => mkRGBA 0 0 0 0))
           globals_example
  = (globals_example, Undefined).
Proof.
  apply (T_DoMain_filename_overflow
           (mkEnv true (fun _ => 0%nat) (fun _ => Some grey_ramp_file)
                  (fun _ => 768) (fun _ => true)
                  (fun _ _ _ => mkRGBA 0 0 0 0))
           globals_example).
  - reflexivity.
  - reflexivity.
  - reflexivity.
  - vm_compute. discriminate.
Defined.




(** ** The main function *)

(** When [malloc] fails [T_DoMain] reports it and exits. *)
Lemma T_DoMain_malloc_failure (E : env) (g : globals) :
  malloc_ok E = false ->
  T_DoMain E g
  = (mkGlobals (g_parms g) (g_palette g) (g_working g)
       (g_trace g ++ [Ev_stdout "ERROR: Not enough memory for filename"]),
     Exited EXIT_FAILURE).
Proof.
  intros H. unfold T_DoMain.
  rewrite T_OutputError_plain by reflexivity.
  cbv [mbind M_bind bind get]. rewrite H.
  reflexivity.
Qed.

(** [T_DoMain] exits with [EXIT_FAILURE] only, and only when
    [malloc] fails. *)
Lemma T_DoMain_exit (E : env) (g : globals) (status : Z) :
  snd (T_DoMain E g) = Exited status ->
  status = EXIT_FAILURE /\ malloc_ok E = false.
Proof.
  destruct (malloc_ok E) eqn:Hmalloc.
  - intros H. exfalso.
    destruct (T_DoMain_no_report E g Hmalloc) as [Hexit _].
    exact (Hexit status H).
  - rewrite (T_DoMain_malloc_failure E g Hmalloc). cbn [snd].
    intros H. injection H as <-. split; reflexivity.
Qed.

Lemma T_DoMain_done (E : env) (g : globals) :
  snd (T_DoMain E g) = Done tt -> malloc_ok E = true.
Proof.
  destruct (malloc_ok E) eqn:Hmalloc; [reflexivity |].
  rewrite (T_DoMain_malloc_failure E g Hmalloc). discriminate.
Qed.

(** How [Pal_Read] ends. *)
Lemma Pal_Read_status (E : env) (inpal : string) (g : globals) :
  (snd (Pal_Read E inpal g) = Done tt ->
   exists contents : list Byte.byte,
     fopen_rb E inpal = Some contents /\ (PALSIZE <= length contents)%nat)
  /\ (snd (Pal_Read E inpal g) <> Done tt ->
      snd (Pal_Read E inpal g) = Exited EXIT_FAILURE).
Proof.
  unfold Pal_Read.
  rewrite !T_OutputError_plain by reflexivity.
  destruct (fopen_rb E inpal) as [contents |].
  - destruct (ftell_end E inpal <? Z.of_nat PALSIZE).
    + split; [discriminate | reflexivity].
    + destruct (Nat.leb_spec PALSIZE (length contents)) as [Hle | Hgt];
        cbn [negb].
      * split.
        -- intros _. exists contents. split; [reflexivity | exact Hle].
        -- rewrite T_OutputMessage_plain by reflexivity.
           intros H. exfalso. apply H. reflexivity.
      * split; [discriminate | reflexivity].
  - split; [discriminate | reflexivity].
Qed.

(** X18. The exit status of the program.  [main] calls [exit] with
    [EXIT_FAILURE] only; it does so, without having written any file,
    when there are fewer than two arguments or no palette option took
    effect; and when it returns it returns 0, after a run in which
    the palette file named on the command line opened with at least
    768 bytes and [malloc] succeeded. *)
Theorem main_exit_status (E : env) (argv : list string) (g : globals) :
  let run := main E argv g in
  let parsed := Parm_Parse argv (g_parms g) in
  (forall status : Z, snd run = Exited status -> status = EXIT_FAILURE)
  /\ ((length argv < 2)%nat \/ parm_palettefile parsed = None ->
      snd run = Exited EXIT_FAILURE
      /\ written_files (g_trace (fst run)) = written_files (g_trace g))
  /\ (forall a : Z, snd run = Done a ->
      a = 0 /\ (2 <= length argv)%nat /\ malloc_ok E = true
      /\ exists (inpal : string) (contents : list Byte.byte),
           parm_palettefile parsed = Some inpal
           /\ fopen_rb E inpal = Some contents
           /\ (PALSIZE <= length contents)%nat).
Proof.
  cbv zeta. unfold main.
  destruct (Nat.ltb_spec (length argv) 2) as [Hshort | Hlong].
  - cbv [mbind M_bind bind T_PrintCopyrightText T_PrintParmInfo emit exit].
    cbn [fst snd g_trace].
    split; [| split].
    + intros status H. injection H as <-. reflexivity.
    + intros _. split; [reflexivity |].
      rewrite !written_files_app. cbn [written_files].
      rewrite !app_nil_r. reflexivity.
    + intros a H. discriminate H.
  - cbv [mbind M_bind bind T_PrintCopyrightText emit get set_parms].
    cbn [fst snd g_parms g_palette g_working g_trace].
    destruct (parm_palettefile (Parm_Parse argv (g_parms g)))
      as [inpal |] eqn:Hpalette.
    + set (g1 := mkGlobals (Parm_Parse argv (g_parms g)) (g_palette g)
                   (g_working g) (g_trace g ++ [Ev_copyright false false])).
      destruct (Pal_Read_status E inpal g1) as (Hiff & Hfail).
      destruct (Pal_Read E inpal g1) as [g2 r2].
      cbn [fst snd] in Hiff, Hfail.
      destruct r2 as [[] | status2 |].
      * destruct (Hiff eq_refl) as (contents & Hopen & Hlen).
        pose proof (T_DoMain_exit E g2) as Hexit.
        pose proof (T_DoMain_done E g2) as Hdone.
        destruct (T_DoMain E g2) as [g3 [[] | status3 |]];
          cbn [fst snd] in *.
        -- split; [intros status H; discriminate H | split].
           ++ intros [Hlt | Hnone]; [lia | discriminate Hnone].
           ++ intros a H. injection H as <-.
              split; [reflexivity | split; [exact Hlong | split]].
              ** exact (Hdone eq_refl).
              ** exists inpal, contents.
                 split; [reflexivity | split; [exact Hopen | exact Hlen]].
        -- split; [| split].
           ++ intros status H. injection H as <-.
              apply (Hexit status3 eq_refl).
           ++ intros [Hlt | Hnone]; [lia | discriminate Hnone].
           ++ intros a H. discriminate H.
        -- split; [intros status H; discriminate H | split].
           ++ intros [Hlt | Hnone]; [lia | discriminate Hnone].
           ++ intros a H. discriminate H.
      * assert (Hst : Exited status2 = Exited EXIT_FAILURE)
          by (apply Hfail; discriminate).
        injection Hst as ->.
        split; [| split].
        -- intros status H. injection H as <-. reflexivity.
        -- intros [Hlt | Hnone]; [lia | discriminate Hnone].
        -- intros a H. discriminate H.
      * assert (Hst : @Undefined unit = Exited EXIT_FAILURE)
          by (apply Hfail; discriminate).
        discriminate Hst.
    + rewrite T_OutputError_plain by reflexivity.
      cbv [emit exit]. cbn [fst snd g_trace].
      split; [| split].
      * intros status H. injection H as <-. reflexivity.
      * intros _. split; [reflexivity |].
        rewrite !written_files_app. cbn [written_files].
        rewrite !app_nil_r. reflexivity.
      * intros a H. discriminate H.
Qed.

(** ** Command line: what is ignored *)

(** An option whose effect on the globals is nil can be left out with
    its argument. *)
Lemma Parm_Parse_skip_pair
    (argv : list string) (p0 : parms) (i : nat) (p : parms)
    (parmstring name arg : string) :
  Parm_Parse_at argv p0 i p ->
  argv !! i = Some parmstring ->
  option_name parmstring = Some name ->
  argv !! (i + 1)%nat = Some arg ->
  Parm_ParseParameter_set [arg] name 0 p = p ->
  Parm_Parse argv p0
  = Parm_Parse (take i argv ++ drop (i + 2) argv)%list p0.
Proof.
  intros Hat Ha Hname Harg Hset.
  assert (Hi : (i + 1 < length argv)%nat)
    by (eapply lookup_lt_Some; exact Harg).
  rewrite <- (Parm_Parse_at_final argv p0 i p Hat).
  rewrite (drop_S _ _ _ Ha). cbn [parse_rest]. rewrite Hname.
  replace (S i) with (i + 1)%nat by lia.
  rewrite (drop_S _ _ _ Harg), Hset.
  replace (S (i + 1)) with (i + 2)%nat by lia.
  assert (Hlen : length (take i argv) = i) by (apply length_take_le; lia).
  assert (Hat' : Parm_Parse_at (take i argv ++ drop (i + 2) argv)%list
                               p0 i p).
  { apply (Parm_Parse_at_prefix argv); [exact Hat | lia | |].
    - rewrite length_app, Hlen. lia.
    - rewrite take_app_length' by (symmetry; exact Hlen). reflexivity. }
  rewrite <- (Parm_Parse_at_final _ p0 i p Hat').
  rewrite drop_app_length' by (symmetry; exact Hlen). reflexivity.
Qed.

(** X19. The last argument of the command line, when the parser comes
    to it as an option, has no argument of its own and changes
    nothing: the parse ends with the globals it had there. *)
Theorem Parm_Parse_last_argument
    (argv : list string) (p0 : parms) (i : nat) (p : parms) :
  Parm_Parse_at argv p0 i p -> (length argv <= i + 1)%nat ->
  Parm_Parse argv p0 = p.
Proof.
  intros Hat Hlast.
  rewrite <- (Parm_Parse_at_final argv p0 i p Hat).
  destruct (argv !! i) as [a |] eqn:Ha.
  - rewrite (drop_S _ _ _ Ha), (drop_ge argv (S i)) by lia.
    cbn [parse_rest]. destruct (option_name a); reflexivity.
  - apply lookup_ge_None in Ha. rewrite drop_ge by lia. reflexivity.
Qed.

Lemma Parm_Parse_last_argument_witness :
  Parm_Parse ["transmake"; "-outprefix"; "T"; "-palette"]%string parms_init
  = mkParms None (Some "T"%string) None AST_TRANSLUCENT.
Proof.
  apply (Parm_Parse_last_argument _ parms_init 3).
  - exact (Parm_Parse_at_option
             ["transmake"; "-outprefix"; "T"; "-palette"]%string
             parms_init 1 parms_init "-outprefix" "outprefix"
             (Parm_Parse_at_start _ parms_init) eq_refl eq_refl).
  - simpl. lia.
Defined.

(** X20. An option whose name is none of [palette], [outfiles],
    [outprefix], [blendstyle] is ignored together with the argument
    after it, which is not read as an option even when it starts
    with a dash: the parse gives what it gives without the two. *)
Theorem unknown_option_is_skipped
    (argv : list string) (p0 : parms) (i : nat) (p : parms)
    (parmstring name arg : string) :
  Parm_Parse_at argv p0 i p ->
  argv !! i = Some parmstring ->
  option_name parmstring = Some name ->
  argv !! (i + 1)%nat = Some arg ->
  stricmp name "palette" <> 0 -> stricmp name "outfiles" <> 0 ->
  stricmp name "outprefix" <> 0 -> stricmp name "blendstyle" <> 0 ->
  Parm_Parse argv p0
  = Parm_Parse (take i argv ++ drop (i + 2) argv)%list p0.
Proof.
  intros Hat Ha Hname Harg H1 H2 H3 H4.
  apply (Parm_Parse_skip_pair argv p0 i p parmstring name arg);
    try assumption.
  unfold Parm_ParseParameter_set.
  destruct (Z.eqb_spec (stricmp name "palette") 0); [contradiction |].
  destruct (Z.eqb_spec (stricmp name "outfiles") 0); [contradiction |].
  destruct (Z.eqb_spec (stricmp name "outprefix") 0); [contradiction |].
  destruct (Z.eqb_spec (stricmp name "blendstyle") 0); [contradiction |].
  reflexivity.
Qed.

Lemma unknown_option_is_skipped_witness :
  Parm_Parse ["transmake"; "-verbose"; "-palette"; "pal.dat"]%string
             parms_init
  = Parm_Parse ["transmake"; "pal.dat"]%string parms_init.
Proof.
  apply (unknown_option_is_skipped
           ["transmake"; "-verbose"; "-palette"; "pal.dat"]%string
           parms_init 1 parms_init "-verbose" "verbose" "-palette").
  - constructor.
  - reflexivity.
  - reflexivity.
  - reflexivity.
  - discriminate.
  - discriminate.
  - discriminate.
  - discriminate.
Defined.

Lemma stricmp_blendstyle_only (name : string) :
  stricmp name "blendstyle" = 0 ->
  stricmp name "palette" <> 0 /\ stricmp name "outfiles" <> 0
  /\ stricmp name "outprefix" <> 0.
Proof.
  destruct name as [| c1 r1]; [discriminate |].
  cbn [stricmp].
  generalize (Z.of_nat (nat_of_ascii (tolower c1))). intros x.
  change (Z.of_nat (nat_of_ascii (tolower "b"))) with 98.
  change (Z.of_nat (nat_of_ascii (tolower "o"))) with 111.
  change (Z.of_nat (nat_of_ascii (tolower "p"))) with 112.
  cbv zeta.
  destruct (Z.eqb_spec (x - 98) 0); [| intros; lia].
  destruct (Z.eqb_spec (x - 111) 0); [lia |].
  destruct (Z.eqb_spec (x - 112) 0); [lia |].
  intros _. repeat split; lia.
Qed.

(** X21. A [blendstyle] option whose argument is none of the five
    style names (compared without regard to case) is ignored: the
    style stays what it was, and the parse gives what it gives
    without the option and its argument. *)
Theorem unknown_blendstyle_is_ignored
    (argv : list string) (p0 : parms) (i : nat) (p : parms)
    (parmstring name stylestring : string) :
  Parm_Parse_at argv p0 i p ->
  argv !! i = Some parmstring ->
  option_name parmstring = Some name ->
  stricmp name "blendstyle" = 0 ->
  argv !! (i + 1)%nat = Some stylestring ->
  stricmp stylestring "translucent" <> 0 ->
  stricmp stylestring "add" <> 0 ->
  stricmp stylestring "subtract" <> 0 ->
  stricmp stylestring "reversesubtract" <> 0 ->
  stricmp stylestring "modulate" <> 0 ->
  Parm_ParseParameter argv name (i + 1) p = (p, (i + 2)%nat)
  /\ Parm_Parse argv p0
     = Parm_Parse (take i argv ++ drop (i + 2) argv)%list p0.
Proof.
  intros Hat Ha Hname Hblend Harg H1 H2 H3 H4 H5.
  destruct (stricmp_blendstyle_only name Hblend) as (Hn1 & Hn2 & Hn3).
  assert (Hset : Parm_ParseParameter_set [stylestring] name 0 p = p).
  { unfold Parm_ParseParameter_set.
    destruct (Z.eqb_spec (stricmp name "palette") 0); [contradiction |].
    destruct (Z.eqb_spec (stricmp name "outfiles") 0); [contradiction |].
    destruct (Z.eqb_spec (stricmp name "outprefix") 0); [contradiction |].
    rewrite Hblend. cbn [Z.eqb].
    change ([stylestring] !!! 0%nat) with stylestring.
    destruct (Z.eqb_spec (stricmp stylestring "translucent") 0);
      [contradiction |].
    destruct (Z.eqb_spec (stricmp stylestring "add") 0); [contradiction |].
    destruct (Z.eqb_spec (stricmp stylestring "subtract") 0);
      [contradiction |].
    destruct (Z.eqb_spec (stricmp stylestring "reversesubtract") 0);
      [contradiction |].
    destruct (Z.eqb_spec (stricmp stylestring "modulate") 0);
      [contradiction |].
    reflexivity. }
  split.
  - assert (Hi : (i + 1 < length argv)%nat)
      by (eapply lookup_lt_Some; exact Harg).
    unfold Parm_ParseParameter, parm_argc.
    destruct (Nat.leb_spec (length argv) (i + 1)); [lia |].
    rewrite (Parm_ParseParameter_set_arg _ _ _ _ _ Harg), Hset.
    f_equal. lia.
  - apply (Parm_Parse_skip_pair argv p0 i p parmstring name stylestring);
      assumption.
Qed.

Lemma unknown_blendstyle_is_ignored_witness :
  Parm_Parse ["transmake"; "-blendstyle"; "multiply"; "-palette"; "pal.dat"]%string
             parms_init
  = Parm_Parse ["transmake"; "-palette"; "pal.dat"]%string parms_init.
Proof.
  destruct (unknown_blendstyle_is_ignored
              ["transmake"; "-blendstyle"; "multiply"; "-palette";
               "pal.dat"]%string
              parms_init 1 parms_init "-blendstyle" "blendstyle" "multiply")
    as [_ H].
  - constructor.
  - reflexivity.
  - reflexivity.
  - reflexivity.
  - reflexivity.
  - discriminate.
  - discriminate.
  - discriminate.
  - discriminate.
  - discriminate.
  - exact H.
Defined.

(** ** The binary32 computations of the styles Add, Subtract and
    ReverseSubtract are exact *)



Lemma pdigits_bounds (q : positive) :
  1 <= pdigits q /\ 2 ^ (pdigits q - 1) <= Zpos q < 2 ^ pdigits q.
Proof.
  unfold pdigits. induction q as [q IH | q IH |]; cbn [digits2_pos].
  - rewrite Pos2Z.inj_succ. destruct IH as [H1 [H2 H3]].
    replace (Z.succ (Zpos (digits2_pos q)) - 1) with (Z.succ (Zpos (digits2_pos q) - 1)) by lia.
    rewrite !Z.pow_succ_r by lia. lia.
  - rewrite Pos2Z.inj_succ. destruct IH as [H1 [H2 H3]].
    replace (Z.succ (Zpos (digits2_pos q)) - 1) with (Z.succ (Zpos (digits2_pos q) - 1)) by lia.
    rewrite !Z.pow_succ_r by lia. lia.
  - cbn. lia.
Qed.

Lemma pdigits_unique (q : positive) (k : Z) :
  2 ^ (k - 1) <= Zpos q < 2 ^ k -> pdigits q = k.
Proof.
  intros [Hlo Hhi].
  destruct (pdigits_bounds q) as [H1 [H2 H3]].
  assert (Hk : 0 <= k).
  { destruct (Z.lt_ge_cases k 0) as [Hneg | Hok]; [| exact Hok].
    rewrite (Z.pow_neg_r 2 k) in Hhi by lia. lia. }
  destruct (Z.lt_trichotomy (pdigits q) k) as [Hlt | [Heq | Hgt]].
  - assert (2 ^ pdigits q <= 2 ^ (k - 1)) by (apply Z.pow_le_mono_r; lia). lia.
  - exact Heq.
  - assert (2 ^ k <= 2 ^ (pdigits q - 1)) by (apply Z.pow_le_mono_r; lia). lia.
Qed.

Lemma pdigits_shift (q : positive) (t : Z) :
  0 <= t -> pdigits (Z.to_pos (Zpos q * 2 ^ t)) = pdigits q + t.
Proof.
  intros Ht. destruct (pdigits_bounds q) as [H1 [H2 H3]].
  assert (Hp : 0 < 2 ^ t) by (apply Z.pow_pos_nonneg; lia).
  apply pdigits_unique. rewrite Z2Pos.id by lia.
  replace (pdigits q + t - 1) with ((pdigits q - 1) + t) by lia.
  rewrite !Z.pow_add_r by lia. split; nia.
Qed.

Lemma pos_iter_xO (m k : positive) :
  Zpos (Pos.iter xO m k) = Zpos m * 2 ^ Zpos k.
Proof.
  induction k as [| k IH] using Pos.peano_ind.
  - cbn. lia.
  - rewrite Pos.iter_succ, Pos2Z.inj_xO, IH, Pos2Z.inj_succ, Z.pow_succ_r by lia. lia.
Qed.

Lemma shr_1_even (m : Z) :
  0 < m ->
  shr_1 (Build_shr_record (2 * m) false false) = Build_shr_record m false false.
Proof. intros H. destruct m as [| p | p]; try lia. reflexivity. Qed.

Lemma shr_iter_exact (q : positive) :
  forall (n : positive) (t : Z),
    Zpos n <= t ->
    SpecFloat.iter_pos shr_1 n (Build_shr_record (Zpos q * 2 ^ t) false false)
    = Build_shr_record (Zpos q * 2 ^ (t - Zpos n)) false false.
Proof.
  assert (Hone : forall t, 1 <= t ->
            shr_1 (Build_shr_record (Zpos q * 2 ^ t) false false)
            = Build_shr_record (Zpos q * 2 ^ (t - 1)) false false).
  { intros t Ht. replace t with (Z.succ (t - 1)) at 1 by lia.
    rewrite Z.pow_succ_r by lia.
    replace (Zpos q * (2 * 2 ^ (t - 1))) with (2 * (Zpos q * 2 ^ (t - 1))) by lia.
    apply shr_1_even.
    assert (0 < 2 ^ (t - 1)) by (apply Z.pow_pos_nonneg; lia). nia. }
  induction n as [n IH | n IH |]; intros t Ht; cbn [SpecFloat.iter_pos].
  - rewrite Hone by lia. rewrite IH by lia. rewrite IH by lia.
    f_equal. f_equal. f_equal. lia.
  - rewrite IH by lia. rewrite IH by lia. f_equal. f_equal. f_equal. lia.
  - apply Hone. lia.
Qed.

Lemma f32_fexp (e : Z) : fexp f32_prec f32_emax e = Z.max (e - 24) (-149).
Proof. reflexivity. Qed.

Lemma shr_exact (q : positive) (t e n : Z) :
  0 <= n <= t ->
  shr (Build_shr_record (Zpos q * 2 ^ t) false false) e n
  = (Build_shr_record (Zpos q * 2 ^ (t - n)) false false, e + n).
Proof.
  intros Hn. destruct n as [| k | k]; cbn [shr].
  - rewrite Z.sub_0_r, Z.add_0_r. reflexivity.
  - rewrite shr_iter_exact by lia. reflexivity.
  - lia.
Qed.

Lemma pos_pow_pos (q : positive) (t : Z) :
  0 <= t -> exists p : positive, Zpos q * 2 ^ t = Zpos p.
Proof.
  intros Ht. assert (0 < 2 ^ t) by (apply Z.pow_pos_nonneg; lia).
  destruct (Zpos q * 2 ^ t) as [| p | p] eqn:H'; try lia.
  exists p. reflexivity.
Qed.

Lemma f32_round_aux_exact (s : bool) (q : positive) (t e : Z) :
  0 <= t -> pdigits q <= 24 -> 24 <= pdigits q + t ->
  -149 <= e + pdigits q + t - 24 <= 104 ->
  binary_round_aux f32_prec f32_emax s (Zpos q * 2 ^ t) e loc_Exact
  = f32_canon s q (e + t).
Proof.
  intros Ht Hq HD Hrange.
  unfold binary_round_aux, shr_fexp. rewrite !f32_fexp.
  destruct (pos_pow_pos q t Ht) as [p Hp].
  assert (Hdp : Zdigits2 (Zpos q * 2 ^ t) = pdigits q + t).
  { rewrite Hp. cbn [Zdigits2]. fold (pdigits p).
    rewrite <- (pdigits_shift q t Ht), Hp. reflexivity. }
  rewrite Hdp. cbn [shr_record_of_loc].
  replace (Z.max (pdigits q + t + e - 24) (-149) - e)
    with (pdigits q + t - 24) by lia.
  rewrite shr_exact by lia.
  cbn [shr_m loc_of_shr_record round_nearest_even].
  replace (t - (pdigits q + t - 24)) with (24 - pdigits q) by lia.
  destruct (pos_pow_pos q (24 - pdigits q)) as [p' Hp']; [lia |].
  assert (Hdp' : Zdigits2 (Zpos q * 2 ^ (24 - pdigits q)) = 24).
  { rewrite Hp'. cbn [Zdigits2]. fold (pdigits p').
    replace p' with (Z.to_pos (Zpos q * 2 ^ (24 - pdigits q)))
      by (rewrite Hp'; reflexivity).
    rewrite pdigits_shift by lia. lia. }
  rewrite Hdp', f32_fexp.
  replace (Z.max (24 + (e + (pdigits q + t - 24)) - 24) (-149)
           - (e + (pdigits q + t - 24))) with 0 by lia.
  cbn [shr shr_m]. rewrite Hp'.
  replace (f32_emax - f32_prec) with 104 by reflexivity.
  destruct (Z.leb_spec (e + (pdigits q + t - 24)) 104); [| lia].
  unfold f32_canon. rewrite Hp'. cbn [Z.to_pos].
  f_equal. lia.
Qed.

Lemma pdigits_small (q : positive) :
  Zpos q < 2 ^ 24 -> pdigits q <= 24.
Proof.
  intros H. destruct (pdigits_bounds q) as [H1 [H2 H3]].
  destruct (Z.le_gt_cases (pdigits q) 24) as [Hle | Hgt]; [exact Hle |].
  assert (2 ^ 24 <= 2 ^ (pdigits q - 1)) by (apply Z.pow_le_mono_r; lia).
  lia.
Qed.

Lemma f32_round_exact (s : bool) (m q : positive) (t e : Z) :
  Zpos m = Zpos q * 2 ^ t -> 0 <= t -> Zpos q < 2 ^ 24 ->
  -125 <= e + t <= 80 ->
  binary_round f32_prec f32_emax s m e = f32_canon s q (e + t).
Proof.
  intros Hm Ht Hq Hrange.
  pose proof (pdigits_small q Hq) as Hdq.
  destruct (pdigits_bounds q) as [Hd1 _].
  assert (Hdm : pdigits m = pdigits q + t).
  { rewrite <- (pdigits_shift q t Ht), <- Hm. reflexivity. }
  unfold binary_round, shl_align. rewrite f32_fexp.
  fold (pdigits m). rewrite Hdm.
  replace (Z.max (pdigits q + t + e - 24) (-149) - e)
    with (pdigits q + t - 24) by lia.
  destruct (pdigits q + t - 24) as [| d | d] eqn:Hshift.
  - rewrite Hm. apply f32_round_aux_exact; lia.
  - rewrite Hm. apply f32_round_aux_exact; lia.
  - rewrite pos_iter_xO, Hm, <- Z.mul_assoc, <- Z.pow_add_r by lia.
    replace (t + Zpos d) with (24 - pdigits q) by lia.
    replace (Z.max (pdigits q + t + e - 24) (-149))
      with (pdigits q + t + e - 24) by lia.
    rewrite f32_round_aux_exact by lia.
    f_equal. lia.
Qed.

Lemma f32_normalize_exact (n N t e : Z) :
  n = N * 2 ^ t -> 0 <= t -> Z.abs N < 2 ^ 24 -> -125 <= e + t <= 80 ->
  binary_normalize f32_prec f32_emax n e false = f32_exact N (e + t).
Proof.
  intros Hn Ht HN Hrange.
  assert (Hp : 0 < 2 ^ t) by (apply Z.pow_pos_nonneg; lia).
  destruct N as [| q | q].
  - rewrite Hn. reflexivity.
  - destruct (pos_pow_pos q t Ht) as [m Hm].
    rewrite Hn, Hm. cbn [binary_normalize f32_exact].
    apply f32_round_exact; [symmetry; exact Hm | exact Ht | lia | exact Hrange].
  - destruct (pos_pow_pos q t Ht) as [m Hm].
    assert (Hneg : Zneg q * 2 ^ t = Zneg m).
    { rewrite <- Pos2Z.opp_pos, Z.mul_opp_l, Hm. reflexivity. }
    rewrite Hn, Hneg. cbn [binary_normalize f32_exact].
    apply f32_round_exact; [symmetry; exact Hm | exact Ht | lia | exact Hrange].
Qed.

Lemma f32_of_int_exact (n : Z) :
  Z.abs n < 2 ^ 24 -> f32_of_int n = f32_exact n 0.
Proof.
  intros H. unfold f32_of_int.
  rewrite (f32_normalize_exact n n 0 0); [reflexivity | | lia | exact H | lia].
  rewrite Z.pow_0_r. lia.
Qed.

Lemma f32_canon_mantissa (q : positive) :
  Zpos q < 2 ^ 24 ->
  Zpos (Z.to_pos (Zpos q * 2 ^ (24 - pdigits q)))
  = Zpos q * 2 ^ (24 - pdigits q).
Proof.
  intros H. pose proof (pdigits_small q H).
  apply Z2Pos.id.
  assert (0 < 2 ^ (24 - pdigits q)) by (apply Z.pow_pos_nonneg; lia). nia.
Qed.

Lemma f32_to_int_exact (n : Z) :
  Z.abs n < 2 ^ 24 -> f32_to_int (f32_exact n (-8)) = Z.quot n 256.
Proof.
  intros H.
  assert (Hpos : forall q : positive, Zpos q < 2 ^ 24 ->
            Z.quot (Zpos (Z.to_pos (Zpos q * 2 ^ (24 - pdigits q))))
                   (2 ^ (- (-8 + pdigits q - 24)))
            = Z.quot (Zpos q) 256
            /\ (0 <=? -8 + pdigits q - 24) = false).
  { intros q Hq. pose proof (pdigits_small q Hq) as Hd.
    destruct (pdigits_bounds q) as [Hd1 _].
    rewrite f32_canon_mantissa by exact Hq.
    split; [| apply Z.leb_gt; lia].
    replace (- (-8 + pdigits q - 24)) with (8 + (24 - pdigits q)) by lia.
    rewrite Z.pow_add_r by lia.
    change (2 ^ 8) with 256.
    apply Z.quot_mul_cancel_r; [lia |].
    assert (0 < 2 ^ (24 - pdigits q)) by (apply Z.pow_pos_nonneg; lia). lia. }
  destruct n as [| q | q]; [reflexivity | |].
  - cbn [f32_exact f32_canon f32_to_int].
    destruct (Hpos q ltac:(lia)) as [Hv ->]. exact Hv.
  - cbn [f32_exact f32_canon f32_to_int].
    destruct (Hpos q ltac:(lia)) as [Hv ->]. rewrite Hv.
    rewrite <- Pos2Z.opp_pos, Z.quot_opp_l by lia. reflexivity.
Qed.

Lemma pdigits_mul (qa qb : positive) :
  pdigits qa + pdigits qb - 1 <= pdigits (qa * qb).
Proof.
  destruct (pdigits_bounds qa) as [Ha1 [Ha2 Ha3]].
  destruct (pdigits_bounds qb) as [Hb1 [Hb2 Hb3]].
  destruct (pdigits_bounds (qa * qb)) as [Hc1 [Hc2 Hc3]].
  rewrite Pos2Z.inj_mul in Hc3.
  destruct (Z.le_gt_cases (pdigits qa + pdigits qb - 1) (pdigits (qa * qb)))
    as [Hle | Hgt]; [exact Hle |].
  assert (2 ^ pdigits (qa * qb) <= 2 ^ (pdigits qa - 1 + (pdigits qb - 1)))
    by (apply Z.pow_le_mono_r; lia).
  rewrite Z.pow_add_r in H by lia.
  assert (0 < 2 ^ (pdigits qa - 1)) by (apply Z.pow_pos_nonneg; lia).
  assert (0 < 2 ^ (pdigits qb - 1)) by (apply Z.pow_pos_nonneg; lia).
  nia.
Qed.

Lemma f32_mul_exact (a b x y : Z) :
  0 <= a -> 0 <= b -> a * b < 2 ^ 24 ->
  -60 <= x <= 40 -> -60 <= y <= 40 ->
  f32_mul (f32_exact a x) (f32_exact b y) = f32_exact (a * b) (x + y).
Proof.
  intros Ha Hb Hab Hx Hy.
  destruct a as [| qa | qa]; [| | lia].
  - destruct b as [| qb | qb]; [reflexivity | reflexivity | lia].
  - destruct b as [| qb | qb]; [| | lia].
    + rewrite Z.mul_0_r. reflexivity.
    + assert (Hqa : Zpos qa < 2 ^ 24) by nia.
      assert (Hqb : Zpos qb < 2 ^ 24) by nia.
      pose proof (pdigits_small qa Hqa) as Hda.
      pose proof (pdigits_small qb Hqb) as Hdb.
      pose proof (pdigits_mul qa qb) as Hdm.
      pose proof (pdigits_small (qa * qb) Hab) as Hdab.
      destruct (pdigits_bounds qa) as [Ha1 _].
      destruct (pdigits_bounds qb) as [Hb1 _].
      change (Zpos qa * Zpos qb) with (Zpos (qa * qb)).
      cbn [f32_exact]. unfold f32_canon at 1 2. unfold f32_mul.
      cbn [SFmul xorb].
      rewrite Pos2Z.inj_mul, !f32_canon_mantissa by assumption.
      replace (Zpos qa * 2 ^ (24 - pdigits qa)
               * (Zpos qb * 2 ^ (24 - pdigits qb)))
        with (Zpos (qa * qb) * 2 ^ (48 - pdigits qa - pdigits qb)).
      * rewrite f32_round_aux_exact by lia. f_equal. lia.
      * replace (48 - pdigits qa - pdigits qb)
          with ((24 - pdigits qa) + (24 - pdigits qb)) by lia.
        rewrite Z.pow_add_r, Pos2Z.inj_mul by lia. ring.
Qed.

Lemma shl_align_value (m : positive) (e ez : Z) :
  ez <= e -> Zpos (fst (shl_align m e ez)) = Zpos m * 2 ^ (e - ez).
Proof.
  intros H. unfold shl_align.
  destruct (ez - e) as [| d | d] eqn:Hd; cbn [fst].
  - replace (e - ez) with 0 by lia. rewrite Z.pow_0_r. lia.
  - lia.
  - rewrite pos_iter_xO. f_equal. f_equal. lia.
Qed.

(** The value of a canonical number, as a multiple of [2 ^ (- 8 - ez)],
    once aligned to an exponent [ez] at most [-8]. *)

Lemma f32_canon_aligned (q : positive) (x ez : Z) :
  Zpos q < 2 ^ 24 -> -8 <= x -> ez <= x + pdigits q - 24 -> ez <= -8 ->
  Zpos (fst (shl_align (Z.to_pos (Zpos q * 2 ^ (24 - pdigits q)))
                       (x + pdigits q - 24) ez))
  = Zpos q * 2 ^ (x + 8) * 2 ^ (- 8 - ez).
Proof.
  intros Hq Hx Hez Hez8.
  pose proof (pdigits_small q Hq) as Hd.
  rewrite shl_align_value by exact Hez.
  rewrite f32_canon_mantissa by exact Hq.
  rewrite <- !Z.mul_assoc, <- !Z.pow_add_r by lia.
  f_equal. f_equal. lia.
Qed.

Lemma f32_exact_rescale (q : positive) (s : bool) :
  pdigits q <= 16 ->
  f32_canon s q 0 = f32_canon s (Z.to_pos (256 * Zpos q)) (-8).
Proof.
  intros Hd. destruct (pdigits_bounds q) as [Hd1 _].
  assert (Hshift : pdigits (Z.to_pos (256 * Zpos q)) = pdigits q + 8).
  { rewrite <- (pdigits_shift q 8) by lia. f_equal. f_equal.
    change (2 ^ 8) with 256. lia. }
  unfold f32_canon. rewrite Hshift.
  f_equal; [| lia].
  f_equal. rewrite Z2Pos.id by lia.
  replace (24 - pdigits q) with (8 + (24 - (pdigits q + 8))) by lia.
  rewrite Z.pow_add_r by lia. change (2 ^ 8) with 256. ring.
Qed.

Lemma pdigits_le (q : positive) (k : Z) :
  0 <= k -> Zpos q < 2 ^ k -> pdigits q <= k.
Proof.
  intros Hk H. destruct (pdigits_bounds q) as [H1 [H2 H3]].
  destruct (Z.le_gt_cases (pdigits q) k) as [Hle | Hgt]; [exact Hle |].
  assert (2 ^ k <= 2 ^ (pdigits q - 1)) by (apply Z.pow_le_mono_r; lia).
  lia.
Qed.

(** The sum or difference of the aligned mantissas of an integer and
    of a multiple of [1 / 256]. *)

Lemma f32_aligned_normalize (sa sb : bool) (qa qb : positive) (sub : bool) :
  Zpos qa < 2 ^ 16 -> Zpos qb < 2 ^ 24 ->
  let a := cond_Zopp sa (Zpos qa) in
  let b := cond_Zopp sb (Zpos qb) in
  let N := if sub then 256 * a - b else 256 * a + b in
  Z.abs N < 2 ^ 24 ->
  let ea := 0 + pdigits qa - 24 in
  let eb := -8 + pdigits qb - 24 in
  let ez := Z.min ea eb in
  let ma := Zpos (fst (shl_align
                         (Z.to_pos (Zpos qa * 2 ^ (24 - pdigits qa))) ea ez)) in
  let mb := Zpos (fst (shl_align
                         (Z.to_pos (Zpos qb * 2 ^ (24 - pdigits qb))) eb ez)) in
  binary_normalize f32_prec f32_emax
    (if sub then cond_Zopp sa ma - cond_Zopp sb mb
     else cond_Zopp sa ma + cond_Zopp sb mb) ez false
  = f32_exact N (-8).
Proof.
  intros Hqa Hqb a b N HN ea eb ez ma mb.
  pose proof (pdigits_le qa 16 ltac:(lia) Hqa) as Hda.
  pose proof (pdigits_small qb Hqb) as Hdb.
  destruct (pdigits_bounds qa) as [Ha1 _].
  destruct (pdigits_bounds qb) as [Hb1 _].
  assert (Hez : ez <= -8) by (unfold ez, ea; lia).
  assert (Hma : ma = Zpos qa * 2 ^ (0 + 8) * 2 ^ (- 8 - ez)).
  { unfold ma, ea. apply f32_canon_aligned; [lia | lia | unfold ez, ea; lia | exact Hez]. }
  assert (Hmb : mb = Zpos qb * 2 ^ (-8 + 8) * 2 ^ (- 8 - ez)).
  { unfold mb, eb. apply f32_canon_aligned; [lia | lia | unfold ez, eb; lia | exact Hez]. }
  change (2 ^ (0 + 8)) with 256 in Hma.
  change (2 ^ (-8 + 8)) with 1 in Hmb.
  transitivity (f32_exact N (ez + (- 8 - ez))); [| f_equal; lia].
  apply f32_normalize_exact; [| lia | exact HN | lia].
  rewrite Hma, Hmb. unfold N, a, b.
  destruct sub, sa, sb; cbn [cond_Zopp]; ring.
Qed.

Lemma f32_exact_neg (q : positive) (x : Z) :
  f32_exact (Zneg q) x = f32_canon true q x.
Proof. reflexivity. Qed.

Lemma f32_exact_cond (s : bool) (q : positive) (x : Z) :
  f32_exact (cond_Zopp s (Zpos q)) x = f32_canon s q x.
Proof. destruct s; reflexivity. Qed.

Lemma f32_rescale_cond (s : bool) (q : positive) :
  Zpos q < 2 ^ 16 ->
  f32_canon s q 0 = f32_exact (256 * cond_Zopp s (Zpos q)) (-8).
Proof.
  intros H. pose proof (pdigits_le q 16 ltac:(lia) H) as Hd.
  rewrite (f32_exact_rescale q s Hd).
  destruct s; cbn [cond_Zopp]; reflexivity.
Qed.

Lemma f32_add_exact (a b : Z) :
  Z.abs a < 2 ^ 16 -> Z.abs b < 2 ^ 24 -> Z.abs (256 * a + b) < 2 ^ 24 ->
  f32_add (f32_exact a 0) (f32_exact b (-8)) = f32_exact (256 * a + b) (-8).
Proof.
  intros Ha Hb HN.
  assert (Hfin : forall (sa sb : bool) (qa qb : positive),
            Zpos qa < 2 ^ 16 -> Zpos qb < 2 ^ 24 ->
            Z.abs (256 * cond_Zopp sa (Zpos qa) + cond_Zopp sb (Zpos qb))
              < 2 ^ 24 ->
            f32_add (f32_canon sa qa 0) (f32_canon sb qb (-8))
            = f32_exact (256 * cond_Zopp sa (Zpos qa)
                         + cond_Zopp sb (Zpos qb)) (-8)).
  { intros sa sb qa qb Hqa Hqb Hsum.
    exact (f32_aligned_normalize sa sb qa qb false Hqa Hqb Hsum). }
  assert (Hzero : forall (sa : bool) (qa : positive),
            Zpos qa < 2 ^ 16 ->
            f32_canon sa qa 0
            = f32_exact (256 * cond_Zopp sa (Zpos qa) + 0) (-8)).
  { intros sa qa Hqa. rewrite Z.add_0_r. apply f32_rescale_cond. exact Hqa. }
  destruct a as [| qa | qa], b as [| qb | qb]; try reflexivity.
  - exact (Hzero false qa ltac:(lia)).
  - exact (Hfin false false qa qb ltac:(lia) ltac:(lia) HN).
  - exact (Hfin false true qa qb ltac:(lia) ltac:(lia) HN).
  - exact (Hzero true qa ltac:(lia)).
  - exact (Hfin true false qa qb ltac:(lia) ltac:(lia) HN).
  - exact (Hfin true true qa qb ltac:(lia) ltac:(lia) HN).
Qed.

Lemma f32_sub_exact (a b : Z) :
  Z.abs a < 2 ^ 16 -> Z.abs b < 2 ^ 24 -> Z.abs (256 * a - b) < 2 ^ 24 ->
  f32_sub (f32_exact a 0) (f32_exact b (-8)) = f32_exact (256 * a - b) (-8).
Proof.
  intros Ha Hb HN.
  assert (Hfin : forall (sa sb : bool) (qa qb : positive),
            Zpos qa < 2 ^ 16 -> Zpos qb < 2 ^ 24 ->
            Z.abs (256 * cond_Zopp sa (Zpos qa) - cond_Zopp sb (Zpos qb))
              < 2 ^ 24 ->
            f32_sub (f32_canon sa qa 0) (f32_canon sb qb (-8))
            = f32_exact (256 * cond_Zopp sa (Zpos qa)
                         - cond_Zopp sb (Zpos qb)) (-8)).
  { intros sa sb qa qb Hqa Hqb Hsum.
    exact (f32_aligned_normalize sa sb qa qb true Hqa Hqb Hsum). }
  assert (Hzero : forall (sa : bool) (qa : positive),
            Zpos qa < 2 ^ 16 ->
            f32_canon sa qa 0
            = f32_exact (256 * cond_Zopp sa (Zpos qa) - 0) (-8)).
  { intros sa qa Hqa. rewrite Z.sub_0_r. apply f32_rescale_cond. exact Hqa. }
  destruct a as [| qa | qa], b as [| qb | qb]; try reflexivity.
  - exact (Hzero false qa ltac:(lia)).
  - exact (Hfin false false qa qb ltac:(lia) ltac:(lia) HN).
  - exact (Hfin false true qa qb ltac:(lia) ltac:(lia) HN).
  - exact (Hzero true qa ltac:(lia)).
  - exact (Hfin true false qa qb ltac:(lia) ltac:(lia) HN).
  - exact (Hfin true true qa qb ltac:(lia) ltac:(lia) HN).
Qed.

Lemma f32_same_eq (x y : spec_float) : f32_same x y = true -> x = y.
Proof.
  destruct x as [a | a | | a m e], y as [b | b | | b m' e']; cbn;
    try discriminate; try reflexivity.
  - intros H. apply Bool.eqb_prop in H. subst. reflexivity.
  - intros H. apply Bool.eqb_prop in H. subst. reflexivity.
  - intros H. apply andb_prop in H. destruct H as [H He].
    apply andb_prop in H. destruct H as [Hs Hm].
    apply Bool.eqb_prop in Hs. apply Pos.eqb_eq in Hm. apply Z.eqb_eq in He.
    subst. reflexivity.
Qed.

Lemma falpha_exact_all_true : falpha_exact_all = true.
Proof. vm_cast_no_check (eq_refl true). Qed.

Lemma falpha_exact (alpha : Z) :
  is_uchar alpha ->
  f32_div (f32_of_int alpha) (f32_of_int 256) = f32_exact alpha (-8).
Proof.
  intros H. apply f32_same_eq.
  pose proof falpha_exact_all_true as Hall. unfold falpha_exact_all in Hall.
  exact (proj1 (List.forallb_forall _ uchars) Hall alpha
               (uchars_complete alpha H)).
Qed.

(** The scaled foreground contribution [fr], [fg], [fb]. *)

Lemma f32_contribution_exact (fc alpha : Z) :
  is_uchar fc -> is_uchar alpha ->
  f32_mul (f32_of_int fc) (f32_div (f32_of_int alpha) (f32_of_int 256))
  = f32_exact (fc * alpha) (-8)
  /\ 0 <= fc * alpha <= 65025.
Proof.
  unfold is_uchar. intros Hf Ha.
  assert (Hprod : 0 <= fc * alpha <= 65025) by nia.
  split; [| exact Hprod].
  rewrite (falpha_exact alpha) by exact Ha.
  rewrite f32_of_int_exact by (change (2 ^ 24) with 16777216; lia).
  rewrite f32_mul_exact; [reflexivity | lia | lia | | lia | lia].
  change (2 ^ 24) with 16777216. lia.
Qed.

Lemma add_channel_exact (bc fc alpha : Z) :
  is_uchar bc -> is_uchar fc -> is_uchar alpha ->
  add_channel bc fc alpha = clamp (Z.quot (256 * bc + fc * alpha) 256).
Proof.
  intros Hb Hf Ha. unfold add_channel.
  destruct (f32_contribution_exact fc alpha Hf Ha) as [-> Hprod].
  unfold is_uchar in Hb.
  rewrite f32_of_int_exact by (change (2 ^ 24) with 16777216; lia).
  rewrite f32_add_exact
    by (change (2 ^ 24) with 16777216; change (2 ^ 16) with 65536; lia).
  rewrite f32_to_int_exact by (change (2 ^ 24) with 16777216; lia).
  apply to_uchar_id, clamp_range.
Qed.

Lemma subtract_channel_exact (bc fc alpha : Z) :
  is_uchar bc -> is_uchar fc -> is_uchar alpha ->
  subtract_channel bc fc alpha = clamp (Z.quot (256 * bc - fc * alpha) 256).
Proof.
  intros Hb Hf Ha. unfold subtract_channel.
  destruct (f32_contribution_exact fc alpha Hf Ha) as [-> Hprod].
  unfold is_uchar in Hb.
  rewrite f32_of_int_exact by (change (2 ^ 24) with 16777216; lia).
  rewrite f32_sub_exact
    by (change (2 ^ 24) with 16777216; change (2 ^ 16) with 65536; lia).
  rewrite f32_to_int_exact by (change (2 ^ 24) with 16777216; lia).
  apply to_uchar_id, clamp_range.
Qed.

Lemma reversesubtract_channel_exact (bc fc alpha : Z) :
  is_uchar bc -> is_uchar fc -> is_uchar alpha ->
  reversesubtract_channel bc fc alpha
  = clamp (Z.quot (fc * alpha - 256 * bc) 256).
Proof.
  intros Hb Hf Ha. unfold reversesubtract_channel.
  destruct (f32_contribution_exact fc alpha Hf Ha) as [-> Hprod].
  unfold is_uchar in Hb.
  rewrite f32_of_int_exact by (change (2 ^ 24) with 16777216; lia).
  rewrite f32_add_exact
    by (change (2 ^ 24) with 16777216; change (2 ^ 16) with 65536; lia).
  rewrite f32_to_int_exact by (change (2 ^ 24) with 16777216; lia).
  rewrite to_uchar_id by apply clamp_range.
  f_equal. f_equal. lia.
Qed.

Lemma ASTBlendPixel_add
    (output background foreground : RGBA_t) (alpha : Z) :
  ASTBlendPixel output background foreground AST_ADD alpha
  = mkRGBA (add_channel (s_red background) (s_red foreground) alpha)
           (add_channel (s_green background) (s_green foreground) alpha)
           (add_channel (s_blue background) (s_blue foreground) alpha)
           255.
Proof. reflexivity. Qed.

Lemma ASTBlendPixel_subtract
    (output background foreground : RGBA_t) (alpha : Z) :
  ASTBlendPixel output background foreground AST_SUBTRACT alpha
  = mkRGBA (subtract_channel (s_red background) (s_red foreground) alpha)
           (subtract_channel (s_green background) (s_green foreground) alpha)
           (subtract_channel (s_blue background) (s_blue foreground) alpha)
           255.
Proof. reflexivity. Qed.

Lemma ASTBlendPixel_reversesubtract
    (output background foreground : RGBA_t) (alpha : Z) :
  ASTBlendPixel output background foreground AST_REVERSESUBTRACT alpha
  = mkRGBA
      (reversesubtract_channel (s_red background) (s_red foreground) alpha)
      (reversesubtract_channel (s_green background) (s_green foreground)
                               alpha)
      (reversesubtract_channel (s_blue background) (s_blue foreground) alpha)
      255.
Proof. reflexivity. Qed.

(** The clamped quotients in plain terms. *)
Lemma clamp_quot_add (bc n : Z) :
  is_uchar bc -> 0 <= n ->
  clamp (Z.quot (256 * bc + n) 256) = Z.min 255 (bc + n / 256).
Proof.
  unfold is_uchar. intros Hb Hn.
  rewrite Z.quot_div_nonneg by lia.
  rewrite (Z.mul_comm 256 bc), Z.div_add_l by lia.
  assert (0 <= n / 256) by (apply Z.div_pos; lia).
  unfold clamp. rewrite max_spec, min_spec. lia.
Qed.

Lemma clamp_quot_subtract (bc n : Z) :
  is_uchar bc -> 0 <= n ->
  clamp (Z.quot (256 * bc - n) 256) = Z.max 0 (bc - (n + 255) / 256).
Proof.
  unfold is_uchar. intros Hb Hn.
  pose proof (Z.div_mod (n + 255) 256 ltac:(lia)) as Hdm.
  pose proof (Z.mod_pos_bound (n + 255) 256 ltac:(lia)) as Hmod.
  unfold clamp. rewrite max_spec, min_spec.
  destruct (Z.le_gt_cases n (256 * bc)) as [Hle | Hgt].
  - rewrite Z.quot_div_nonneg by lia.
    assert (Hq : (256 * bc - n) / 256 = bc - (n + 255) / 256).
    { symmetry.
      apply (Z.div_unique _ _ _ (255 - (n + 255) mod 256)); lia. }
    rewrite Hq. lia.
  - assert (Hneg : Z.quot (256 * bc - n) 256 <= 0).
    { replace (256 * bc - n) with (- (n - 256 * bc)) by lia.
      rewrite Z.quot_opp_l by lia.
      assert (0 <= Z.quot (n - 256 * bc) 256)
        by (apply Z.quot_pos; lia).
      lia. }
    lia.
Qed.

Lemma clamp_quot_reversesubtract (bc n : Z) :
  is_uchar bc -> 0 <= n <= 65025 ->
  clamp (Z.quot (n - 256 * bc) 256) = Z.max 0 (n / 256 - bc).
Proof.
  unfold is_uchar. intros Hb Hn.
  assert (Hdiv : (n - 256 * bc) / 256 = n / 256 - bc).
  { replace (n - 256 * bc) with (n + (- bc) * 256) by lia.
    rewrite Z.div_add by lia. lia. }
  assert (Hsmall : n / 256 <= 254).
  { assert (n / 256 <= 65025 / 256) by (apply Z.div_le_mono; lia).
    change (65025 / 256) with 254 in *. lia. }
  assert (0 <= n / 256) by (apply Z.div_pos; lia).
  unfold clamp. rewrite max_spec, min_spec.
  destruct (Z.le_gt_cases (256 * bc) n) as [Hle | Hgt].
  - rewrite Z.quot_div_nonneg, Hdiv by lia.
    assert (0 <= (n - 256 * bc) / 256) by (apply Z.div_pos; lia).
    lia.
  - assert (Hneg : Z.quot (n - 256 * bc) 256 <= 0).
    { replace (n - 256 * bc) with (- (256 * bc - n)) by lia.
      rewrite Z.quot_opp_l by lia.
      assert (0 <= Z.quot (256 * bc - n) 256)
        by (apply Z.quot_pos; lia).
      lia. }
    assert (n / 256 < bc) by (apply Z.div_lt_upper_bound; lia).
    lia.
Qed.

(** X22. Style Add on bytes: every colour channel of the result is
    [min(255, background + (foreground * alpha) / 256)], the quotient
    rounded down; the binary32 computation of the code is exact.
    Alpha is 255. *)
Theorem add_exact (output background foreground : RGBA_t) (alpha : Z) :
  rgba_ok background -> rgba_ok foreground -> is_uchar alpha ->
  let channel := fun bc fc : Z => Z.min 255 (bc + fc * alpha / 256) in
  ASTBlendPixel output background foreground AST_ADD alpha
  = mkRGBA (channel (s_red background) (s_red foreground))
           (channel (s_green background) (s_green foreground))
           (channel (s_blue background) (s_blue foreground))
           255.
Proof.
  intros (Hbr & Hbg & Hbb & _) (Hfr & Hfg & Hfb & _) Ha. cbv zeta.
  rewrite ASTBlendPixel_add.
  rewrite !add_channel_exact by assumption.
  unfold is_uchar in Hfr, Hfg, Hfb, Ha.
  rewrite !clamp_quot_add by (assumption || nia).
  reflexivity.
Qed.

Lemma add_exact_witness :
  ASTBlendPixel (mkRGBA 1 2 3 4) (mkRGBA 0 0 0 255) (mkRGBA 100 0 0 255)
                AST_ADD 255
  = mkRGBA 99 0 0 255.
Proof.
  apply (add_exact (mkRGBA 1 2 3 4) (mkRGBA 0 0 0 255)
           (mkRGBA 100 0 0 255) 255).
  - unfold rgba_ok, is_uchar. simpl. lia.
  - unfold rgba_ok, is_uchar. simpl. lia.
  - unfold is_uchar. lia.
Defined.

(** X23. Style Subtract on bytes: every colour channel of the result
    is [max(0, background - ceil(foreground * alpha / 256))], the
    quotient rounded up; the binary32 computation of the code is
    exact.  Alpha is 255. *)
Theorem subtract_exact
    (output background foreground : RGBA_t) (alpha : Z) :
  rgba_ok background -> rgba_ok foreground -> is_uchar alpha ->
  let channel :=
    fun bc fc : Z => Z.max 0 (bc - (fc * alpha + 255) / 256) in
  ASTBlendPixel output background foreground AST_SUBTRACT alpha
  = mkRGBA (channel (s_red background) (s_red foreground))
           (channel (s_green background) (s_green foreground))
           (channel (s_blue background) (s_blue foreground))
           255.
Proof.
  intros (Hbr & Hbg & Hbb & _) (Hfr & Hfg & Hfb & _) Ha. cbv zeta.
  rewrite ASTBlendPixel_subtract.
  rewrite !subtract_channel_exact by assumption.
  unfold is_uchar in Hfr, Hfg, Hfb, Ha.
  rewrite !clamp_quot_subtract by (assumption || nia).
  reflexivity.
Qed.

Lemma subtract_exact_witness :
  ASTBlendPixel (mkRGBA 1 2 3 4) (mkRGBA 200 20 30 255)
                (mkRGBA 100 50 0 255) AST_SUBTRACT 128
  = mkRGBA 150 0 30 255.
Proof.
  apply (subtract_exact (mkRGBA 1 2 3 4) (mkRGBA 200 20 30 255)
           (mkRGBA 100 50 0 255) 128).
  - unfold rgba_ok, is_uchar. simpl. lia.
  - unfold rgba_ok, is_uchar. simpl. lia.
  - unfold is_uchar. lia.
Defined.

(** X24. Style ReverseSubtract on bytes: every colour channel of the
    result is [max(0, (foreground * alpha) / 256 - background)], the
    quotient rounded down; the binary32 computation of the code is
    exact.  Alpha is 255. *)
Theorem reversesubtract_exact
    (output background foreground : RGBA_t) (alpha : Z) :
  rgba_ok background -> rgba_ok foreground -> is_uchar alpha ->
  let channel := fun bc fc : Z => Z.max 0 (fc * alpha / 256 - bc) in
  ASTBlendPixel output background foreground AST_REVERSESUBTRACT alpha
  = mkRGBA (channel (s_red background) (s_red foreground))
           (channel (s_green background) (s_green foreground))
           (channel (s_blue background) (s_blue foreground))
           255.
Proof.
  intros (Hbr & Hbg & Hbb & _) (Hfr & Hfg & Hfb & _) Ha. cbv zeta.
  rewrite ASTBlendPixel_reversesubtract.
  rewrite !reversesubtract_channel_exact by assumption.
  unfold is_uchar in Hfr, Hfg, Hfb, Ha.
  rewrite !clamp_quot_reversesubtract by (assumption || nia).
  reflexivity.
Qed.

Lemma reversesubtract_exact_witness :
  ASTBlendPixel (mkRGBA 1 2 3 4) (mkRGBA 10 20 30 255)
                (mkRGBA 100 50 40 255) AST_REVERSESUBTRACT 255
  = mkRGBA 89 29 9 255.
Proof.
  apply (reversesubtract_exact (mkRGBA 1 2 3 4) (mkRGBA 10 20 30 255)
           (mkRGBA 100 50 40 255) 255).
  - unfold rgba_ok, is_uchar. simpl. lia.
  - unfold rgba_ok, is_uchar. simpl. lia.
  - unfold is_uchar. lia.
Defined.

(** ** The tables of the styles Add, Subtract and ReverseSubtract *)

(** X25. Over a palette of bytes and for a level [l] in [1, 9], with
    [a = (l * 256) / 10], the byte at offset [y * 256 + x] of the
    table is the nearest palette index of the colour whose channels
    are [min(255, bg + fg * a / 256)] for style Add,
    [max(0, bg - ceil(fg * a / 256))] for style Subtract and
    [max(0, fg * a / 256 - bg)] for style ReverseSubtract, where [bg]
    and [fg] are the channels of [palette[y]] and [palette[x]]: the
    tables can be computed in integers. *)
Theorem float_styles_table_cell
    (palette : list RGBA_t) (indeterminate : nat -> nat -> RGBA_t)
    (level : Z) (working : list Z) (y x : nat) :
  (forall i : nat, (i < 256)%nat -> rgba_ok (palette !!! i)) ->
  1 <= level <= 9 ->
  length working = (256 * 256)%nat -> (y < 256)%nat -> (x < 256)%nat ->
  let a := Z.quot (level * 256) 10 in
  let cell := fun channel : Z -> Z -> Z =>
    Some (NearestPaletteColor palette
            (channel (s_red (palette !!! y)) (s_red (palette !!! x)))
            (channel (s_green (palette !!! y)) (s_green (palette !!! x)))
            (channel (s_blue (palette !!! y)) (s_blue (palette !!! x)))) in
  T_BlendTrans palette AST_ADD indeterminate level working
    !! (y * 256 + x)%nat
  = cell (fun bc fc => Z.min 255 (bc + fc * a / 256))
  /\ T_BlendTrans palette AST_SUBTRACT indeterminate level working
       !! (y * 256 + x)%nat
     = cell (fun bc fc => Z.max 0 (bc - (fc * a + 255) / 256))
  /\ T_BlendTrans palette AST_REVERSESUBTRACT indeterminate level working
       !! (y * 256 + x)%nat
     = cell (fun bc fc => Z.max 0 (fc * a / 256 - bc)).
Proof.
  intros Hpal Hlevel Hlen Hy Hx. cbv zeta.
  destruct (blendamt_of_level level Hlevel) as [Hamt Hrange].
  destruct (Hpal y Hy) as (Hyr & Hyg & Hyb & _).
  destruct (Hpal x Hx) as (Hxr & Hxg & Hxb & _).
  assert (Ha : is_uchar (blendamt_of level)) by (unfold is_uchar; lia).
  assert (Hn : forall fc : Z, is_uchar fc ->
            0 <= fc * blendamt_of level <= 65025)
    by (unfold is_uchar; intros; nia).
  split; [| split].
  - destruct (T_BlendTrans_lookup palette AST_ADD indeterminate level
                working y x Hlen Hy Hx) as [_ ->].
    cbv zeta. rewrite ASTBlendPixel_add. cbn [s_red s_green s_blue].
    rewrite !add_channel_exact by assumption.
    rewrite !clamp_quot_add by (assumption || apply Hn; assumption).
    rewrite Hamt. reflexivity.
  - destruct (T_BlendTrans_lookup palette AST_SUBTRACT indeterminate level
                working y x Hlen Hy Hx) as [_ ->].
    cbv zeta. rewrite ASTBlendPixel_subtract. cbn [s_red s_green s_blue].
    rewrite !subtract_channel_exact by assumption.
    rewrite !clamp_quot_subtract by (assumption || apply Hn; assumption).
    rewrite Hamt. reflexivity.
  - destruct (T_BlendTrans_lookup palette AST_REVERSESUBTRACT indeterminate
                level working y x Hlen Hy Hx) as [_ ->].
    cbv zeta. rewrite ASTBlendPixel_reversesubtract.
    cbn [s_red s_green s_blue].
    rewrite !reversesubtract_channel_exact by assumption.
    rewrite !clamp_quot_reversesubtract
      by (assumption || apply Hn; assumption).
    rewrite Hamt. reflexivity.
Qed.

Lemma float_styles_table_cell_witness :
  T_BlendTrans grey_ramp AST_ADD (fun _ _ => mkRGBA 0 0 0 0) 5
               working_init !! (3 * 256 + 200)%nat
  = Some (NearestPaletteColor grey_ramp
            (Z.min 255 (s_red (grey_ramp !!! 3%nat)
                        + s_red (grey_ramp !!! 200%nat)
                          * Z.quot (5 * 256) 10 / 256))
            (Z.min 255 (s_green (grey_ramp !!! 3%nat)
                        + s_green (grey_ramp !!! 200%nat)
                          * Z.quot (5 * 256) 10 / 256))
            (Z.min 255 (s_blue (grey_ramp !!! 3%nat)
                        + s_blue (grey_ramp !!! 200%nat)
                          * Z.quot (5 * 256) 10 / 256))).
Proof.
  destruct (float_styles_table_cell grey_ramp (fun _ _ => mkRGBA 0 0 0 0) 5
              working_init 3 200) as [Hadd _].
  - intros i Hi. apply palette_loaded_ok; [exact grey_ramp_loaded | exact Hi].
  - lia.
  - apply length_replicate.
  - lia.
  - lia.
  - exact Hadd.
Defined.

(** ** A whole run *)

(** X26. A whole run from the initial state.  When the command line
    has at least two arguments and names a palette file that opens,
    for which [ftell] reports at least 768 and [fread] delivers 768
    bytes, [malloc] succeeds with at least one byte to spare after
    the [strlen(prefix) + 6] requested, the prefix has no [%], every
    output file opens and the output files option holds no digit
    [0], [main] returns 0 and the files written are, in ascending
    order of level, one per requested level, each holding the table
    of its level for the palette read from the file and the style of
    the command line. *)
Theorem main_success (E : env) (argv : list string) (inpal : string)
    (contents : list Byte.byte) :
  let parsed := Parm_Parse argv parms_init in
  let prefix := default defaultprefix (parm_outprefix parsed) in
  let outfiles := default defaultoutfiles (parm_outfiles parsed) in
  (2 <= length argv)%nat ->
  parm_palettefile parsed = Some inpal ->
  fopen_rb E inpal = Some contents ->
  Z.of_nat PALSIZE <= ftell_end E inpal ->
  (PALSIZE <= length contents)%nat ->
  malloc_ok E = true ->
  (1 <= malloc_slack E (String.length prefix + 6))%nat ->
  string_has "%" prefix = false ->
  (forall filename : string, fopen_wb E filename = true) ->
  string_has "0" outfiles = false ->
  snd (main E argv globals_init) = Done 0
  /\ written_data (g_trace (fst (main E argv globals_init)))
     = map (fun l =>
              ((prefix ++ String (digit_char (Z.to_nat l)) "0.lmp")%string,
               level_table
                 (Pal_Read_loop (take PALSIZE contents) PALSIZE 0 0
                                palette_init)
                 (blendstyle parsed) l))
           (requested_levels outfiles).
Proof.
  intros parsed prefix outfiles Hargc Hpalette Hopen Hsize Hlen Hmalloc
    Hslack Hplain Hopenw Hzero.
  assert (Hnames : forall (tables : Z -> list Z),
            map (fun l => (lump_text prefix l, tables l))
                (requested_levels outfiles)
            = map (fun l =>
                     ((prefix ++ String (digit_char (Z.to_nat l)) "0.lmp")
                        %string, tables l))
                  (requested_levels outfiles)).
  { intros tables. apply map_ext_in. intros l Hl. f_equal.
    apply lump_text_digit.
    unfold requested_levels in Hl. apply filter_In in Hl.
    destruct Hl as [Hl _]. cbn [levels_from In] in Hl. lia. }
  rewrite <- Hnames. clear Hnames.
  unfold main.
  destruct (Nat.ltb_spec (length argv) 2) as [Hshort | _]; [lia |].
  cbv [mbind M_bind bind T_PrintCopyrightText emit get set_parms].
  cbn [fst snd g_parms g_palette g_working g_trace].
  change (g_parms globals_init) with parms_init.
  fold parsed. rewrite Hpalette.
  rewrite (Pal_Read_success E inpal _ contents Hopen Hsize Hlen).
  cbn [g_parms g_palette g_working g_trace].
  change (g_palette globals_init) with palette_init.
  change (g_working globals_init) with working_init.
  change (g_trace globals_init) with (@nil event).
  assert (Hloaded : palette_loaded
            (Pal_Read_loop (take PALSIZE contents) PALSIZE 0 0 palette_init)).
  { apply Pal_Read_loop_loaded.
    unfold palette_init, PALSIZE. rewrite length_replicate. lia. }
  revert Hloaded.
  generalize (Pal_Read_loop (take PALSIZE contents) PALSIZE 0 0 palette_init).
  intros palette Hloaded.
  pose proof (length_replicate (256 * 256) 0%Z) as Hworking.
  fold working_init in Hworking. revert Hworking.
  generalize working_init. intros working Hworking.
  match goal with
  | |- context [T_DoMain E ?g1] =>
      destruct (T_DoMain_run_data E g1 Hmalloc Hslack Hplain Hopenw)
        as [Hdone Hdata]
  end.
  - exact Hloaded.
  - exact Hworking.
  - exact Hzero.
  - match goal with
    | |- context [T_DoMain E ?g1] =>
        destruct (T_DoMain E g1) as [g2 r]
    end.
    cbn [fst snd g_parms g_palette g_trace] in *. subst r.
    cbn [fst snd]. split; [reflexivity |].
    exact Hdata.
Qed.

Lemma main_success_witness :
  snd (main env_example argv_example globals_init) = Done 0
  /\ written_data (g_trace (fst (main env_example argv_example
                                      globals_init)))
     = map (fun l =>
              ((default defaultprefix
                        (parm_outprefix (Parm_Parse argv_example parms_init))
                ++ String (digit_char (Z.to_nat l)) "0.lmp")%string,
               level_table
                 (Pal_Read_loop (take PALSIZE grey_ramp_file) PALSIZE 0 0
                                palette_init)
                 (blendstyle (Parm_Parse argv_example parms_init)) l))
           (requested_levels
              (default defaultoutfiles
                       (parm_outfiles (Parm_Parse argv_example parms_init)))).
Proof.
  apply (main_success env_example argv_example "pal.dat" grey_ramp_file).
  - vm_compute. repeat constructor.
  - reflexivity.
  - reflexivity.
  - vm_compute. discriminate.
  - vm_compute. repeat constructor.
  - reflexivity.
  - vm_compute. repeat constructor.
  - reflexivity.
  - intros filename. reflexivity.
  - reflexivity.
Defined.

(** ** More on the translucent style and on the tables *)

(** X27. With style Translucent over an opaque background and with an
    opaque foreground, a larger alpha byte moves every colour channel
    of the result towards the foreground: where the foreground
    channel is at least the background channel the result does not
    decrease, and where it is at most the background channel the
    result does not increase. *)
Theorem translucent_monotone
    (output background foreground : RGBA_t) (alpha alpha' : Z) :
  rgba_ok background -> rgba_ok foreground ->
  s_alpha background = 255 -> s_alpha foreground = 255 ->
  0 <= alpha <= alpha' -> alpha' <= 255 ->
  let result :=
    ASTBlendPixel output background foreground AST_TRANSLUCENT alpha in
  let result' :=
    ASTBlendPixel output background foreground AST_TRANSLUCENT alpha' in
  (s_red background <= s_red foreground -> s_red result <= s_red result')
  /\ (s_red foreground <= s_red background ->
      s_red result' <= s_red result)
  /\ (s_green background <= s_green foreground ->
      s_green result <= s_green result')
  /\ (s_green foreground <= s_green background ->
      s_green result' <= s_green result)
  /\ (s_blue background <= s_blue foreground ->
      s_blue result <= s_blue result')
  /\ (s_blue foreground <= s_blue background ->
      s_blue result' <= s_blue result).
Proof.
  intros Hb Hf Hba Hfa Ha Ha'. cbv zeta.
  rewrite !(ASTBlendPixel_translucent_cases output background foreground)
    by (assumption || unfold is_uchar; lia).
  cbv zeta. rewrite Hba, Hfa. cbn [Z.eqb].
  replace (alpha - (255 - 255)) with alpha by lia.
  replace (alpha' - (255 - 255)) with alpha' by lia.
  assert (Hmix : forall bc fc e : Z, is_uchar bc -> is_uchar fc ->
            0 <= e <= 255 ->
            (if e <=? 0 then bc
             else Z.quot (bc * (255 - e) + fc * e) 255)
            = (255 * bc + e * (fc - bc)) / 255).
  { intros bc fc e Hbc Hfc He. unfold is_uchar in Hbc, Hfc.
    destruct (Z.leb_spec e 0).
    - replace e with 0 by lia. rewrite Z.mul_0_l, Z.add_0_r.
      rewrite Z.mul_comm, Z.div_mul by lia. reflexivity.
    - assert (0 <= bc * (255 - e) + fc * e) by nia.
      rewrite Z.quot_div_nonneg by lia. f_equal. ring. }
  assert (Hchan : forall (c : RGBA_t -> Z) (e : Z),
            c (if e <=? 0 then background
               else mkRGBA
                      (Z.quot (s_red background * (255 - e)
                               + s_red foreground * e) 255)
                      (Z.quot (s_green background * (255 - e)
                               + s_green foreground * e) 255)
                      (Z.quot (s_blue background * (255 - e)
                               + s_blue foreground * e) 255) 255)
            = if e <=? 0 then c background
              else c (mkRGBA
                        (Z.quot (s_red background * (255 - e)
                                 + s_red foreground * e) 255)
                        (Z.quot (s_green background * (255 - e)
                                 + s_green foreground * e) 255)
                        (Z.quot (s_blue background * (255 - e)
                                 + s_blue foreground * e) 255) 255))
    by (intros c e; destruct (e <=? 0); reflexivity).
  rewrite !Hchan. cbn [s_red s_green s_blue].
  destruct Hb as (Hbr & Hbg & Hbb & _), Hf as (Hfr & Hfg & Hfb & _).
  rewrite !Hmix by (assumption || lia).
  assert (Hup : forall bc fc : Z, bc <= fc ->
            (255 * bc + alpha * (fc - bc)) / 255
            <= (255 * bc + alpha' * (fc - bc)) / 255).
  { intros bc fc Hle. apply Z.div_le_mono; [lia |].
    assert (alpha * (fc - bc) <= alpha' * (fc - bc))
      by (apply Z.mul_le_mono_nonneg_r; lia).
    lia. }
  assert (Hdown : forall bc fc : Z, fc <= bc ->
            (255 * bc + alpha' * (fc - bc)) / 255
            <= (255 * bc + alpha * (fc - bc)) / 255).
  { intros bc fc Hle. apply Z.div_le_mono; [lia |].
    assert (alpha * (bc - fc) <= alpha' * (bc - fc))
      by (apply Z.mul_le_mono_nonneg_r; lia).
    lia. }
  repeat split; intros Hle; (apply Hup || apply Hdown); exact Hle.
Qed.

Lemma translucent_monotone_witness :
  s_red (ASTBlendPixel (mkRGBA 1 2 3 4) (mkRGBA 10 20 30 255)
                       (mkRGBA 200 100 5 255) AST_TRANSLUCENT 25)
  <= s_red (ASTBlendPixel (mkRGBA 1 2 3 4) (mkRGBA 10 20 30 255)
                          (mkRGBA 200 100 5 255) AST_TRANSLUCENT 230).
Proof.
  destruct (translucent_monotone (mkRGBA 1 2 3 4) (mkRGBA 10 20 30 255)
              (mkRGBA 200 100 5 255) 25 230) as [Hred _].
  - unfold rgba_ok, is_uchar. simpl. lia.
  - unfold rgba_ok, is_uchar. simpl. lia.
  - reflexivity.
  - reflexivity.
  - lia.
  - lia.
  - apply Hred. simpl. lia.
Defined.

(** The composite of two byte colours is a byte colour, unless the
    uninitialised memory gets through. *)
Lemma ASTBlendPixel_ok
    (output background foreground : RGBA_t) (style : alphastyle_e)
    (alpha : Z) :
  rgba_ok background -> rgba_ok foreground -> is_uchar alpha ->
  s_alpha background <> 0 ->
  rgba_ok (ASTBlendPixel output background foreground style alpha).
Proof.
  intros Hb Hf Ha Hnz.
  assert (H255 : is_uchar 255) by (unfold is_uchar; lia).
  destruct style;
    try (split; [| split; [| split]];
         cbn [ASTBlendPixel s_red s_green s_blue s_alpha];
         solve [apply to_uchar_range | exact H255]).
  rewrite (ASTBlendPixel_translucent_cases output background foreground
             alpha Hb Hf Ha).
  cbv zeta.
  destruct (Z.leb_spec (alpha - (255 - s_alpha foreground)) 0);
    [exact Hb |].
  destruct (Z.eqb_spec (s_alpha background) 0); [contradiction |].
  destruct Hb as (Hbr & Hbg & Hbb & Hba), Hf as (Hfr & Hfg & Hfb & Hfa).
  assert (He : 0 <= alpha - (255 - s_alpha foreground) <= 255)
    by (unfold is_uchar in *; lia).
  split; [| split; [| split]]; cbn [s_red s_green s_blue s_alpha];
    solve [apply blend_channel_range; assumption | exact H255].
Qed.

(** X28. Over a loaded palette, for every style and every level in
    [1, 9], the composite of [palette[y]] and [palette[x]] is a
    colour of bytes, and the byte at offset [y * 256 + x] of the
    table is the first index [k], among the 256 entries, whose
    squared distance [dr * dr + dg * dg + db * db] to that composite
    is minimal. *)
Theorem table_cell_is_nearest
    (palette : list RGBA_t) (style : alphastyle_e)
    (indeterminate : nat -> nat -> RGBA_t) (level : Z) (working : list Z)
    (y x : nat) :
  palette_loaded palette -> 1 <= level <= 9 ->
  length working = (256 * 256)%nat -> (y < 256)%nat -> (x < 256)%nat ->
  let result :=
    ASTBlendPixel (indeterminate y x) (palette !!! y) (palette !!! x)
                  style (blendamt_of level) in
  let d := fun i : nat =>
    (s_red result - s_red (palette !!! i))
    * (s_red result - s_red (palette !!! i))
    + (s_green result - s_green (palette !!! i))
      * (s_green result - s_green (palette !!! i))
    + (s_blue result - s_blue (palette !!! i))
      * (s_blue result - s_blue (palette !!! i)) in
  rgba_ok result
  /\ exists k : nat,
       T_BlendTrans palette style indeterminate level working
         !! (y * 256 + x)%nat = Some (Z.of_nat k)
       /\ (k < 256)%nat
       /\ (forall j : nat, (j < 256)%nat -> d k <= d j)
       /\ (forall j : nat, (j < k)%nat -> d k < d j).
Proof.
  intros [_ Hpal] Hlevel Hlen Hy Hx. cbv zeta.
  destruct (blendamt_of_level level Hlevel) as [_ Hrange].
  destruct (Hpal y Hy) as [Hby Hay], (Hpal x Hx) as [Hbx _].
  assert (Hok : rgba_ok
            (ASTBlendPixel (indeterminate y x) (palette !!! y)
               (palette !!! x) style (blendamt_of level))).
  { apply ASTBlendPixel_ok; [exact Hby | exact Hbx | | ].
    - unfold is_uchar. lia.
    - rewrite Hay. lia. }
  split; [exact Hok |].
  destruct (T_BlendTrans_lookup palette style indeterminate level working
              y x Hlen Hy Hx) as [_ ->].
  cbv zeta. unfold NearestPaletteColor.
  set (result := ASTBlendPixel (indeterminate y x) (palette !!! y)
                   (palette !!! x) style (blendamt_of level)) in *.
  destruct Hok as (Hr & Hg & Hb & _).
  assert (Hsmall : forall j : nat, (j < 256)%nat ->
            distortion_to (s_red result) (s_green result) (s_blue result)
                          (palette !!! j) < 256 * 256 * 4).
  { intros j Hj.
    pose proof (distortion_bound _ _ _ (palette !!! j) Hr Hg Hb
                  (proj1 (Hpal j Hj))).
    lia. }
  destruct (NearestPaletteColor_loop_min palette (s_red result)
              (s_green result) (s_blue result) Hsmall
              256 0 (256 * 256 * 4) 0)
    as (k & Hk & Hlt & Hmin & Hfirst);
    [reflexivity | lia | intros j Hj; lia | left; split; reflexivity |].
  exists k. rewrite Hk.
  split; [reflexivity | split; [exact Hlt | split]].
  - intros j Hj. exact (Hmin j Hj).
  - intros j Hj. exact (Hfirst j Hj).
Qed.

Lemma table_cell_is_nearest_witness :
  rgba_ok (ASTBlendPixel (mkRGBA 0 0 0 0) (grey_ramp !!! 3%nat)
             (grey_ramp !!! 200%nat) AST_SUBTRACT (blendamt_of 5))
  /\ exists k : nat,
       T_BlendTrans grey_ramp AST_SUBTRACT (fun _ _ => mkRGBA 0 0 0 0) 5
                    working_init !! (3 * 256 + 200)%nat
       = Some (Z.of_nat k)
       /\ (k < 256)%nat.
Proof.
  destruct (table_cell_is_nearest grey_ramp AST_SUBTRACT
              (fun _ _ => mkRGBA 0 0 0 0) 5 working_init 3 200)
    as (Hok & k & Hk & Hlt & _).
  - exact grey_ramp_loaded.
  - lia.
  - apply length_replicate.
  - lia.
  - lia.
  - split; [exact Hok |]. exists k. split; [exact Hk | exact Hlt].
Defined.
